(** * PKGER (pkger-g.py): package-operation engine

    A shallow embedding of the parts of [pkger-g.py] that run package
    operations, parse the text printed by pacman and yay, and cache package
    details, with the properties of each part.

    Python [str] values are modelled by [string]; a character is a code
    point below 256.  External processes are given by an oracle from the
    argument vector to what the process does, so every function here is a
    total, executable function of its inputs and of that oracle. *)

From Stdlib Require Import String Ascii List ZArith Lia Bool Arith.
From Stdlib Require Import Numbers.DecimalString.
From Stdlib Require Import Sorted.
Import ListNotations.

Local Open Scope list_scope.
Local Open Scope string_scope.

(** ** Python string operations *)

Module PyStr.

(** [str.isspace] on one character, for code points below 256:
    TAB..CR, FS..US, SPACE, NEL and NBSP. *)
Definition isspace (c : ascii) : bool :=
  let n := nat_of_ascii c in
  (((9 <=? n) && (n <=? 13)) || ((28 <=? n) && (n <=? 32))
   || (n =? 133) || (n =? 160))%nat.

(** [str.lower] on one character: A..Z, and the Latin-1 capitals
    U+00C0..U+00DE apart from the multiplication sign U+00D7. *)
Definition lower_char (c : ascii) : ascii :=
  let n := nat_of_ascii c in
  if (((65 <=? n) && (n <=? 90))
      || ((192 <=? n) && (n <=? 222) && negb (n =? 215)))%nat
  then ascii_of_nat (n + 32) else c.

(** The capital of one character, where it is one code point below 256:
    a..z and U+00E0..U+00FE apart from the division sign U+00F7. *)
Definition upper_char (c : ascii) : ascii :=
  let n := nat_of_ascii c in
  if (((97 <=? n) && (n <=? 122))
      || ((224 <=? n) && (n <=? 254) && negb (n =? 247)))%nat
  then ascii_of_nat (n - 32) else c.

(** The title-case form [str.capitalize] gives the first character: its
    capital, and the two letters Ss for U+00DF.  (The capitals of U+00B5
    and U+00FF are U+039C and U+0178, which are not code points below
    256: a string that starts with one of these two is outside what
    [string] can hold after capitalizing, and is left as it is.) *)
Definition title_char (c : ascii) : string :=
  if (nat_of_ascii c =? 223)%nat then "Ss" else String (upper_char c) "".

(** [s.lower()] *)
Fixpoint lower (s : string) : string :=
  match s with
  | EmptyString => EmptyString
  | String c r => String (lower_char c) (lower r)
  end.

(** [s.capitalize()]: first character in title case, the rest lowered. *)
Definition capitalize (s : string) : string :=
  match s with
  | EmptyString => EmptyString
  | String c r => title_char c ++ lower r
  end.

(** [s.startswith(p)] *)
Fixpoint startswith (p s : string) : bool :=
  match p, s with
  | EmptyString, _ => true
  | String _ _, EmptyString => false
  | String a p', String b s' => Ascii.eqb a b && startswith p' s'
  end.

(** [p in s] for strings: [p] occurs in [s] as a contiguous run. *)
Fixpoint str_in (p s : string) : bool :=
  startswith p s ||
  match s with
  | EmptyString => false
  | String _ r => str_in p r
  end.

(** [c in s] for one character. *)
Fixpoint char_in (c : ascii) (s : string) : bool :=
  match s with
  | EmptyString => false
  | String a r => Ascii.eqb a c || char_in c r
  end.

(** The number of positions of [s] at which [p] starts. *)
Fixpoint occurrences (p s : string) : nat :=
  (if startswith p s then 1 else 0) +
  match s with
  | EmptyString => 0
  | String _ r => occurrences p r
  end.

(** [s.lstrip()] *)
Fixpoint lstrip (s : string) : string :=
  match s with
  | EmptyString => EmptyString
  | String c r => if isspace c then lstrip r else s
  end.

(** [s.rstrip()]: a character is dropped when it is white space and
    everything after it is dropped too. *)
Fixpoint rstrip (s : string) : string :=
  match s with
  | EmptyString => EmptyString
  | String c r =>
      match rstrip r with
      | EmptyString => if isspace c then EmptyString else String c EmptyString
      | r' => String c r'
      end
  end.

(** [s.strip()] *)
Definition strip (s : string) : string := rstrip (lstrip s).

(** [s.split(sep)] for a one-character separator: every occurrence cuts. *)
Fixpoint split (sep : ascii) (s : string) : list string :=
  match s with
  | EmptyString => [EmptyString]
  | String c r =>
      if Ascii.eqb c sep then EmptyString :: split sep r
      else match split sep r with
           | h :: t => String c h :: t
           | [] => [String c EmptyString]
           end
  end.

(** [s.split(sep, maxsplit)] for a one-character separator: only the first
    [maxsplit] occurrences cut. *)
Fixpoint splitn (sep : ascii) (maxsplit : nat) (s : string) : list string :=
  match maxsplit with
  | O => [s]
  | S m =>
      (fix cut (s : string) : list string :=
         match s with
         | EmptyString => [EmptyString]
         | String c r =>
             if Ascii.eqb c sep then EmptyString :: splitn sep m r
             else match cut r with
                  | h :: t => String c h :: t
                  | [] => [String c EmptyString]
                  end
         end) s
  end.

(** [s.split()]: the maximal runs of characters that are not white space. *)
Fixpoint split_ws (s : string) : list string :=
  match s with
  | EmptyString => []
  | String c r =>
      if isspace c then split_ws r
      else match r with
           | EmptyString => [String c EmptyString]
           | String c' _ =>
               if isspace c' then String c EmptyString :: split_ws r
               else match split_ws r with
                    | h :: t => String c h :: t
                    | [] => [String c EmptyString]
                    end
           end
  end.

(** [sep.join(l)] *)
Fixpoint join (sep : string) (l : list string) : string :=
  match l with
  | [] => EmptyString
  | [x] => x
  | x :: r => x ++ sep ++ join sep r
  end.

(** [s.replace(p, "")] for a non-empty [p]: occurrences are removed from
    left to right without overlap; [skip] counts the characters of the
    occurrence being removed that are still to be dropped. *)
Fixpoint remove_from (p : string) (skip : nat) (s : string) : string :=
  match s with
  | EmptyString => EmptyString
  | String c r =>
      match skip with
      | S k => remove_from p k r
      | O => if startswith p s then remove_from p (String.length p - 1) r
             else String c (remove_from p 0 r)
      end
  end.

Definition remove_all (p s : string) : string := remove_from p 0 s.

(** [str(n)] for an integer. *)
Definition str_of_Z (n : Z) : string := NilZero.string_of_int (Z.to_int n).

(** [l[-1]] of a list that [split] returned (never empty). *)
Definition last_field (l : list string) : string := List.last l EmptyString.

(** [l[0]] of such a list. *)
Definition first_field (l : list string) : string := List.hd EmptyString l.

(** [p] occurs in [s]: the specification of [str_in]. *)
Definition occurs (p s : string) : Prop := exists a b, s = a ++ p ++ b.

(** Only white space. *)
Fixpoint blank (s : string) : bool :=
  match s with
  | EmptyString => true
  | String c r => isspace c && blank r
  end.

(** No white space. *)
Fixpoint solid (s : string) : bool :=
  match s with
  | EmptyString => true
  | String c r => negb (isspace c) && solid r
  end.

(** A field of a line cut at white space, and a gap between two fields. *)
Definition word (s : string) : Prop := s <> "" /\ solid s = true.
Definition gap (s : string) : Prop := s <> "" /\ blank s = true.

(** Empty, or starting with a white-space character. *)
Definition ends_word (rest : string) : Prop :=
  match rest with
  | EmptyString => True
  | String c _ => isspace c = true
  end.

(** The part of [s] after the first [c] (nothing when there is none). *)
Fixpoint after_first (c : ascii) (s : string) : string :=
  match s with
  | EmptyString => EmptyString
  | String a r => if Ascii.eqb a c then r else after_first c r
  end.

End PyStr.

Import PyStr.

(** ** Command runner: [run_command_stream] *)

Module Runner.

(** How the read loop of a child process ends: the process exits with a
    code ([proc.wait()]), or an exception escapes from the loop. *)
Inductive ending : Type :=
| Exited (code : Z)
| Raised (e : string).

(** What [subprocess.Popen] does for an argument vector: it raises, or it
    starts a process whose successive [readline()] results are [reads]
    (an empty string is a read that found nothing while the process was
    still running). *)
Inductive child : Type :=
| SpawnFailed (e : string)
| Spawned (reads : list string) (fin : ending).

(** The calls the runner makes to its two callbacks. *)
Inductive call : Type :=
| OnOutput (t : string)
| OnHint (line : string).

(** [if password]: a password that is present and not empty. *)
Definition truthy (password : option string) : bool :=
  match password with
  | Some p => negb (p =? "")
  | None => false
  end.

(** [len(command) == 0 or command[0] != 'sudo'] *)
Definition not_sudo (command : list string) : bool :=
  match command with
  | [] => true
  | c :: _ => negb (c =? "sudo")
  end.

(** The script given to [bash -lc] when the password is piped to sudo. *)
Definition sudo_script (password : string) (command : list string) : string :=
  "echo '" ++ password ++ "' | sudo -S " ++ join " " command.

(** The argument vector handed to [subprocess.Popen]. *)
Definition popen_args (command : list string) (password : option string)
  : list string :=
  match password with
  | Some p =>
      if truthy password && not_sudo command
      then ["bash"; "-lc"; sudo_script p command]
      else command
  | None => command
  end.

(** The body of the [while True] loop over the lines that were read. *)
Fixpoint stream (with_hint : bool) (reads : list string) : list call :=
  match reads with
  | [] => []
  | line :: rest =>
      ((if line =? "" then []
        else OnOutput (rstrip line)
               :: (if with_hint then [OnHint line] else []))
       ++ stream with_hint rest)%list
  end.

(** [run_command_stream(command, on_output, on_progress_hint, password)]:
    the callback calls in order, and the returned status. *)
Definition run_command_stream (popen : list string -> child)
    (command : list string) (with_hint : bool) (password : option string)
  : list call * Z :=
  match popen (popen_args command password) with
  | SpawnFailed e => ([OnOutput ("ERROR: " ++ e)], 1%Z)
  | Spawned reads (Exited code) => (stream with_hint reads, code)
  | Spawned reads (Raised e) =>
      ((stream with_hint reads ++ [OnOutput ("ERROR: " ++ e)])%list, 1%Z)
  end.

(** The texts given to [on_output] among the callback calls. *)
Fixpoint outputs (cs : list call) : list string :=
  match cs with
  | [] => []
  | OnOutput t :: r => t :: outputs r
  | OnHint _ :: r => outputs r
  end.

End Runner.

(** ** Operation worker: [PackageOpWorker] *)

Module Worker.

Import Runner.

(** The calls queued with [GLib.idle_add] for the four UI callbacks. *)
Inductive ui_call : Type :=
| UiStatus (message : string)
| UiProgress (value : Z)
| UiOutput (text : string)
| UiDone (success : bool) (message : string).

(** [PackageOpWorker._progress_hint]: the calls one line queues. *)
Definition _progress_hint (line : string) : list ui_call :=
  let l := lower line in
  if str_in "downloading" l then [UiProgress 50]
  else if str_in "installing" l then [UiProgress 75]
  else if str_in "removing" l then [UiProgress 60]
  else if str_in "loading" l then [UiProgress 40]
  else [].

(** The two callbacks the worker hands to the runner. *)
Definition relay (c : call) : list ui_call :=
  match c with
  | OnOutput t => [UiOutput t]
  | OnHint line => _progress_hint line
  end.

(** [PackageOpWorker.run] *)
Definition run (popen : list string -> child) (command : list string)
    (operation : string) (password : option string) : list ui_call :=
  let '(calls, ret) := run_command_stream popen command true password in
  ([UiStatus ("Starting " ++ operation ++ "..."); UiProgress 10]
   ++ flat_map relay calls
   ++ [UiProgress 100]
   ++ [if (ret =? 0)%Z
       then UiDone true (capitalize operation ++ " completed successfully!")
       else UiDone false (capitalize operation ++ " failed with code "
                          ++ str_of_Z ret)])%list.

(** The progress values among queued calls, in order. *)
Fixpoint progress_values (t : list ui_call) : list Z :=
  match t with
  | [] => []
  | UiProgress v :: r => v :: progress_values r
  | _ :: r => progress_values r
  end.

(** The number of [done] calls among queued calls. *)
Fixpoint done_count (t : list ui_call) : nat :=
  match t with
  | [] => 0
  | UiDone _ _ :: r => S (done_count r)
  | _ :: r => done_count r
  end.

(** A list of integers never goes down. *)
Fixpoint nondecreasing (l : list Z) : bool :=
  match l with
  | [] => true
  | x :: r =>
      match r with
      | [] => true
      | y :: _ => (x <=? y)%Z && nondecreasing r
      end
  end.

End Worker.

(** ** Queries: [subprocess.run] *)

Module Query.

(** What [subprocess.run(argv, capture_output=True, text=True, ...)] does:
    it raises (the program is missing, the timeout expires), or it returns
    the exit status and the captured standard output. *)
Inductive run_result : Type :=
| Failed
| Completed (returncode : Z) (stdout : string).

(** The system the queries are put to. *)
Definition system : Type := list string -> run_result.

Definition nonempty (s : string) : bool := negb (s =? "").

(** The line feed that [split('\n')] cuts at. *)
Definition LF : ascii := ascii_of_nat 10.

End Query.

(** ** Sample systems and processes *)

Module Samples.

Import Runner Query.

(** A system on which every query fails to run: nothing is installed. *)
Definition nothing_installed : system := fun _ => Failed.

(** A process that prints an install line and then a removal line. *)
Definition install_then_remove (argv : list string) : child :=
  Spawned ["installing linux (6.6.1)..."; "removing linux-lts..."] (Exited 0).

(** A process that names the package it installs. *)
Definition prints_package (argv : list string) : child :=
  Spawned ["resolving dependencies..."; "installing vim..."] (Exited 0).

End Samples.

(** ** Search engine: [SearchWorker] *)

Module Search.

Import Query.

(** The dictionary built for one search result. *)
Record package : Type := mkPackage {
  name : string;
  pkg : string;
  version : string;
  description : string;
  repository : string;
  installed : bool
}.

(** [SearchWorker._is_installed] *)
Definition _is_installed (sys : system) (n : string) : bool :=
  match sys ["pacman"; "-Q"; n] with
  | Completed r _ => (r =? 0)%Z
  | Failed => false
  end.

(** The record appended for a line of [pacman -Ss] cut into [parts]. *)
Definition pacman_record (sys : system) (parts : list string)
    (descr : string) : package :=
  let n := nth 0 parts "" in
  let v := if (1 <? List.length parts)%nat then nth 1 parts "" else "" in
  let repo := if char_in "/" n then first_field (split "/" n)
              else "unknown" in
  let pkg_name := last_field (split "/" n) in
  mkPackage n pkg_name v descr repo (_is_installed sys pkg_name).

(** The [while i < len(lines)] loop of [_parse_pacman_search]; taking the
    description line is the extra [i += 1]. *)
Fixpoint pacman_lines (sys : system) (lines : list string) : list package :=
  match lines with
  | [] => []
  | l :: rest =>
      let line := strip l in
      if nonempty line && negb (startswith " " line) then
        let parts := splitn " " 1 line in
        if (2 <=? List.length parts)%nat then
          match rest with
          | d :: rest' =>
              if startswith "    " d
              then pacman_record sys parts (strip d) :: pacman_lines sys rest'
              else pacman_record sys parts "" :: pacman_lines sys rest
          | [] => [pacman_record sys parts ""]
          end
        else pacman_lines sys rest
      else pacman_lines sys rest
  end.

(** [SearchWorker._parse_pacman_search] *)
Definition _parse_pacman_search (sys : system) (output : string)
  : list package :=
  pacman_lines sys (split LF output).

(** The body of the [for line in lines] loop of [_parse_aur_search]. *)
Definition aur_line (sys : system) (line : string) : list package :=
  if nonempty (strip line) && negb (startswith " " line) then
    let parts := splitn " " 2 line in
    if (2 <=? List.length parts)%nat then
      let p0 := nth 0 parts "" in
      let n := if p0 =? "aur/" then nth 1 parts "" else p0 in
      let v := if p0 =? "aur/" then nth 1 parts "" else "" in
      let d := if (2 <? List.length parts)%nat then nth 2 parts "" else "" in
      [mkPackage n n v d "aur" (_is_installed sys n)]
    else []
  else [].

(** [SearchWorker._parse_aur_search] *)
Definition _parse_aur_search (sys : system) (output : string)
  : list package :=
  flat_map (aur_line sys) (split LF output).

End Search.

(** ** Blocks of [pacman -Ss] output, line by line *)

Module Block.

Import Query Search.

(** A line with a name [n] and a version [v], with the description line
    that may follow it; or a line that has no version. *)
Inductive entry : Type :=
| Rec (header n v : string) (descr : option string)
| Skip (line : string).

Definition lines_of (e : entry) : list string :=
  match e with
  | Rec h _ _ None => [h]
  | Rec h _ _ (Some d) => [h; d]
  | Skip l => [l]
  end.

(** The header, once stripped, is the name, one space and the version; a
    description line starts with four spaces, and no other line does. *)
Definition well_formed (e : entry) : Prop :=
  match e with
  | Rec h n v d =>
      startswith "    " h = false
      /\ strip h = n ++ " " ++ v
      /\ char_in " " n = false
      /\ match d with
         | Some x => startswith "    " x = true
         | None => True
         end
  | Skip l => startswith "    " l = false /\ char_in " " (strip l) = false
  end.

Definition description_of (d : option string) : string :=
  match d with
  | Some x => strip x
  | None => ""
  end.

Definition records_of (sys : system) (e : entry) : list package :=
  match e with
  | Rec _ n v d => [pacman_record sys [n; v] (description_of d)]
  | Skip _ => []
  end.

(** A line that does not start with white space. *)
Definition nonindented (s : string) : Prop :=
  match s with
  | EmptyString => False
  | String c _ => isspace c = false
  end.

(** An entry whose first line is not indented: a line with a version
    starts with a character that is not white space, and a line without
    one is empty or starts with such a character. *)
Definition flush (e : entry) : Prop :=
  match e with
  | Rec h _ _ _ => nonindented h
  | Skip l => l = "" \/ nonindented l
  end.

Definition no_line_feed (s : string) : Prop := char_in LF s = false.

End Block.

(** ** Update scanner: the worker of [load_updates_data] *)

Module Updates.

Import Query.

(** One pending update: the dictionary with keys name, from and to. *)
Record update_item : Type := mkItem {
  name : string;
  from : string;
  to : string
}.

(** The body of the loop over the lines of [pacman -Qu]. *)
Definition update_line (line : string) : list update_item :=
  if negb (nonempty (strip line)) then []
  else
    let parts := split_ws line in
    if (4 <=? List.length parts)%nat && (nth 2 parts "" =? "->")
    then [mkItem (nth 0 parts "") (nth 1 parts "") (nth 3 parts "")]
    else [].

(** The list the worker of [load_updates_data] hands to
    [_apply_updates_data], given what running [pacman -Qu] did. *)
Definition load_updates_data (r : run_result) : list update_item :=
  match r with
  | Failed => []
  | Completed _ out => flat_map update_line (split LF (strip out))
  end.

End Updates.

(** ** Details resolver: [_get_package_details] and its cache *)

Module Details.

Import Query.

(** The [info] dictionary: its ten keys are fixed, so it is a record. *)
Record info : Type := mkInfo {
  Name : string;
  Version : string;
  Repository : string;
  Installed : string;
  InstalledSize : string;
  License : string;
  URL : string;
  Description : string;
  Depends : list string;
  RequiredBy : list string
}.

(** [self.details_cache]: a Python dict, whose keys are kept in the order
    they were first inserted. *)
Definition cache : Type := list (string * info).

Definition keys (d : cache) : list string := map fst d.

(** [d[k]] when [k in d] *)
Fixpoint lookup (k : string) (d : cache) : option info :=
  match d with
  | [] => None
  | (k', v) :: r => if k' =? k then Some v else lookup k r
  end.

(** [d[k] = v]: a key that is present keeps its place, a new key goes to
    the end. *)
Fixpoint store (k : string) (v : info) (d : cache) : cache :=
  match d with
  | [] => [(k, v)]
  | (k', v') :: r => if k' =? k then (k', v) :: r
                     else (k', v') :: store k v r
  end.

(** [d.pop(k, None)] *)
Fixpoint pop (k : string) (d : cache) : cache :=
  match d with
  | [] => []
  | (k', v') :: r => if k' =? k then r else (k', v') :: pop k r
  end.

(** [for k in list(d.keys())[:50]: d.pop(k, None)] *)
Definition cull (d : cache) : cache :=
  fold_left (fun acc k => pop k acc) (firstn 50 (keys d)) d.

(** The assignment one line of a key: value block makes. *)
Definition parse_line (line : string) (i : info) : info :=
  if char_in ":" line then
    let parts := splitn ":" 1 line in
    let key := strip (nth 0 parts "") in
    let val := strip (nth 1 parts "") in
    let kl := lower key in
    if kl =? "version" then
      mkInfo (Name i) val (Repository i) (Installed i) (InstalledSize i)
             (License i) (URL i) (Description i) (Depends i) (RequiredBy i)
    else if (kl =? "repository") || (kl =? "repo") then
      mkInfo (Name i) (Version i) val (Installed i) (InstalledSize i)
             (License i) (URL i) (Description i) (Depends i) (RequiredBy i)
    else if kl =? "installed size" then
      mkInfo (Name i) (Version i) (Repository i) (Installed i) val
             (License i) (URL i) (Description i) (Depends i) (RequiredBy i)
    else if kl =? "license" then
      mkInfo (Name i) (Version i) (Repository i) (Installed i)
             (InstalledSize i) val (URL i) (Description i) (Depends i)
             (RequiredBy i)
    else if kl =? "url" then
      mkInfo (Name i) (Version i) (Repository i) (Installed i)
             (InstalledSize i) (License i) val (Description i) (Depends i)
             (RequiredBy i)
    else if kl =? "description" then
      mkInfo (Name i) (Version i) (Repository i) (Installed i)
             (InstalledSize i) (License i) (URL i) val (Depends i)
             (RequiredBy i)
    else if (kl =? "depends on") || (kl =? "depends") then
      mkInfo (Name i) (Version i) (Repository i) (Installed i)
             (InstalledSize i) (License i) (URL i) (Description i)
             (map strip
                (filter (fun p => nonempty (strip p))
                   (split_ws (remove_all "None" val))))
             (RequiredBy i)
    else i
  else i.

(** [_parse_key_values(text, info)] *)
Definition _parse_key_values (text : string) (i : info) : info :=
  fold_left (fun acc line => parse_line line acc) (split LF text) i.

(** [[l.strip() for l in out.split('\n') if l.strip()][:50]] *)
Definition tree_lines (out : string) : list string :=
  firstn 50 (map strip (filter (fun l => nonempty (strip l))
                          (split LF out))).

Definition set_installed (i : info) : info :=
  mkInfo (Name i) (Version i) (Repository i) "Yes" (InstalledSize i)
         (License i) (URL i) (Description i) (Depends i) (RequiredBy i).

Definition set_depends (l : list string) (i : info) : info :=
  mkInfo (Name i) (Version i) (Repository i) (Installed i) (InstalledSize i)
         (License i) (URL i) (Description i) l (RequiredBy i).

Definition set_required_by (l : list string) (i : info) : info :=
  mkInfo (Name i) (Version i) (Repository i) (Installed i) (InstalledSize i)
         (License i) (URL i) (Description i) (Depends i) l.

(** The first [try] block: the installed-package query and, when it does
    not succeed, the query of the package source.  The result comes with
    the argument vectors that were run. *)
Definition primary (sys : system) (n repo : string) (i : info)
  : info * list (list string) :=
  let qi := ["pacman"; "-Qi"; n] in
  match sys qi with
  | Failed => (i, [qi])
  | Completed r out =>
      if (r =? 0)%Z then (_parse_key_values out (set_installed i), [qi])
      else
        let si := if repo =? "aur" then ["yay"; "-Si"; n]
                  else ["pacman"; "-Si"; n] in
        match sys si with
        | Failed => (i, [qi; si])
        | Completed r' out' =>
            if (r' =? 0)%Z then (_parse_key_values out' i, [qi; si])
            else (i, [qi; si])
        end
  end.

(** One of the two [pactree] blocks. *)
Definition tree (sys : system) (argv : list string) : option (list string) :=
  match sys argv with
  | Failed => None
  | Completed r out => if (r =? 0)%Z then Some (tree_lines out) else None
  end.

Definition cache_key (n repo : string) (with_deps : bool) : string :=
  repo ++ ":" ++ n ++ ":" ++ (if with_deps then "deps" else "nodeps").

(** The details computed on a cache miss, with the argument vectors run. *)
Definition resolve (sys : system) (n repo : string) (with_deps : bool)
  : info * list (list string) :=
  let i0 := mkInfo n "-" repo "No" "-" "-" "-" "-" [] [] in
  let '(i1, ran1) := primary sys n repo i0 in
  if with_deps then
    let dep := ["pactree"; n] in
    let rdep := ["pactree"; "-r"; n] in
    let i2 := match tree sys dep with
              | Some l => set_depends l i1
              | None => i1
              end in
    let i3 := match tree sys rdep with
              | Some l => set_required_by l i2
              | None => i2
              end in
    (i3, (ran1 ++ [dep; rdep])%list)
  else (i1, ran1).

(** The outcome of one call: the returned details, the cache afterwards
    and the processes that were run. *)
Record outcome : Type := mkOutcome {
  result : info;
  cache_after : cache;
  spawned : list (list string)
}.

(** [PKGERWindow._get_package_details(name, repo, with_deps)] on the
    cache [d]. *)
Definition _get_package_details (sys : system) (d : cache)
    (n repo : string) (with_deps : bool) : outcome :=
  let k := cache_key n repo with_deps in
  match lookup k d with
  | Some v => mkOutcome v d []
  | None =>
      let '(i, ran) := resolve sys n repo with_deps in
      let d1 := store k i d in
      let d2 := if (200 <? List.length d1)%nat then cull d1 else d1 in
      mkOutcome i d2 ran
  end.

(** One request for details. *)
Record request : Type := mkRequest {
  req_sys : system;
  req_name : string;
  req_repo : string;
  req_deps : bool
}.

Definition serve (d : cache) (q : request) : cache :=
  cache_after (_get_package_details (req_sys q) d (req_name q) (req_repo q)
                 (req_deps q)).

(** The caches reached from [{}] by calls of [_get_package_details] none
    of which overlaps another: each call runs to its return before the
    next one starts.  (Calls that overlap, as the threads of the window
    allow, are followed step by step in [Threads] below.) *)
Inductive reachable : cache -> Prop :=
| reach_init : reachable []
| reach_call d q : reachable d -> reachable (serve d q).

(** The cache right after the insertion of a miss, before the bound is
    looked at. *)
Definition after_insertion (sys : system) (d : cache) (n repo : string)
    (with_deps : bool) : cache :=
  let k := cache_key n repo with_deps in
  match lookup k d with
  | Some _ => d
  | None => store k (fst (resolve sys n repo with_deps)) d
  end.

End Details.

(** ** Sample caches *)

Module CacheSamples.

Import Details.

(** The request for the details of the package numbered [i]. *)
Definition sample_request (i : nat) : request :=
  mkRequest Samples.nothing_installed ("pkg" ++ str_of_Z (Z.of_nat i))
    "core" false.

(** The cache after the requests numbered 0 to [n - 1]. *)
Definition filled (n : nat) : cache :=
  fold_left serve (map sample_request (seq 0 n)) [].

End CacheSamples.

(** ** Calls of [_get_package_details] on threads

    The window calls [_get_package_details] on threads, and holds no lock
    on [details_cache]: [_load_current_deps] and
    [_fetch_and_show_repo_details] start a thread at every call, and
    [fetch_and_show_details] starts one when its own last thread has
    ended.  So the operations of several calls on the dictionary can
    interleave.  A call is followed here one operation on the dictionary
    at a time. *)

Module Threads.

Import Query Details.

Definition key_of (q : request) : string :=
  cache_key (req_name q) (req_repo q) (req_deps q).

(** Where a thread stands in [_get_package_details]: before the test
    [cache_key in self.details_cache], before the subscript of a hit,
    before the queries of a miss, before the assignment of the fresh
    details, before the test of [len], before [list(keys())[:50]], inside
    the [for] loop with the keys still to pop, before [return]; then
    returned, or ended by the [KeyError] of the subscript. *)
Inductive thread : Type :=
| AtMember (q : request)
| AtSubscript (q : request)
| AtQueries (q : request)
| AtStore (q : request) (i : info)
| AtLen (q : request) (i : info)
| AtKeys (q : request) (i : info)
| AtPop (q : request) (i : info) (ks : list string)
| AtReturn (q : request) (i : info)
| Returned (q : request) (i : info)
| KeyError (q : request).

(** The next operation of a thread on the dictionary [d]. *)
Definition advance (d : cache) (t : thread) : cache * thread :=
  match t with
  | AtMember q =>
      match lookup (key_of q) d with
      | Some _ => (d, AtSubscript q)
      | None => (d, AtQueries q)
      end
  | AtSubscript q =>
      match lookup (key_of q) d with
      | Some v => (d, AtReturn q v)
      | None => (d, KeyError q)
      end
  | AtQueries q =>
      (d, AtStore q (fst (resolve (req_sys q) (req_name q) (req_repo q)
                            (req_deps q))))
  | AtStore q i => (store (key_of q) i d, AtLen q i)
  | AtLen q i =>
      if (200 <? List.length d)%nat then (d, AtKeys q i) else (d, AtReturn q i)
  | AtKeys q i => (d, AtPop q i (firstn 50 (keys d)))
  | AtPop q i (k :: ks) => (pop k d, AtPop q i ks)
  | AtPop q i [] => (d, AtReturn q i)
  | AtReturn q i => (d, Returned q i)
  | Returned _ _ => (d, t)
  | KeyError _ => (d, t)
  end.

Definition returned (t : thread) : bool :=
  match t with
  | Returned _ _ => true
  | _ => false
  end.

(** The details a thread returned, if it has. *)
Definition answer (t : thread) : option info :=
  match t with
  | Returned _ i => Some i
  | _ => None
  end.

(** The dictionary and the threads that were started, in the order they
    were started. *)
Record pool : Type := mkPool {
  shared : cache;
  threads : list thread
}.

Definition empty_pool : pool := mkPool [] [].

(** What happens next: a thread is started on a request, or the thread
    numbered [i] does its next operation. *)
Inductive act : Type :=
| Call (q : request)
| Turn (i : nat).

Fixpoint set_nth (i : nat) (t : thread) (ts : list thread) : list thread :=
  match ts, i with
  | [], _ => []
  | _ :: r, O => t :: r
  | x :: r, S j => x :: set_nth j t r
  end.

Definition perform (s : pool) (a : act) : pool :=
  match a with
  | Call q => mkPool (shared s) (threads s ++ [AtMember q])%list
  | Turn i =>
      match nth_error (threads s) i with
      | Some t =>
          let '(d, t') := advance (shared s) t in
          mkPool d (set_nth i t' (threads s))
      | None => s
      end
  end.

Definition play (s : pool) (acts : list act) : pool :=
  fold_left perform acts s.

(** [fuel] operations of one thread with no operation of another thread
    in between. *)
Fixpoint finish (fuel : nat) (d : cache) (t : thread) : cache * thread :=
  match fuel with
  | O => (d, t)
  | S f => let '(d', t') := advance d t in finish f d' t'
  end.

(** A call has at most 57 operations: the test, the queries, the
    assignment, the test of [len], the list of keys, at most 50 pops, the
    end of the loop and the return. *)
Definition alone (d : cache) (q : request) : cache * thread :=
  finish 57 d (AtMember q).

(** Calls that do not overlap: the thread numbered [first] is started and
    does all its operations, then the next one. *)
Fixpoint serial (first : nat) (qs : list request) : list act :=
  match qs with
  | [] => []
  | q :: r => (Call q :: repeat (Turn first) 57 ++ serial (S first) r)%list
  end.

End Threads.

(** ** Sample schedules of overlapping calls *)

Module ThreadSamples.

Import Details CacheSamples Threads.

(** 199 calls one after the other; then two calls overlap: thread 199
    stores its details and tests [len], thread 200 stores its details,
    and thread 199 returns. *)
Definition late_store : list act :=
  (serial 0 (map sample_request (seq 0 199))
   ++ [Call (sample_request 199); Call (sample_request 200)]
   ++ repeat (Turn 199) 4 ++ repeat (Turn 200) 3 ++ [Turn 199])%list.

(** 200 calls one after the other; then five calls overlap: each of the
    threads 200 to 204 stores its details and tests [len]; then the
    threads 200 to 203 each take the first 50 keys and pop them, and
    return; then thread 204 does the same. *)
Definition five_misses : list act :=
  (serial 0 (map sample_request (seq 0 200))
   ++ map (fun i => Call (sample_request i)) (seq 200 5)
   ++ flat_map (fun i => repeat (Turn i) 4) (seq 200 5)
   ++ flat_map (fun i => repeat (Turn i) 53) (seq 200 4)
   ++ repeat (Turn 204) 8)%list.

End ThreadSamples.

(** ** The window and its single worker slot: [PKGERWindow] *)

Module Window.

Import Runner Worker.

(** A [PackageOpWorker] thread: the [idle_add] calls its [run] has still
    to make, and whether [is_alive()] holds. *)
Record worker : Type := mkWorker {
  w_command : list string;
  w_operation : string;
  w_password : option string;
  w_pending : list ui_call;
  w_alive : bool
}.

Inductive dialog : Type :=
| Warn (title text : string)
| Info (title text : string)
| Error (title text : string).

(** The widgets the operation code reads and writes.  The fraction of the
    progress bar is kept in hundredths. *)
Record widgets : Type := mkWidgets {
  textbuf : string;
  progress_visible : bool;
  progress_fraction : Z;
  progress_text : string;
  status : string;
  install_btn : bool;
  remove_btn : bool;
  reinstall_btn : bool;
  update_btn : bool;
  clean_btn : bool;
  browse_btn : bool;
  installed_view : bool
}.

Record window : Type := mkWindow {
  current_worker : option nat;
  workers : list worker;
  sudo_password : option string;
  ui : widgets;
  idle : list ui_call;
  dialogs : list dialog
}.

(** The window as [__init__] leaves it. *)
Definition init : window :=
  mkWindow None [] None
    (mkWidgets "" false 0 "" "Ready" false false false true true true false)
    [] [].

(** [append_output(text)] at the clock reading [now]. *)
Definition append_output (now text : string) (u : widgets) : widgets :=
  mkWidgets (textbuf u ++ "[" ++ now ++ "] " ++ text ++ String Query.LF "")
    (progress_visible u) (progress_fraction u) (progress_text u) (status u)
    (install_btn u) (remove_btn u) (reinstall_btn u) (update_btn u)
    (clean_btn u) (browse_btn u) (installed_view u).

(** [set_status(message)] *)
Definition set_status (message : string) (u : widgets) : widgets :=
  mkWidgets (textbuf u) (progress_visible u) (progress_fraction u)
    (progress_text u) message
    (install_btn u) (remove_btn u) (reinstall_btn u) (update_btn u)
    (clean_btn u) (browse_btn u) (installed_view u).

(** [set_progress_value(value)] *)
Definition set_progress_value (value : Z) (u : widgets) : widgets :=
  if (value <=? 0)%Z then
    mkWidgets (textbuf u) false (progress_fraction u) (progress_text u)
      (status u) (install_btn u) (remove_btn u) (reinstall_btn u)
      (update_btn u) (clean_btn u) (browse_btn u) (installed_view u)
  else
    mkWidgets (textbuf u) true (Z.max 0 (Z.min 100 value))
      (str_of_Z value ++ "%")
      (status u) (install_btn u) (remove_btn u) (reinstall_btn u)
      (update_btn u) (clean_btn u) (browse_btn u) (installed_view u).

(** [_set_controls_sensitive(enabled)] *)
Definition _set_controls_sensitive (enabled : bool) (u : widgets) : widgets :=
  mkWidgets (textbuf u) (progress_visible u) (progress_fraction u)
    (progress_text u) (status u)
    (enabled && install_btn u) (enabled && remove_btn u)
    (enabled && reinstall_btn u) enabled enabled enabled (installed_view u).

Definition set_textbuf (t : string) (u : widgets) : widgets :=
  mkWidgets t (progress_visible u) (progress_fraction u) (progress_text u)
    (status u) (install_btn u) (remove_btn u) (reinstall_btn u)
    (update_btn u) (clean_btn u) (browse_btn u) (installed_view u).

(** [self.current_worker and self.current_worker.is_alive()] *)
Definition busy (s : window) : bool :=
  match current_worker s with
  | Some i => match nth_error (workers s) i with
              | Some w => w_alive w
              | None => false
              end
  | None => false
  end.

(** The rejection branch of [run_package_operation]. *)
Definition reject (s : window) : window :=
  mkWindow (current_worker s) (workers s) (sudo_password s) (ui s) (idle s)
    (dialogs s ++ [Warn "Operation in Progress"
                     "Another operation is already running. Please wait."])%list.

(** [run_package_operation(command, operation_type)]; [popen] is what the
    process started by the new worker will do. *)
Definition run_package_operation (popen : list string -> child)
    (command : list string) (operation_type : string) (s : window) : window :=
  if busy s then reject s
  else
    let u := _set_controls_sensitive false
               (set_status ("Starting " ++ operation_type ++ "...")
                  (set_progress_value 0 (set_textbuf "" (ui s)))) in
    let w := mkWorker command operation_type (sudo_password s)
               (run popen command operation_type (sudo_password s)) true in
    mkWindow (Some (List.length (workers s))) (workers s ++ [w])%list
      (sudo_password s) u (idle s) (dialogs s).

(** [on_operation_finished(success, message)]; when the installed list is
    shown, the reload starts with one output line and a status. *)
Definition on_operation_finished (now : string) (success : bool)
    (message : string) (s : window) : window :=
  let u := _set_controls_sensitive true
             (set_status "Ready" (set_progress_value 0 (ui s))) in
  if success then
    let u' := if installed_view u
              then set_status "Loading packages..."
                     (append_output now "Loading installed packages..." u)
              else u in
    mkWindow (current_worker s) (workers s) (sudo_password s) u' (idle s)
      (dialogs s ++ [Info "Success" message])%list
  else
    mkWindow (current_worker s) (workers s) (sudo_password s) u (idle s)
      (dialogs s ++ [Error "Error" message])%list.

Definition with_ui (u : widgets) (s : window) : window :=
  mkWindow (current_worker s) (workers s) (sudo_password s) u (idle s)
    (dialogs s).

(** The main loop runs one queued call: the [ui_callbacks] dictionary. *)
Definition dispatch (now : string) (s : window) : window :=
  match idle s with
  | [] => s
  | c :: rest =>
      let s' := mkWindow (current_worker s) (workers s) (sudo_password s)
                  (ui s) rest (dialogs s) in
      match c with
      | UiOutput t => with_ui (append_output now t (ui s')) s'
      | UiProgress v => with_ui (set_progress_value v (ui s')) s'
      | UiStatus m => with_ui (set_status m (ui s')) s'
      | UiDone ok m => on_operation_finished now ok m s'
      end
  end.

(** Worker [i] reaches its next [GLib.idle_add]. *)
Fixpoint queue_next (i : nat) (ws : list worker)
  : list worker * list ui_call :=
  match ws, i with
  | [], _ => ([], [])
  | w :: r, O =>
      match w_alive w, w_pending w with
      | true, c :: rest =>
          (mkWorker (w_command w) (w_operation w) (w_password w) rest true
             :: r, [c])
      | _, _ => (ws, [])
      end
  | w :: r, S j => let '(r', q) := queue_next j r in (w :: r', q)
  end.

(** The [run] of worker [i] has returned: the thread is no longer alive. *)
Fixpoint exit_worker (i : nat) (ws : list worker) : list worker :=
  match ws, i with
  | [], _ => []
  | w :: r, O =>
      match w_pending w with
      | [] => mkWorker (w_command w) (w_operation w) (w_password w) [] false
                :: r
      | _ :: _ => ws
      end
  | w :: r, S j => w :: exit_worker j r
  end.

(** What can happen next: a handler asks for an operation, a worker thread
    advances or ends, the main loop runs a queued call, a password is
    stored by [request_sudo], or some other handler changes the widgets. *)
Inductive event : Type :=
| Request (popen : list string -> child) (command : list string)
    (operation_type : string)
| WorkerQueues (i : nat)
| WorkerExits (i : nat)
| Dispatch (now : string)
| StorePassword (p : string)
| Other (u : widgets).

Definition step (e : event) (s : window) : window :=
  match e with
  | Request popen command op => run_package_operation popen command op s
  | WorkerQueues i =>
      let '(ws, q) := queue_next i (workers s) in
      mkWindow (current_worker s) ws (sudo_password s) (ui s)
        (idle s ++ q)%list (dialogs s)
  | WorkerExits i =>
      mkWindow (current_worker s) (exit_worker i (workers s))
        (sudo_password s) (ui s) (idle s) (dialogs s)
  | Dispatch now => dispatch now s
  | StorePassword p =>
      mkWindow (current_worker s) (workers s) (Some p) (ui s) (idle s)
        (dialogs s)
  | Other u => with_ui u s
  end.

(** The window after a sequence of events, oldest first. *)
Definition run_events (es : list event) (s : window) : window :=
  fold_left (fun acc e => step e acc) es s.

Inductive reachable : window -> Prop :=
| reach_init : reachable init
| reach_step e s : reachable s -> reachable (step e s).

(** The number of worker threads that are alive. *)
Definition active (s : window) : nat :=
  List.length (filter w_alive (workers s)).

(** A done call has been run by the main loop: it leaves its dialog. *)
Definition finished (d : dialog) : bool :=
  match d with
  | Info t _ => t =? "Success"
  | Error t _ => t =? "Error"
  | Warn _ _ => false
  end.

(** The invariant of the worker slot: a thread that is alive is the one
    the slot holds, and a thread that has ended has nothing left to
    queue. *)
Definition slot_invariant (s : window) : Prop :=
  (forall i w, nth_error (workers s) i = Some w -> w_alive w = true ->
               current_worker s = Some i)
  /\ (forall i w, nth_error (workers s) i = Some w -> w_alive w = false ->
                  w_pending w = []).

(** A process that installs one package and exits with status 0. *)
Definition installs_vim (argv : list string) : child :=
  Spawned ["installing vim..."] (Exited 0).

(** A schedule in which the worker has queued all six of its calls and the
    main loop has run them, the done call last, while the thread has not
    yet ended. *)
Definition done_before_exit : list event :=
  [Request installs_vim ["pacman"; "-S"; "vim"; "--noconfirm"] "install";
   WorkerQueues 0; WorkerQueues 0; WorkerQueues 0; WorkerQueues 0;
   WorkerQueues 0; WorkerQueues 0;
   Dispatch "10:00:00"; Dispatch "10:00:00"; Dispatch "10:00:01";
   Dispatch "10:00:01"; Dispatch "10:00:02"; Dispatch "10:00:02"].

End Window.

(** ** What the callbacks received *)

Module Trace.

Import Runner Worker.

(** The raw lines given to [on_progress_hint] among the callback calls. *)
Fixpoint hints (cs : list call) : list string :=
  match cs with
  | [] => []
  | OnHint l :: r => l :: hints r
  | OnOutput _ :: r => hints r
  end.

(** The texts queued for the output callback of the window. *)
Fixpoint ui_outputs (t : list ui_call) : list string :=
  match t with
  | [] => []
  | UiOutput x :: r => x :: ui_outputs r
  | _ :: r => ui_outputs r
  end.

(** The reads that are not empty: the lines the loop passes on. *)
Definition lines_read (reads : list string) : list string :=
  filter Query.nonempty reads.

End Trace.

(** ** Sample systems for the details resolver *)

Module DetailSamples.

Import Query.

(** A system on which vim is installed, and [pactree] is missing. *)
Definition vim_installed : system :=
  fun argv =>
    match argv with
    | ["pacman"; "-Qi"; "vim"] =>
        Completed 0
          ("Name            : vim" ++ String LF
           ("Version         : 2:9.1.0-1" ++ String LF
            ("URL             : https://www.vim.org" ++ String LF
             ("Depends On      : vim-runtime  glibc  None" ++ String LF ""))))
    | ["pacman"; "-Qi"; _] => Completed 1 ""
    | ["pacman"; "-Si"; _] =>
        Completed 0 ("Repository      : extra" ++ String LF
                     ("Version         : 1.0-1" ++ String LF ""))
    | ["yay"; "-Si"; _] => Completed 1 ""
    | _ => Failed
    end.

(** A system on which both [pactree] runs succeed. *)
Definition with_trees : system :=
  fun argv =>
    match argv with
    | ["pactree"; _] =>
        Completed 0 ("vim" ++ String LF
                     ("  glibc " ++ String LF (String LF "")))
    | ["pactree"; "-r"; _] => Completed 0 ("vim" ++ String LF "")
    | _ => Failed
    end.

(** A system with pacman and without yay: the official search prints
    one package, which is installed. *)
Definition pacman_only : system :=
  fun argv =>
    match argv with
    | ["pacman"; "-Ss"; _] =>
        Completed 0 ("core/vim 2:9.1.0-1" ++ String LF "    Vi Improved")
    | ["pacman"; "-Q"; "vim"] => Completed 0 "vim 2:9.1.0-1"
    | _ => Failed
    end.

End DetailSamples.

(** ** What holds of every search record *)

Module RecordFacts.

Import Query Search.

(** The record of the official parser has a name with no space in it, a
    package name and a repository with no "/" in them, and the installed
    flag of its package name. *)
Definition official_record_ok (sys : system) (r : package) : Prop :=
  name r <> ""
  /\ char_in " " (name r) = false
  /\ char_in "/" (pkg r) = false
  /\ char_in "/" (repository r) = false
  /\ installed r = _is_installed sys (pkg r).

(** The record of the AUR parser has a name with no space in it, which is
    also its package name; its version is empty or equal to the name; its
    repository is "aur". *)
Definition aur_record_ok (sys : system) (r : package) : Prop :=
  char_in " " (name r) = false
  /\ pkg r = name r
  /\ (version r = "" \/ version r = name r)
  /\ repository r = "aur"
  /\ installed r = _is_installed sys (name r).

End RecordFacts.

(** ** The search worker: [SearchWorker.run] *)

Module SearchRun.

Import Query Search.

(** The version looked up for a name in the installed search: the text
    after the first space of what [pacman -Q name] prints, stripped; empty
    when the query fails, returns another status than 0 or prints no
    space. *)
Definition installed_version (sys : system) (n : string) : string :=
  match sys ["pacman"; "-Q"; n] with
  | Completed r out =>
      if (r =? 0)%Z then
        match splitn " " 1 out with
        | _ :: v :: _ => strip v
        | _ => ""
        end
      else ""
  | Failed => ""
  end.

(** The record appended for a line of [pacman -Qs] cut into [parts]. *)
Definition installed_record (sys : system) (parts : list string)
    (descr : string) : package :=
  let n := nth 1 parts "" in
  mkPackage n n (installed_version sys n) descr "installed" true.

(** The [while i < len(lines)] loop of the installed search. *)
Fixpoint installed_lines (sys : system) (lines : list string)
  : list package :=
  match lines with
  | [] => []
  | l :: rest =>
      let line := strip l in
      if nonempty line && negb (startswith " " line) then
        let parts := splitn " " 1 line in
        if (2 <=? List.length parts)%nat then
          match rest with
          | d :: rest' =>
              if startswith "    " d
              then installed_record sys parts (strip d)
                     :: installed_lines sys rest'
              else installed_record sys parts ""
                     :: installed_lines sys rest
          | [] => [installed_record sys parts ""]
          end
        else installed_lines sys rest
      else installed_lines sys rest
  end.

(** [SearchWorker.run]: the list handed to [on_results]. *)
Definition run (sys : system) (query search_type : string) : list package :=
  if search_type =? "official" then
    match sys ["pacman"; "-Ss"; query] with
    | Failed => []
    | Completed _ out => _parse_pacman_search sys out
    end
  else if search_type =? "aur" then
    match sys ["yay"; "-Ss"; query] with
    | Failed => []
    | Completed _ out => _parse_aur_search sys out
    end
  else
    match sys ["pacman"; "-Qs"; query] with
    | Failed => []
    | Completed _ out => installed_lines sys (split LF out)
    end.

(** The records of the installed search for an entry of a block. *)
Definition installed_records_of (sys : system) (e : Block.entry)
  : list package :=
  match e with
  | Block.Rec _ _ v d =>
      [mkPackage v v (installed_version sys v) (Block.description_of d)
         "installed" true]
  | Block.Skip _ => []
  end.

End SearchRun.

(** ** The updates page: [_apply_updates_data] and the selection *)

Module UpdatesPage.

Import Updates.

(** A row of [upd_store]: selected, package name, "old -> new". *)
Definition row : Type := (bool * string * string)%type.

Definition row_selected (r : row) : bool := fst (fst r).
Definition row_name (r : row) : string := snd (fst r).

(** [_apply_updates_data(items)]: the rows of the store and the label of
    the tab. *)
Definition _apply_updates_data (items : list update_item)
  : list row * string :=
  (map (fun it => (false, name it, from it ++ " -> " ++ to it)) items,
   "Updates (" ++ str_of_Z (Z.of_nat (List.length items)) ++ ")").

(** [_updates_toggle_all(btn)] with [btn.get_active()] equal to
    [desired]. *)
Definition _updates_toggle_all (desired : bool) (store : list row)
  : list row :=
  map (fun r => (desired, row_name r, snd r)) store.

(** [_updates_toggle_row(cell, path)]; a path outside the store makes
    [get_iter] raise, and the store stays as it is. *)
Fixpoint _updates_toggle_row (path : nat) (store : list row) : list row :=
  match store, path with
  | [], _ => []
  | r :: rest, O => (negb (row_selected r), row_name r, snd r) :: rest
  | r :: rest, S p => r :: _updates_toggle_row p rest
  end.

(** [_updates_apply_selected]: the command and the label given to
    [run_package_operation], if any; [sudo_ok] is what [request_sudo]
    answers. *)
Definition _updates_apply_selected (sudo_ok : bool) (store : list row)
  : option (list string * string) :=
  match map row_name (filter row_selected store) with
  | [] => None
  | to_update =>
      if sudo_ok
      then Some ((["pacman"; "-S"; "--noconfirm"] ++ to_update)%list,
                 "apply updates")
      else None
  end.

End UpdatesPage.

(** ** The repositories page *)

Module Repos.

Import Query.

(** One package of [pacman -Sl]: the dictionary with keys name and
    installed. *)
Record item : Type := mkItem {
  name : string;
  installed : bool
}.

(** [self.repos_data]: repository name to its packages, in insertion
    order. *)
Definition catalog : Type := list (string * list item).

(** [data.setdefault(repo, []).append(it)] *)
Fixpoint add (repo : string) (it : item) (data : catalog) : catalog :=
  match data with
  | [] => [(repo, [it])]
  | (r, its) :: rest =>
      if r =? repo then (r, (its ++ [it])%list) :: rest
      else (r, its) :: add repo it rest
  end.

(** The body of the loop over the lines of [pacman -Sl]. *)
Definition repos_line (data : catalog) (line : string) : catalog :=
  if negb (nonempty (strip line)) then data
  else
    let parts := split_ws line in
    if (List.length parts <? 2)%nat then data
    else add (nth 0 parts "")
           (mkItem (nth 1 parts "") (str_in "[installed]" line)) data.

(** The dictionary the worker of [load_repos_data] hands to
    [_apply_repos_data]. *)
Definition load_repos_data (r : run_result) : catalog :=
  match r with
  | Failed => []
  | Completed _ out => fold_left repos_line (split LF out) []
  end.

(** [self.repos_data.get(repo, [])] *)
Fixpoint get (repo : string) (data : catalog) : list item :=
  match data with
  | [] => []
  | (r, its) :: rest => if r =? repo then its else get repo rest
  end.

(** [sorted(items, key=lambda x: x['name'])]: a stable sort by name, names
    compared code point by code point. *)
Fixpoint insert (x : item) (l : list item) : list item :=
  match l with
  | [] => [x]
  | y :: r => if String.leb (name x) (name y) then x :: l
              else y :: insert x r
  end.

Fixpoint sorted (l : list item) : list item :=
  match l with
  | [] => []
  | x :: r => insert x (sorted r)
  end.

(** A row of [repo_pkgs_store]: selected, package name, installed. *)
Definition row : Type := (bool * string * bool)%type.

(** The test of the two filters on one package. *)
Definition shown (query : string) (installed_only : bool) (it : item)
  : bool :=
  negb (installed_only && negb (installed it))
  && negb (nonempty query && negb (str_in query (lower (name it)))).

(** The loop of [_populate_repo_packages]; [count] rows were appended
    before. *)
Fixpoint fill (query : string) (installed_only : bool) (limit : option nat)
    (count : nat) (items : list item) : list row :=
  match items with
  | [] => []
  | it :: rest =>
      if installed_only && negb (installed it)
      then fill query installed_only limit count rest
      else if nonempty query && negb (str_in query (lower (name it)))
      then fill query installed_only limit count rest
      else (false, name it, installed it)
             :: match limit with
                | Some n =>
                    if (n <=? S count)%nat then []
                    else fill query installed_only limit (S count) rest
                | None => fill query installed_only limit (S count) rest
                end
  end.

(** [_populate_repo_packages(repo)]: the rows of the table, for the text
    of the filter entry and the two check buttons. *)
Definition _populate_repo_packages (data : catalog) (repo : string)
    (filter_text : string) (installed_only show_all : bool) : list row :=
  fill (lower (strip filter_text)) installed_only
    (if show_all then None else Some 200%nat) 0
    (sorted (get repo data)).

(** [_repos_get_selected_packages] for the selected repository, if any. *)
Definition _repos_get_selected_packages (repo : option string)
    (store : list row) : list string :=
  match repo with
  | None => []
  | Some r =>
      if r =? "" then []
      else map (fun x => r ++ "/" ++ snd (fst x))
             (filter (fun x => fst (fst x)) store)
  end.

(** [_repos_install_selected]: the command and label given to
    [run_package_operation], if any. *)
Definition _repos_install_selected (sudo_ok : bool) (repo : option string)
    (store : list row) : option (list string * string) :=
  match _repos_get_selected_packages repo store with
  | [] => None
  | pkgs =>
      if sudo_ok
      then Some ((["pacman"; "-S"; "--noconfirm"] ++ pkgs)%list,
                 "install (repos)")
      else None
  end.

(** [_repos_remove_selected] *)
Definition _repos_remove_selected (sudo_ok : bool) (repo : option string)
    (store : list row) : option (list string * string) :=
  match _repos_get_selected_packages repo store with
  | [] => None
  | pkgs =>
      if sudo_ok
      then Some ((["pacman"; "-R"; "--noconfirm"]
                  ++ map (fun p => last_field (split "/" p)) pkgs)%list,
                 "remove (repos)")
      else None
  end.

(** The row appended for a package: not selected. *)
Definition to_row (it : item) : row := (false, name it, installed it).

(** Rows in the order of their names. *)
Definition rows_by_name (rows : list row) : Prop :=
  Sorted.StronglySorted
    (fun a b : row => String.leb (snd (fst a)) (snd (fst b)) = true) rows.

(** The number of packages of a catalog. *)
Definition total (data : catalog) : nat :=
  list_sum (map (fun kv => List.length (snd kv)) data).

End Repos.

(** ** An operation run to its end *)

Module WindowRun.

Import Runner Worker Window.

(** The text [append_output] adds for one line at the clock reading
    [now]. *)
Definition stamp (now text : string) : string :=
  "[" ++ now ++ "] " ++ text ++ String Query.LF "".

(** The lines of the output buffer for the texts [outs]. *)
Fixpoint render (now : string) (outs : list string) : string :=
  match outs with
  | [] => ""
  | x :: r => stamp now x ++ render now r
  end.

(** What the main loop does to the widgets for a queued call other than
    done. *)
Definition show_call (now : string) (u : widgets) (c : ui_call) : widgets :=
  match c with
  | UiOutput t => append_output now t u
  | UiProgress v => set_progress_value v u
  | UiStatus m => set_status m u
  | UiDone _ _ => u
  end.

(** The schedule of an operation that meets no other event: the request,
    then the worker at index [i] queues its [n] calls, then the main loop
    runs [n] calls. *)
Definition to_completion (popen : list string -> child)
    (command : list string) (operation_type now : string) (i n : nat)
  : list event :=
  (Request popen command operation_type
   :: repeat (WorkerQueues i) n ++ repeat (Dispatch now) n)%list.

End WindowRun.

(** * Properties *)

Import Query Runner Worker Samples Trace.

(** ** Facts about the string operations *)

Lemma append_empty_r (s : string) : s ++ "" = s.
Proof. induction s as [|c s IH]; simpl; [reflexivity | now rewrite IH]. Qed.

Lemma append_assoc (a b c : string) : (a ++ b) ++ c = a ++ (b ++ c).
Proof. induction a as [|x a IH]; simpl; [reflexivity | now rewrite IH]. Qed.

Lemma startswith_spec (p s : string) :
  startswith p s = true <-> exists b, s = p ++ b.
Proof.
  revert s. induction p as [|a p IH]; intros s; simpl.
  - split; [intros _; now exists s | reflexivity].
  - destruct s as [|b s].
    + split; [discriminate | intros [t H]; discriminate].
    + rewrite andb_true_iff, Ascii.eqb_eq, IH. split.
      * intros [-> [t ->]]. now exists t.
      * intros [t H]. injection H as -> ->. split; [reflexivity | now exists t].
Qed.

Lemma str_in_spec (p s : string) : str_in p s = true <-> occurs p s.
Proof.
  unfold occurs. induction s as [|c s IH].
  - simpl. rewrite orb_false_r, startswith_spec. split.
    + intros [b H]. now exists "", b.
    + intros [a [b H]]. destruct a; simpl in H; [now exists b | discriminate].
  - simpl. rewrite orb_true_iff, startswith_spec, IH. split.
    + intros [[b H] | [a [b H]]].
      * now exists "", b.
      * exists (String c a), b. simpl. now rewrite H.
    + intros [a [b H]]. destruct a as [|x a]; simpl in H.
      * left. now exists b.
      * right. injection H as _ H. now exists a, b.
Qed.

Lemma str_in_false (p s : string) : str_in p s = false <-> ~ occurs p s.
Proof.
  rewrite <- str_in_spec. destruct (str_in p s); split; intros H;
    try reflexivity; try discriminate; try (intros K; discriminate).
  now contradiction H.
Qed.

Lemma lower_app (a b : string) : lower (a ++ b) = lower a ++ lower b.
Proof. induction a as [|c a IH]; simpl; [reflexivity | now rewrite IH]. Qed.

Lemma occurs_lower (p s : string) :
  lower p = p -> occurs p s -> occurs p (lower s).
Proof.
  intros Hp [a [b ->]]. exists (lower a), (lower b).
  now rewrite !lower_app, Hp.
Qed.

Lemma occurs_app_l (p a t : string) : occurs p a -> occurs p (a ++ t).
Proof.
  intros [x [y ->]]. exists x, (y ++ t). now rewrite !append_assoc.
Qed.

Lemma occurs_app_r (p a t : string) : occurs p t -> occurs p (a ++ t).
Proof.
  intros [x [y ->]]. exists (a ++ x), y. now rewrite !append_assoc.
Qed.

Lemma occurs_trans (p q s : string) : occurs p q -> occurs q s -> occurs p s.
Proof.
  intros Hpq [a [b ->]]. apply occurs_app_r, occurs_app_l, Hpq.
Qed.

Lemma rstrip_prefix (s : string) : exists t, s = rstrip s ++ t.
Proof.
  induction s as [|c s [t IH]]; simpl.
  - now exists "".
  - destruct (rstrip s) as [|d r] eqn:E.
    + destruct (isspace c).
      * now exists (String c s).
      * exists s. reflexivity.
    + exists t. simpl in *. now rewrite <- IH.
Qed.

Lemma occurs_rstrip (p s : string) : occurs p (rstrip s) -> occurs p s.
Proof.
  intros H. destruct (rstrip_prefix s) as [t E]. rewrite E.
  now apply occurs_app_l.
Qed.

Lemma occurrences_pos (p s : string) :
  (1 <= occurrences p s)%nat <-> occurs p s.
Proof.
  rewrite <- str_in_spec. induction s as [|c s IH]; simpl.
  - destruct (startswith p ""); simpl; split; intros H;
      try reflexivity; try lia; discriminate.
  - destruct (startswith p (String c s)); simpl.
    + split; intros _; [reflexivity | lia].
    + exact IH.
Qed.

(** ** The progress hints *)

(** C10. A line queues at most one progress value, and the value follows
    the order of the tests on the lowered line: 50 when it has
    "downloading", else 75 when it has "installing", else 60 when it has
    "removing", else 40 when it has "loading", else none.  A line in which
    "downloading" occurs also has "loading" in it, and still reports 50
    and not 40. *)
Theorem progress_hint_priority (line : string) :
  (List.length (_progress_hint line) <= 1)%nat
  /\ (occurs "downloading" (lower line) ->
      _progress_hint line = [UiProgress 50])
  /\ (~ occurs "downloading" (lower line) ->
      occurs "installing" (lower line) ->
      _progress_hint line = [UiProgress 75])
  /\ (~ occurs "downloading" (lower line) ->
      ~ occurs "installing" (lower line) ->
      occurs "removing" (lower line) ->
      _progress_hint line = [UiProgress 60])
  /\ (~ occurs "downloading" (lower line) ->
      ~ occurs "installing" (lower line) ->
      ~ occurs "removing" (lower line) ->
      occurs "loading" (lower line) ->
      _progress_hint line = [UiProgress 40])
  /\ (~ occurs "downloading" (lower line) ->
      ~ occurs "installing" (lower line) ->
      ~ occurs "removing" (lower line) ->
      ~ occurs "loading" (lower line) ->
      _progress_hint line = [])
  /\ (occurs "downloading" line ->
      occurs "loading" line
      /\ _progress_hint line = [UiProgress 50]
      /\ _progress_hint line <> [UiProgress 40]).
Proof.
  unfold _progress_hint.
  repeat split.
  - repeat match goal with |- context [if ?b then _ else _] => destruct b end;
      simpl; lia.
  - intros H. apply str_in_spec in H. now rewrite H.
  - intros H1 H2. apply str_in_false in H1. apply str_in_spec in H2.
    now rewrite H1, H2.
  - intros H1 H2 H3. apply str_in_false in H1, H2. apply str_in_spec in H3.
    now rewrite H1, H2, H3.
  - intros H1 H2 H3 H4. apply str_in_false in H1, H2, H3.
    apply str_in_spec in H4. now rewrite H1, H2, H3, H4.
  - intros H1 H2 H3 H4. apply str_in_false in H1, H2, H3, H4.
    now rewrite H1, H2, H3, H4.
  - apply (occurs_trans "loading" "downloading"); [| assumption].
    now exists "down", "".
  - apply (occurs_lower "downloading") in H; [| reflexivity].
    apply str_in_spec in H. now rewrite H.
  - apply (occurs_lower "downloading") in H; [| reflexivity].
    apply str_in_spec in H. rewrite H. discriminate.
Qed.

Lemma progress_hint_priority_witness :
  _progress_hint "Downloading vim-9.1..." = [UiProgress 50]
  /\ _progress_hint "reloading hooks" = [UiProgress 40]
  /\ _progress_hint "downloading core.db" <> [UiProgress 40].
Proof.
  split; [| split].
  - apply (proj1 (proj2 (progress_hint_priority "Downloading vim-9.1..."))).
    exists "", " vim-9.1...". reflexivity.
  - destruct (progress_hint_priority "reloading hooks")
      as (_ & _ & _ & _ & H & _).
    apply H; try (apply str_in_false; reflexivity).
    apply str_in_spec. reflexivity.
  - destruct (progress_hint_priority "downloading core.db")
      as (_ & _ & _ & _ & _ & _ & H).
    apply H. exists "", " core.db". reflexivity.
Defined.

(** ** The run of the operation worker *)

Lemma progress_hint_cases (line : string) :
  _progress_hint line = []
  \/ exists v, In v [50; 75; 60; 40]%Z /\ _progress_hint line = [UiProgress v].
Proof.
  unfold _progress_hint.
  repeat match goal with |- context [if ?b then _ else _] => destruct b end;
    try (left; reflexivity); right; eexists; (split; [| reflexivity]);
    simpl; tauto.
Qed.

Lemma done_count_app (a b : list ui_call) :
  done_count (a ++ b) = (done_count a + done_count b)%nat.
Proof.
  induction a as [|c a IH]; simpl; [reflexivity |].
  destruct c; simpl; now rewrite IH.
Qed.

Lemma progress_values_app (a b : list ui_call) :
  progress_values (a ++ b) = (progress_values a ++ progress_values b)%list.
Proof.
  induction a as [|c a IH]; simpl; [reflexivity |].
  destruct c; simpl; now rewrite IH.
Qed.

Lemma relayed_no_done (calls : list call) :
  done_count (flat_map relay calls) = 0%nat.
Proof.
  induction calls as [|c calls IH]; simpl; [reflexivity |].
  rewrite done_count_app, IH. destruct c as [t | line]; simpl; [reflexivity |].
  destruct (progress_hint_cases line) as [-> | [v [_ ->]]]; reflexivity.
Qed.

Lemma relayed_progress (calls : list call) :
  Forall (fun v => In v [50; 75; 60; 40]%Z)
    (progress_values (flat_map relay calls)).
Proof.
  induction calls as [|c calls IH]; simpl; [constructor |].
  rewrite progress_values_app. apply Forall_app. split; [| exact IH].
  destruct c as [t | line]; cbn [relay progress_values]; [constructor |].
  destruct (progress_hint_cases line) as [-> | [v [Hv ->]]];
    cbn [progress_values]; constructor; [exact Hv | constructor].
Qed.

Lemma relayed_stream (reads : list string) :
  flat_map relay (stream true reads)
  = flat_map (fun l => UiOutput (rstrip l) :: _progress_hint l)
      (lines_read reads).
Proof.
  unfold lines_read. induction reads as [|l reads IH]; [reflexivity |].
  simpl. rewrite flat_map_app, IH. unfold nonempty.
  destruct (l =? ""); simpl; [reflexivity |].
  now rewrite app_nil_r.
Qed.

Lemma progress_values_lines (ls : list string) :
  progress_values
    (flat_map (fun l => UiOutput (rstrip l) :: _progress_hint l) ls)
  = flat_map (fun l => progress_values (_progress_hint l)) ls.
Proof.
  induction ls as [|l ls IH]; [reflexivity |].
  cbn [flat_map app progress_values]. now rewrite progress_values_app, IH.
Qed.

(** What the worker queues between progress 10 and progress 100, by what
    the process does. *)
Lemma relayed_run (popen : list string -> child) (command : list string)
    (password : option string) :
  let middle :=
    flat_map relay (fst (run_command_stream popen command true password)) in
  match popen (popen_args command password) with
  | Spawned reads (Exited _) =>
      middle = flat_map (fun l => UiOutput (rstrip l) :: _progress_hint l)
                 (lines_read reads)
      /\ progress_values middle
         = flat_map (fun l => progress_values (_progress_hint l))
             (lines_read reads)
  | Spawned reads (Raised e) =>
      middle = (flat_map (fun l => UiOutput (rstrip l) :: _progress_hint l)
                  (lines_read reads)
                ++ [UiOutput ("ERROR: " ++ e)])%list
      /\ progress_values middle
         = flat_map (fun l => progress_values (_progress_hint l))
             (lines_read reads)
  | SpawnFailed e =>
      middle = [UiOutput ("ERROR: " ++ e)] /\ progress_values middle = []
  end.
Proof.
  cbv zeta. unfold run_command_stream.
  destruct (popen (popen_args command password)) as [e | reads [code | e]];
    cbn [fst].
  - split; reflexivity.
  - rewrite relayed_stream. split; [reflexivity | apply progress_values_lines].
  - rewrite flat_map_app, relayed_stream. split; [reflexivity |].
    rewrite progress_values_app, progress_values_lines. cbn.
    now rewrite app_nil_r.
Qed.

(** C4, as the code has it.  The calls a worker queues are: the starting
    status, progress 10, then for every line read that is not empty, in the
    order the lines were read, its output followed by the hint of the line
    if it has one, then the error line when the process could not be
    started or the loop failed, then progress 100, then the only done
    call.  So the progress values are 10, then the hints of the lines in
    the order of the lines, at most one a line and each among 50, 75, 60
    and 40 (a later hint may be lower than an earlier one), then 100.  The
    done call reports success with the capitalized operation name and
    "completed successfully!" when the status is 0, and failure with the
    status written in the message otherwise.  Every progress value lies
    between the first one, 10, and the last one, 100. *)
Theorem run_trace (popen : list string -> child) (command : list string)
    (operation : string) (password : option string) :
  let ret := snd (run_command_stream popen command true password) in
  exists middle success message,
    run popen command operation password
    = ([UiStatus ("Starting " ++ operation ++ "..."); UiProgress 10]
       ++ middle ++ [UiProgress 100; UiDone success message])%list
    /\ match popen (popen_args command password) with
       | Spawned reads (Exited _) =>
           middle
           = flat_map (fun l => UiOutput (rstrip l) :: _progress_hint l)
               (lines_read reads)
           /\ progress_values (run popen command operation password)
              = (10%Z :: flat_map (fun l => progress_values (_progress_hint l))
                           (lines_read reads) ++ [100%Z])%list
       | Spawned reads (Raised e) =>
           middle
           = (flat_map (fun l => UiOutput (rstrip l) :: _progress_hint l)
                (lines_read reads)
              ++ [UiOutput ("ERROR: " ++ e)])%list
           /\ progress_values (run popen command operation password)
              = (10%Z :: flat_map (fun l => progress_values (_progress_hint l))
                           (lines_read reads) ++ [100%Z])%list
       | SpawnFailed e =>
           middle = [UiOutput ("ERROR: " ++ e)]
           /\ progress_values (run popen command operation password)
              = [10%Z; 100%Z]
       end
    /\ (forall line,
           _progress_hint line = []
           \/ exists v, In v [50; 75; 60; 40]%Z
                        /\ _progress_hint line = [UiProgress v])
    /\ done_count middle = 0%nat
    /\ Forall (fun v => In v [50; 75; 60; 40]%Z) (progress_values middle)
    /\ done_count (run popen command operation password) = 1%nat
    /\ progress_values (run popen command operation password)
       = (10%Z :: progress_values middle ++ [100%Z])%list
    /\ Forall (fun v => (10 <= v <= 100)%Z)
         (progress_values (run popen command operation password))
    /\ (ret = 0%Z ->
        success = true
        /\ message = capitalize operation ++ " completed successfully!")
    /\ (ret <> 0%Z ->
        success = false
        /\ message = capitalize operation ++ " failed with code "
                     ++ str_of_Z ret
        /\ occurs (str_of_Z ret) message).
Proof.
  pose proof (relayed_run popen command password) as R. cbv zeta in R.
  unfold run. destruct (run_command_stream popen command true password)
    as [calls ret] eqn:E. simpl snd. cbn [fst] in R.
  set (middle := flat_map relay calls) in *.
  assert (Hd : done_count middle = 0%nat) by apply relayed_no_done.
  assert (Hp : Forall (fun v => In v [50; 75; 60; 40]%Z)
                 (progress_values middle)) by apply relayed_progress.
  assert (Hr : Forall (fun v => (10 <= v <= 100)%Z) (progress_values middle)).
  { eapply Forall_impl; [| exact Hp]. simpl. intros v H. lia. }
  assert (Hv : forall d,
             progress_values
               ([UiStatus ("Starting " ++ operation ++ "..."); UiProgress 10]
                ++ middle ++ [UiProgress 100] ++ [d])%list
             = (10%Z :: progress_values middle
                ++ 100%Z :: progress_values [d])%list).
  { intros d. cbn [app progress_values].
    now rewrite progress_values_app. }
  assert (Hm : forall success message,
             match popen (popen_args command password) with
             | Spawned reads (Exited _) =>
                 middle
                 = flat_map (fun l => UiOutput (rstrip l) :: _progress_hint l)
                     (lines_read reads)
                 /\ progress_values
                      ([UiStatus ("Starting " ++ operation ++ "...");
                        UiProgress 10]
                       ++ middle ++ [UiProgress 100]
                       ++ [UiDone success message])%list
                    = (10%Z
                       :: flat_map
                            (fun l => progress_values (_progress_hint l))
                            (lines_read reads) ++ [100%Z])%list
             | Spawned reads (Raised e) =>
                 middle
                 = (flat_map
                      (fun l => UiOutput (rstrip l) :: _progress_hint l)
                      (lines_read reads)
                    ++ [UiOutput ("ERROR: " ++ e)])%list
                 /\ progress_values
                      ([UiStatus ("Starting " ++ operation ++ "...");
                        UiProgress 10]
                       ++ middle ++ [UiProgress 100]
                       ++ [UiDone success message])%list
                    = (10%Z
                       :: flat_map
                            (fun l => progress_values (_progress_hint l))
                            (lines_read reads) ++ [100%Z])%list
             | SpawnFailed e =>
                 middle = [UiOutput ("ERROR: " ++ e)]
                 /\ progress_values
                      ([UiStatus ("Starting " ++ operation ++ "...");
                        UiProgress 10]
                       ++ middle ++ [UiProgress 100]
                       ++ [UiDone success message])%list
                    = [10%Z; 100%Z]
             end).
  { intros success message. rewrite Hv.
    destruct (popen (popen_args command password)) as [e | reads [code | e]];
      destruct R as [R1 R2]; (split; [exact R1 |]); rewrite R2; reflexivity. }
  destruct (ret =? 0)%Z eqn:Z0.
  - apply Z.eqb_eq in Z0. subst ret.
    exists middle, true, (capitalize operation ++ " completed successfully!").
    split; [reflexivity |]. split; [apply Hm |].
    split; [apply progress_hint_cases |].
    rewrite Hv. simpl. rewrite !done_count_app, Hd. simpl.
    repeat split; try assumption; try reflexivity; try lia; try congruence.
    constructor; [lia |]. apply Forall_app. split; [assumption |].
    repeat constructor; lia.
  - apply Z.eqb_neq in Z0.
    exists middle, false,
      (capitalize operation ++ " failed with code " ++ str_of_Z ret).
    split; [reflexivity |]. split; [apply Hm |].
    split; [apply progress_hint_cases |].
    rewrite Hv. simpl. rewrite !done_count_app, Hd. simpl.
    repeat split; try assumption; try reflexivity; try lia; try congruence.
    + constructor; [lia |]. apply Forall_app. split; [assumption |].
      repeat constructor; lia.
    + exists (capitalize operation ++ " failed with code "), "".
      now rewrite append_empty_r, append_assoc.
Qed.

(** C4, as stated, fails: the hint of the second line (60) is below the
    hint of the first (75), before the closing 100. *)
Lemma run_progress_goes_down :
  let t := run install_then_remove ["pacman"; "-Syu"; "--noconfirm"]
             "system update" None in
  progress_values t = [10; 75; 60; 100]%Z
  /\ nondecreasing (removelast (progress_values t)) = false
  /\ nondecreasing (progress_values t) = false.
Proof. repeat split. Qed.

Lemma run_trace_witness :
  run install_then_remove ["pacman"; "-Syu"; "--noconfirm"]
    "system update" None
  = [UiStatus "Starting system update..."; UiProgress 10;
     UiOutput "installing linux (6.6.1)..."; UiProgress 75;
     UiOutput "removing linux-lts..."; UiProgress 60;
     UiProgress 100; UiDone true "System update completed successfully!"].
Proof.
  destruct (run_trace install_then_remove ["pacman"; "-Syu"; "--noconfirm"]
              "system update" None)
    as (middle & success & message & E & M & _ & _ & _ & _ & _ & _ & H0 & _).
  destruct (H0 eq_refl) as [-> ->]. cbn match in M. destruct M as [-> _].
  exact E.
Defined.

(** ** The command runner and the password *)

Lemma outputs_app (a b : list call) :
  outputs (a ++ b) = (outputs a ++ outputs b)%list.
Proof.
  induction a as [|c a IH]; simpl; [reflexivity |].
  destruct c; simpl; now rewrite IH.
Qed.

Lemma stream_outputs (with_hint : bool) (reads : list string) :
  outputs (stream with_hint reads) = map rstrip (lines_read reads).
Proof.
  unfold lines_read. induction reads as [|l reads IH]; [reflexivity |].
  simpl. rewrite outputs_app, IH. unfold nonempty.
  destruct (l =? ""); simpl; [reflexivity |].
  destruct with_hint; reflexivity.
Qed.

Lemma outputs_stream (with_hint : bool) (reads : list string) (t : string) :
  In t (outputs (stream with_hint reads)) ->
  exists line, In line reads /\ line <> "" /\ t = rstrip line.
Proof.
  induction reads as [|l reads IH]; simpl; [contradiction |].
  rewrite outputs_app, in_app_iff. intros [H | H].
  - destruct (String.eqb_spec l "") as [-> | Hne]; simpl in H; [contradiction |].
    destruct H as [<- | H].
    + exists l. auto.
    + destruct with_hint; simpl in H; contradiction.
  - destruct (IH H) as (line & Hin & Hne & ->). exists line. auto.
Qed.

(** Every text handed to [on_output] is a line the child printed, with
    its trailing white space removed, or the one error line. *)
Lemma runner_outputs (popen : list string -> child) (command : list string)
    (with_hint : bool) (password : option string) (t : string) :
  In t (outputs (fst (run_command_stream popen command with_hint password))) ->
  match popen (popen_args command password) with
  | SpawnFailed e => t = "ERROR: " ++ e
  | Spawned reads fin =>
      (exists line, In line reads /\ line <> "" /\ t = rstrip line)
      \/ (exists e, fin = Raised e /\ t = "ERROR: " ++ e)
  end.
Proof.
  unfold run_command_stream.
  destruct (popen (popen_args command password)) as [e | reads [code | e]];
    simpl.
  - intros [<- | []]. reflexivity.
  - intros H. left. now apply outputs_stream in H.
  - rewrite outputs_app, in_app_iff. simpl. intros [H | [<- | []]].
    + left. now apply outputs_stream in H.
    + right. now exists e.
Qed.

(** C2, as the code has it.  For a command that does not start with sudo
    and a password that is not empty, the runner starts bash on a script
    into which the password is written at one place, between the quotes
    of an echo piped to [sudo -S]; so the password occurs in the script at
    least once.  The runner adds no text of its own to the output of a
    process that ran to its end: the texts given to the output callback
    are exactly the lines read from the child that are not empty, each
    with its trailing white space removed, in the order they were read.
    So when the password occurs in no line the child prints, it occurs in
    no text given to the callback; and when it occurs in a line the child
    prints, before the trailing white space of that line, it occurs in a
    text given to the callback. *)
Theorem sudo_wrapping (popen : list string -> child) (command : list string)
    (with_hint : bool) (password : string) :
  password <> "" ->
  not_sudo command = true ->
  popen_args command (Some password)
  = ["bash"; "-lc"; "echo '" ++ password ++ "' | sudo -S " ++ join " " command]
  /\ (1 <= occurrences password (sudo_script password command))%nat
  /\ forall reads code,
       popen (popen_args command (Some password)) = Spawned reads (Exited code) ->
       outputs (fst (run_command_stream popen command with_hint
                       (Some password)))
       = map rstrip (lines_read reads)
       /\ (forall t,
              In t (outputs (fst (run_command_stream popen command with_hint
                                    (Some password)))) ->
              exists line, In line reads /\ t = rstrip line)
       /\ ((forall line, In line reads -> ~ occurs password line) ->
           forall t,
             In t (outputs (fst (run_command_stream popen command with_hint
                                   (Some password)))) ->
             ~ occurs password t)
       /\ (forall line,
              In line reads -> line <> "" -> occurs password (rstrip line) ->
              exists t,
                In t (outputs (fst (run_command_stream popen command
                                      with_hint (Some password))))
                /\ occurs password t).
Proof.
  intros Hne Hns. split; [| split].
  - unfold popen_args, truthy. rewrite Hns.
    destruct (String.eqb_spec password "") as [E | _]; [contradiction |].
    reflexivity.
  - apply occurrences_pos. unfold sudo_script.
    now exists "echo '", ("' | sudo -S " ++ join " " command).
  - intros reads code Hp.
    assert (X : outputs (fst (run_command_stream popen command with_hint
                                (Some password)))
                = map rstrip (lines_read reads)).
    { unfold run_command_stream. rewrite Hp. cbn [fst].
      apply stream_outputs. }
    assert (K : forall t,
               In t (outputs (fst (run_command_stream popen command with_hint
                                     (Some password)))) ->
               exists line, In line reads /\ t = rstrip line).
    { intros t Ht. apply runner_outputs in Ht. rewrite Hp in Ht.
      destruct Ht as [(line & Hin & _ & ->) | (e & He & _)];
        [now exists line | discriminate]. }
    split; [exact X |]. split; [exact K |]. split.
    + intros Hclean t Ht Hocc. destruct (K t Ht) as (line & Hin & ->).
      apply (Hclean line Hin). now apply occurs_rstrip.
    + intros line Hin Hl Hocc. exists (rstrip line). split; [| exact Hocc].
      rewrite X. apply in_map. unfold lines_read. apply filter_In.
      split; [exact Hin |]. unfold nonempty.
      destruct (String.eqb_spec line ""); [contradiction | reflexivity].
Qed.

(** C2, as stated, fails for the password "vim" and the installation of
    the package vim: the password occurs twice in the script, and in a
    text given to the output callback. *)
Lemma password_occurs_twice :
  let command := ["pacman"; "-S"; "vim"; "--noconfirm"] in
  not_sudo command = true
  /\ popen_args command (Some "vim")
     = ["bash"; "-lc"; "echo 'vim' | sudo -S pacman -S vim --noconfirm"]
  /\ occurrences "vim" (sudo_script "vim" command) = 2%nat
  /\ outputs (fst (run_command_stream prints_package command true
                     (Some "vim")))
     = ["resolving dependencies..."; "installing vim..."]
  /\ str_in "vim" "installing vim..." = true.
Proof. repeat split. Qed.

Lemma sudo_wrapping_witness :
  popen_args ["pacman"; "-Syu"; "--noconfirm"] (Some "hunter2")
  = ["bash"; "-lc"; "echo 'hunter2' | sudo -S pacman -Syu --noconfirm"]
  /\ outputs (fst (run_command_stream install_then_remove
                     ["pacman"; "-Syu"; "--noconfirm"] true
                     (Some "hunter2")))
     = ["installing linux (6.6.1)..."; "removing linux-lts..."]
  /\ forall t,
       In t (outputs (fst (run_command_stream install_then_remove
                             ["pacman"; "-Syu"; "--noconfirm"] true
                             (Some "hunter2")))) ->
       ~ occurs "hunter2" t.
Proof.
  destruct (sudo_wrapping install_then_remove
              ["pacman"; "-Syu"; "--noconfirm"] true "hunter2")
    as (E & _ & H); [discriminate | reflexivity |].
  split; [exact E |].
  destruct (H ["installing linux (6.6.1)..."; "removing linux-lts..."] 0%Z
              eq_refl) as (X & _ & K & _).
  split; [exact X |].
  apply K. intros line [<- | [<- | []]]; apply str_in_false; reflexivity.
Defined.

(** ** Facts about stripping and splitting *)

Lemma lstrip_first (s r : string) (c : ascii) :
  lstrip s = String c r -> isspace c = false.
Proof.
  induction s as [|a s IH]; simpl; [discriminate |].
  destruct (isspace a) eqn:E; [exact IH |].
  intros H. injection H as <- _. exact E.
Qed.

Lemma rstrip_first (s r : string) (c : ascii) :
  rstrip s = String c r -> exists r', s = String c r'.
Proof.
  destruct s as [|a s]; simpl; [discriminate |].
  destruct (rstrip s) as [|d t].
  - destruct (isspace a); [discriminate |].
    intros H. injection H as <- _. now exists s.
  - intros H. injection H as <- _. now exists s.
Qed.

Lemma strip_first (s r : string) (c : ascii) :
  strip s = String c r -> isspace c = false.
Proof.
  unfold strip. intros H. apply rstrip_first in H. destruct H as [r' H].
  now apply lstrip_first in H.
Qed.

Lemma isspace_space : isspace " " = true.
Proof. reflexivity. Qed.

Lemma strip_not_indented (s : string) : startswith " " (strip s) = false.
Proof.
  destruct (strip s) as [|c r] eqn:E; [reflexivity |].
  apply strip_first in E. cbn [startswith].
  destruct (Ascii.eqb_spec " " c) as [<- | _]; [| reflexivity].
  rewrite isspace_space in E. discriminate.
Qed.

Lemma splitn_cons (sep c : ascii) (m : nat) (r : string) :
  splitn sep (S m) (String c r)
  = if Ascii.eqb c sep then "" :: splitn sep m r
    else match splitn sep (S m) r with
         | h :: t => String c h :: t
         | [] => [String c ""]
         end.
Proof. reflexivity. Qed.

Lemma splitn_cut (sep : ascii) (m : nat) (a b : string) :
  char_in sep a = false ->
  splitn sep (S m) (a ++ String sep b) = a :: splitn sep m b.
Proof.
  induction a as [|x a IH]; intros H.
  - simpl append. rewrite splitn_cons, Ascii.eqb_refl. reflexivity.
  - simpl in H. apply orb_false_iff in H. destruct H as [Hx Ha].
    simpl append. rewrite splitn_cons, Hx, (IH Ha). reflexivity.
Qed.

Lemma splitn_whole (sep : ascii) (m : nat) (a : string) :
  char_in sep a = false -> splitn sep m a = [a].
Proof.
  destruct m as [|m]; [reflexivity |].
  induction a as [|x a IH]; intros H; [reflexivity |].
  simpl in H. apply orb_false_iff in H. destruct H as [Hx Ha].
  rewrite splitn_cons, Hx, (IH Ha). reflexivity.
Qed.


Lemma split_cut (sep : ascii) (a b : string) :
  char_in sep a = false ->
  split sep (a ++ String sep b) = a :: split sep b.
Proof.
  induction a as [|x a IH]; intros H; simpl.
  - now rewrite Ascii.eqb_refl.
  - simpl in H. apply orb_false_iff in H. destruct H as [Hx Ha].
    now rewrite Hx, (IH Ha).
Qed.

Lemma split_whole (sep : ascii) (a : string) :
  char_in sep a = false -> split sep a = [a].
Proof.
  induction a as [|x a IH]; intros H; simpl; [reflexivity |].
  simpl in H. apply orb_false_iff in H. destruct H as [Hx Ha].
  now rewrite Hx, (IH Ha).
Qed.

Lemma char_in_app (c : ascii) (a b : string) :
  char_in c (a ++ b) = char_in c a || char_in c b.
Proof.
  induction a as [|x a IH]; simpl; [reflexivity |].
  now rewrite IH, orb_assoc.
Qed.

Lemma split_length (sep : ascii) (s : string) :
  (1 <= List.length (split sep s))%nat.
Proof.
  induction s as [|x s IH]; simpl; [lia |].
  destruct (Ascii.eqb x sep); [simpl; lia |].
  destruct (split sep s); simpl in *; lia.
Qed.

Lemma split_cut_length (sep : ascii) (a b : string) :
  (2 <= List.length (split sep (a ++ String sep b)))%nat.
Proof.
  induction a as [|x a IH]; simpl.
  - rewrite Ascii.eqb_refl. pose proof (split_length sep b). simpl. lia.
  - destruct (Ascii.eqb x sep); [simpl; lia |].
    destruct (split sep (a ++ String sep b)); simpl in *; lia.
Qed.

Lemma split_last (sep : ascii) (a b : string) :
  char_in sep b = false ->
  last_field (split sep (a ++ String sep b)) = b.
Proof.
  unfold last_field. intros Hb. induction a as [|x a IH].
  - simpl. rewrite Ascii.eqb_refl, (split_whole _ _ Hb). reflexivity.
  - pose proof (split_cut_length sep a b) as L. simpl append. simpl split.
    destruct (split sep (a ++ String sep b)) as [|h [|h2 t]];
      simpl in L; try lia.
    destruct (Ascii.eqb x sep); exact IH.
Qed.

(** ** The AUR search parser *)

Import Search.

Lemma nonempty_true (s : string) : nonempty s = true <-> s <> "".
Proof.
  unfold nonempty. destruct (String.eqb_spec s ""); simpl; split;
    congruence.
Qed.


Lemma split_join (l : string) (ls : list string) :
  Forall Block.no_line_feed (l :: ls) ->
  split LF (join (String LF "") (l :: ls)) = l :: ls.
Proof.
  revert l. induction ls as [|x ls IH]; intros l H.
  - inversion H. now apply split_whole.
  - inversion H as [|? ? Hl Hr]. subst.
    change (join (String LF "") (l :: x :: ls))
      with (l ++ String LF (join (String LF "") (x :: ls))).
    rewrite (split_cut LF l _ Hl), (IH x Hr). reflexivity.
Qed.




(** ** The update scanner *)

Lemma split_ws_blank (ws s : string) :
  blank ws = true -> split_ws (ws ++ s) = split_ws s.
Proof.
  induction ws as [|c ws IH]; simpl; [reflexivity |].
  intros H. apply andb_true_iff in H. destruct H as [Hc Hw].
  now rewrite Hc, (IH Hw).
Qed.

Lemma split_ws_word (w rest : string) :
  word w -> ends_word rest -> split_ws (w ++ rest) = w :: split_ws rest.
Proof.
  intros [Hne Hs] Hr. induction w as [|c w IH]; [congruence |].
  simpl in Hs. apply andb_true_iff in Hs. destruct Hs as [Hc Hw].
  apply negb_true_iff in Hc. destruct w as [|d w].
  - cbn [append split_ws]. rewrite Hc. destruct rest as [|e rest].
    + reflexivity.
    + simpl in Hr. rewrite Hr. reflexivity.
  - assert (Hd : isspace d = false).
    { simpl in Hw. apply andb_true_iff in Hw. destruct Hw as [Hd _].
      now apply negb_true_iff in Hd. }
    change (String c (String d w) ++ rest)
      with (String c (String d w ++ rest)).
    change (split_ws (String c (String d w ++ rest)))
      with (if isspace c then split_ws (String d w ++ rest)
            else if isspace d
                 then String c "" :: split_ws (String d w ++ rest)
                 else match split_ws (String d w ++ rest) with
                      | h :: t => String c h :: t
                      | [] => [String c ""]
                      end).
    rewrite Hc, Hd, IH; [reflexivity | discriminate | exact Hw].
Qed.

Lemma split_ws_word_gap (w ws rest : string) :
  word w -> gap ws -> split_ws (w ++ ws ++ rest) = w :: split_ws rest.
Proof.
  intros Hw [Hne Hb]. rewrite split_ws_word; [| exact Hw |].
  - now rewrite split_ws_blank.
  - destruct ws as [|c ws]; [congruence |]. simpl in *.
    now apply andb_true_iff in Hb.
Qed.

Lemma rstrip_empty (s : string) : rstrip s = "" -> blank s = true.
Proof.
  induction s as [|c s IH]; simpl; [reflexivity |].
  destruct (rstrip s) as [|d r]; [| discriminate].
  destruct (isspace c); [| discriminate]. intros _. now rewrite IH.
Qed.

Lemma lstrip_split_ws (s : string) : split_ws (lstrip s) = split_ws s.
Proof.
  induction s as [|c s IH]; [reflexivity |].
  cbn [lstrip]. destruct (isspace c) eqn:E; [| reflexivity].
  rewrite IH. cbn [split_ws]. now rewrite E.
Qed.

Lemma strip_empty_split_ws (s : string) : strip s = "" -> split_ws s = [].
Proof.
  unfold strip. intros H. apply rstrip_empty in H.
  rewrite <- lstrip_split_ws, <- (append_empty_r (lstrip s)).
  now rewrite split_ws_blank.
Qed.

Import Updates.

Lemma update_line_fields (line : string) :
  update_line line
  = let parts := split_ws line in
    if (4 <=? List.length parts)%nat && (nth 2 parts "" =? "->")
    then [mkItem (nth 0 parts "") (nth 1 parts "") (nth 3 parts "")]
    else [].
Proof.
  unfold update_line. destruct (nonempty (strip line)) eqn:E;
    [reflexivity |].
  unfold nonempty in E. apply negb_false_iff, String.eqb_eq in E.
  rewrite (strip_empty_split_ws _ E). reflexivity.
Qed.

(** C8, as the code has it.  A line gives an item exactly when cutting
    it at white space gives at least four fields of which field 2 is
    "->"; the item has field 0 as name, field 1 as old and field 3 as new
    version.  Every other line gives nothing.  So a line made of a name,
    an old version, "->" and a new version, set apart by white space, gives
    the item of these three.  The scan is the items of the lines of the
    stripped output, whatever the exit status; when the query cannot be
    run the scan is empty. *)
Theorem update_scan :
  (forall line,
      (4 <= List.length (split_ws line))%nat ->
      nth 2 (split_ws line) "" = "->" ->
      update_line line
      = [mkItem (nth 0 (split_ws line) "") (nth 1 (split_ws line) "")
           (nth 3 (split_ws line) "")])
  /\ (forall line,
        ~ ((4 <= List.length (split_ws line))%nat
           /\ nth 2 (split_ws line) "" = "->") ->
        update_line line = [])
  /\ (forall ws0 n ws1 o ws2 ws3 v rest,
        blank ws0 = true -> word n -> gap ws1 -> word o -> gap ws2 ->
        gap ws3 -> word v -> ends_word rest ->
        update_line (ws0 ++ n ++ ws1 ++ o ++ ws2 ++ "->" ++ ws3 ++ v ++ rest)
        = [mkItem n o v])
  /\ (forall code out,
        load_updates_data (Completed code out)
        = flat_map update_line (split LF (strip out)))
  /\ load_updates_data Failed = []
  /\ load_updates_data (Completed 0 "firefox 120.0-1 -> 121.0-1")
     = [mkItem "firefox" "120.0-1" "121.0-1"]
  /\ load_updates_data (Completed 0 "malformed line") = [].
Proof.
  split; [| split; [| split; [| repeat split]]].
  - intros line H4 H2. rewrite update_line_fields. cbv zeta.
    apply Nat.leb_le in H4. apply String.eqb_eq in H2.
    now rewrite H4, H2.
  - intros line H. rewrite update_line_fields. cbv zeta.
    destruct (4 <=? List.length (split_ws line))%nat eqn:H4;
      [| reflexivity].
    destruct (String.eqb_spec (nth 2 (split_ws line) "") "->") as [H2 | H2];
      [| reflexivity].
    exfalso. apply H. split; [now apply Nat.leb_le | exact H2].
  - intros ws0 n ws1 o ws2 ws3 v rest H0 Hn H1 Ho H2 H3 Hv Hr.
    rewrite update_line_fields. cbv zeta.
    rewrite (split_ws_blank ws0 _ H0).
    rewrite (split_ws_word_gap n ws1 _ Hn H1).
    rewrite (split_ws_word_gap o ws2 _ Ho H2).
    rewrite (split_ws_word_gap "->" ws3 _); [| split; [discriminate | reflexivity] | exact H3].
    rewrite (split_ws_word v rest Hv Hr).
    reflexivity.
Qed.

(** C8, as stated, fails on a line of three fields: field 2 is "->", and
    no item is made. *)
Lemma arrow_without_new_version :
  nth_error (split_ws "linux 6.6.1-1 ->") 2 = Some "->"
  /\ update_line "linux 6.6.1-1 ->" = []
  /\ load_updates_data (Completed 0 "linux 6.6.1-1 ->") = [].
Proof. repeat split. Qed.

Lemma update_scan_witness :
  update_line "linux  6.6.1-1 -> 6.6.2-1 [ignored]"
  = [mkItem "linux" "6.6.1-1" "6.6.2-1"]
  /\ update_line "warning: database file missing" = [].
Proof.
  destruct update_scan as (_ & B & C & _). split.
  - apply (C "" "linux" "  " "6.6.1-1" " " " " "6.6.2-1" " [ignored]");
      try reflexivity; split; (discriminate || reflexivity).
  - apply B. intros [_ H]. discriminate.
Defined.

(** ** The official search parser *)

Import Block.

Lemma pacman_lines_rec (sys : system) (h n v : string) (rest : list string) :
  strip h = n ++ " " ++ v -> char_in " " n = false ->
  pacman_lines sys (h :: rest)
  = match rest with
    | d :: rest' =>
        if startswith "    " d
        then pacman_record sys [n; v] (strip d) :: pacman_lines sys rest'
        else pacman_record sys [n; v] "" :: pacman_lines sys rest
    | [] => [pacman_record sys [n; v] ""]
    end.
Proof.
  intros Hs Hn. cbn [pacman_lines]. cbv zeta.
  rewrite (strip_not_indented h). rewrite Hs.
  change (n ++ " " ++ v) with (n ++ String " " v).
  rewrite (splitn_cut " " 0 n v Hn).
  replace (nonempty (n ++ String " " v)) with true
    by (destruct n; reflexivity).
  reflexivity.
Qed.

Lemma pacman_lines_skip (sys : system) (l : string) (rest : list string) :
  char_in " " (strip l) = false ->
  pacman_lines sys (l :: rest) = pacman_lines sys rest.
Proof.
  intros H. cbn [pacman_lines]. cbv zeta.
  rewrite (splitn_whole " " 1 _ H).
  destruct (nonempty (strip l) && negb (startswith " " (strip l)));
    reflexivity.
Qed.

Lemma first_line_not_description (es : list entry) :
  Forall well_formed es ->
  match flat_map lines_of es with
  | l :: _ => startswith "    " l = false
  | [] => True
  end.
Proof.
  intros H. destruct H as [|e es He _]; [exact I |].
  destruct e as [h n v [d|] | l]; simpl in *; tauto.
Qed.

Lemma pacman_lines_block (sys : system) (es : list entry) :
  Forall well_formed es ->
  pacman_lines sys (flat_map lines_of es) = flat_map (records_of sys) es.
Proof.
  induction 1 as [|e es He Hes IH]; [reflexivity |].
  pose proof (first_line_not_description es Hes) as F.
  destruct e as [h n v [d|] | l].
  - destruct He as (_ & Hs & Hn & Hd).
    cbn [flat_map lines_of records_of app description_of].
    rewrite (pacman_lines_rec sys h n v _ Hs Hn), Hd, IH. reflexivity.
  - destruct He as (_ & Hs & Hn & _).
    cbn [flat_map lines_of records_of app description_of].
    rewrite (pacman_lines_rec sys h n v _ Hs Hn), <- IH.
    destruct (flat_map lines_of es) as [|l ls]; [| rewrite F]; reflexivity.
  - destruct He as [_ Hl].
    cbn [flat_map lines_of records_of app].
    now rewrite (pacman_lines_skip sys l _ Hl).
Qed.

Lemma record_fields (sys : system) (n v d : string) :
  let r := pacman_record sys [n; v] d in
  Search.name r = n /\ version r = v /\ description r = d
  /\ installed r = _is_installed sys (pkg r)
  /\ (char_in "/" n = false -> repository r = "unknown" /\ pkg r = n)
  /\ (forall a b, n = a ++ "/" ++ b -> char_in "/" a = false ->
                  repository r = a)
  /\ (forall a b, n = a ++ "/" ++ b -> char_in "/" b = false -> pkg r = b).
Proof.
  unfold pacman_record. cbn [nth List.length Nat.ltb Nat.leb Search.name version
    description installed pkg repository].
  split; [reflexivity |]. split; [reflexivity |]. split; [reflexivity |].
  split; [reflexivity |]. split; [| split].
  - intros H. rewrite H, (split_whole "/" n H). split; reflexivity.
  - intros a b ->. change (a ++ "/" ++ b) with (a ++ String "/" b).
    rewrite char_in_app. cbn [char_in]. rewrite Ascii.eqb_refl, orb_true_r.
    intros Ha. now rewrite (split_cut "/" a b Ha).
  - intros a b -> Hb. change (a ++ "/" ++ b) with (a ++ String "/" b).
    now apply split_last.
Qed.

(** C1, as the code has it.  Take a block of lines in which no line but a
    description line is indented: a line that does not start with white
    space and is, once stripped, a name, one space and a version may be
    followed by a description line that starts with four spaces; every
    other line is empty or does not start with white space, and has no
    space once stripped.  The parser gives, in order, exactly one record
    for each line with a version and none for the others.  In a record the
    name is the text before the first space of the stripped line and the
    version all that follows it; the description is the stripped
    description line, or empty; the repository is the part of the name
    before its first "/", or "unknown" when it has none; the package name
    is the part after its last "/", or the whole name.  The line
    "core/vim 2:9.1.0-1" alone gives the record of the scenario.  Nothing
    is said of a line indented by other than four spaces that holds a
    space once stripped. *)
Theorem official_records (sys : system) :
  (forall es,
      Forall well_formed es -> Forall flush es ->
      pacman_lines sys (flat_map lines_of es) = flat_map (records_of sys) es)
  /\ (forall e es,
        Forall well_formed (e :: es) -> Forall flush (e :: es) ->
        Forall no_line_feed (flat_map lines_of (e :: es)) ->
        _parse_pacman_search sys
          (join (String LF "") (flat_map lines_of (e :: es)))
        = flat_map (records_of sys) (e :: es))
  /\ (forall n v d,
        let r := pacman_record sys [n; v] d in
        Search.name r = n /\ version r = v /\ description r = d
        /\ installed r = _is_installed sys (pkg r)
        /\ (char_in "/" n = false -> repository r = "unknown" /\ pkg r = n)
        /\ (forall a b, n = a ++ "/" ++ b -> char_in "/" a = false ->
                        repository r = a)
        /\ (forall a b, n = a ++ "/" ++ b -> char_in "/" b = false ->
                        pkg r = b))
  /\ _parse_pacman_search sys "core/vim 2:9.1.0-1"
     = [mkPackage "core/vim" "vim" "2:9.1.0-1" "" "core"
          (_is_installed sys "vim")].
Proof.
  split; [| split; [| split]].
  - intros es Hw _. now apply pacman_lines_block.
  - intros e es Hw _ Hl. unfold _parse_pacman_search.
    destruct (flat_map lines_of (e :: es)) as [|l ls] eqn:E.
    + destruct e as [h n v [d|] | l]; discriminate.
    + rewrite (split_join l ls Hl), <- E. now apply pacman_lines_block.
  - apply record_fields.
  - reflexivity.
Qed.

(** C1, as stated, fails in three ways: the package name is what follows
    the last "/" of the name, not the first; a non-indented line without a
    version gives no record; and a following line indented by two spaces
    is not consumed as the description, which stays empty. *)
Lemma official_claim_fails :
  (exists r,
      _parse_pacman_search nothing_installed "extra/kde/konsole 24.02.0-1"
      = [r]
      /\ Search.name r = "extra/kde/konsole"
      /\ after_first "/" (Search.name r) = "kde/konsole"
      /\ pkg r = "konsole"
      /\ pkg r <> after_first "/" (Search.name r))
  /\ (nonindented "vim" /\ _parse_pacman_search nothing_installed "vim" = [])
  /\ (exists r,
        pacman_lines nothing_installed ["core/vim 2:9.1.0-1"; "  Improved"]
        = [r]
        /\ description r = ""
        /\ description r <> strip "  Improved").
Proof.
  split; [| split; [split |]]; try reflexivity.
  - eexists. repeat split. discriminate.
  - eexists. split; [reflexivity |]. split; [reflexivity | discriminate].
Qed.

Lemma official_records_witness :
  pacman_lines nothing_installed
    ["core/vim 2:9.1.0-1"; "    Vi Improved, a text editor"; "";
     "extra/gvim 2:9.1.0-1"; "local-build"]
  = [mkPackage "core/vim" "vim" "2:9.1.0-1" "Vi Improved, a text editor"
       "core" false;
     mkPackage "extra/gvim" "gvim" "2:9.1.0-1" "" "extra" false].
Proof.
  destruct (official_records nothing_installed) as (A & _).
  apply (A [Rec "core/vim 2:9.1.0-1" "core/vim" "2:9.1.0-1"
              (Some "    Vi Improved, a text editor");
            Skip "";
            Rec "extra/gvim 2:9.1.0-1" "extra/gvim" "2:9.1.0-1" None;
            Skip "local-build"]).
  - repeat constructor.
  - repeat apply Forall_cons; try apply Forall_nil; cbn [flush nonindented];
      try reflexivity; [left | right]; reflexivity.
Defined.

(** ** The details cache *)

Import Details.

Local Open Scope list_scope.

Lemma lookup_none (k : string) (d : cache) :
  lookup k d = None <-> ~ In k (keys d).
Proof.
  induction d as [|[k' v] d IH]; simpl; [tauto |].
  destruct (String.eqb_spec k' k) as [-> | Hne].
  - split; [discriminate | intros H; exfalso; apply H; now left].
  - rewrite IH. tauto.
Qed.

Lemma store_new (k : string) (v : info) (d : cache) :
  lookup k d = None -> store k v d = (d ++ [(k, v)])%list.
Proof.
  induction d as [|[k' v'] d IH]; simpl; [reflexivity |].
  destruct (k' =? k); [discriminate |]. intros H. now rewrite (IH H).
Qed.

Lemma lookup_last (k : string) (v : info) (d : cache) :
  lookup k d = None -> lookup k (d ++ [(k, v)])%list = Some v.
Proof.
  induction d as [|[k' v'] d IH]; simpl.
  - now rewrite String.eqb_refl.
  - destruct (k' =? k); [discriminate | exact IH].
Qed.

Lemma lookup_pop_other (k k' : string) (d : cache) :
  k' <> k -> lookup k (pop k' d) = lookup k d.
Proof.
  intros Hne. induction d as [|[x v] d IH]; simpl; [reflexivity |].
  destruct (String.eqb_spec x k') as [-> | Hx]; simpl.
  - apply String.eqb_neq in Hne. now rewrite Hne.
  - now rewrite IH.
Qed.

Lemma lookup_pops (k : string) (ks : list string) (d : cache) :
  ~ In k ks ->
  lookup k (fold_left (fun acc x => pop x acc) ks d) = lookup k d.
Proof.
  revert d. induction ks as [|x ks IH]; intros d H; simpl; [reflexivity |].
  rewrite IH; [| intros K; apply H; now right].
  apply lookup_pop_other. intros ->. apply H. now left.
Qed.

Lemma pops_skipn (n : nat) (d : cache) :
  NoDup (keys d) ->
  fold_left (fun acc x => pop x acc) (firstn n (keys d)) d = skipn n d.
Proof.
  revert d. induction n as [|n IH]; intros d H; [reflexivity |].
  destruct d as [|[k v] d]; [reflexivity |].
  simpl. rewrite String.eqb_refl. apply IH. now inversion H.
Qed.

Lemma cull_skipn (d : cache) : NoDup (keys d) -> cull d = skipn 50 d.
Proof. apply pops_skipn. Qed.

Lemma keys_app (a b : cache) :
  keys (a ++ b)%list = (keys a ++ keys b)%list.
Proof. apply map_app. Qed.

Lemma NoDup_snoc (k : string) (ks : list string) :
  NoDup ks -> ~ In k ks -> NoDup (ks ++ [k])%list.
Proof.
  induction 1 as [|x ks Hx Hks IH]; intros Hk; simpl.
  - repeat constructor. intros [].
  - constructor.
    + rewrite in_app_iff. simpl. intros [H | [H | []]]; [tauto |].
      apply Hk. now left.
    + apply IH. intros H. apply Hk. now right.
Qed.

Lemma NoDup_skipn (n : nat) (ks : list string) :
  NoDup ks -> NoDup (skipn n ks).
Proof.
  revert ks. induction n as [|n IH]; intros ks H; [exact H |].
  destruct ks as [|x ks]; [exact H |]. simpl. apply IH. now inversion H.
Qed.

Lemma keys_skipn (n : nat) (d : cache) : keys (skipn n d) = skipn n (keys d).
Proof. unfold keys. now rewrite skipn_map. Qed.

(** What a call does to the cache, case by case. *)
Lemma details_cases (sys : system) (d : cache) (n repo : string)
    (with_deps : bool) :
  let k := cache_key n repo with_deps in
  let o := _get_package_details sys d n repo with_deps in
  (exists v, lookup k d = Some v
             /\ result o = v /\ cache_after o = d /\ spawned o = [])
  \/ (lookup k d = None
      /\ result o = fst (resolve sys n repo with_deps)
      /\ spawned o = snd (resolve sys n repo with_deps)
      /\ cache_after o
         = if (200 <? List.length (d ++ [(k, result o)])%list)%nat
           then cull (d ++ [(k, result o)])%list
           else (d ++ [(k, result o)])%list).
Proof.
  cbv zeta. unfold _get_package_details.
  destruct (lookup (cache_key n repo with_deps) d) as [v|] eqn:E.
  - left. exists v. simpl. auto.
  - right. destruct (resolve sys n repo with_deps) as [i ran].
    simpl. rewrite (store_new _ i d E). auto.
Qed.

Lemma fresh_entry_kept (k : string) (v : info) (d : cache) :
  lookup k d = None ->
  (50 <= List.length d)%nat ->
  lookup k (cull (d ++ [(k, v)])%list) = Some v
  /\ ~ In k (firstn 50 (keys (d ++ [(k, v)])%list)).
Proof.
  intros Hk Hl.
  assert (F : firstn 50 (keys (d ++ [(k, v)])%list) = firstn 50 (keys d)).
  { rewrite keys_app, firstn_app.
    replace (50 - List.length (keys d))%nat with 0%nat
      by (unfold keys; rewrite length_map; lia).
    simpl. now rewrite app_nil_r. }
  assert (N : ~ In k (firstn 50 (keys (d ++ [(k, v)])%list))).
  { rewrite F. intros H. apply (proj1 (lookup_none k d) Hk).
    rewrite <- (firstn_skipn 50 (keys d)). apply in_or_app. now left. }
  split; [| exact N].
  unfold cull. rewrite (lookup_pops k _ _ N). now apply lookup_last.
Qed.

Lemma details_hit (sys : system) (d : cache) (n repo : string)
    (with_deps : bool) (v : info) :
  lookup (cache_key n repo with_deps) d = Some v ->
  _get_package_details sys d n repo with_deps = mkOutcome v d [].
Proof. intros H. unfold _get_package_details. now rewrite H. Qed.

Lemma details_miss_present (sys : system) (d : cache) (n repo : string)
    (with_deps : bool) :
  let k := cache_key n repo with_deps in
  let o := _get_package_details sys d n repo with_deps in
  lookup k d = None -> lookup k (cache_after o) = Some (result o).
Proof.
  cbv zeta. intros Hk.
  destruct (details_cases sys d n repo with_deps)
    as [(v & Hv & _) | (_ & _ & _ & Hc)]; [congruence |].
  rewrite Hc.
  destruct (200 <? List.length (d ++ [(cache_key n repo with_deps, _)]))%nat
    eqn:L.
  - apply fresh_entry_kept; [exact Hk |].
    apply Nat.ltb_lt in L. rewrite length_app in L. simpl in L. lia.
  - now apply lookup_last.
Qed.

Lemma skipn_snoc (d : cache) (x : string * info) :
  (50 <= List.length d)%nat ->
  skipn 50 (d ++ [x]) = (skipn 50 d ++ [x])%list.
Proof.
  intros H. rewrite skipn_app.
  replace (50 - List.length d)%nat with 0%nat by lia. reflexivity.
Qed.

Lemma serve_invariant (d : cache) (q : request) :
  NoDup (keys d) /\ (List.length d <= 200)%nat ->
  NoDup (keys (serve d q)) /\ (List.length (serve d q) <= 200)%nat.
Proof.
  intros [Hn Hl]. unfold serve.
  destruct (details_cases (req_sys q) d (req_name q) (req_repo q)
              (req_deps q))
    as [(v & _ & _ & -> & _) | (Hk & _ & _ & ->)]; [now split |].
  set (k := cache_key (req_name q) (req_repo q) (req_deps q)) in *.
  set (x := (k, result _)).
  assert (Hn1 : NoDup (keys (d ++ [x]))).
  { rewrite keys_app. apply NoDup_snoc; [exact Hn |].
    now apply lookup_none. }
  assert (Hl1 : List.length (d ++ [x]) = S (List.length d)).
  { rewrite length_app. simpl. lia. }
  destruct (200 <? List.length (d ++ [x]))%nat eqn:L.
  - rewrite (cull_skipn _ Hn1). split.
    + rewrite keys_skipn. now apply NoDup_skipn.
    + rewrite length_skipn. lia.
  - apply Nat.ltb_ge in L. now split.
Qed.

Lemma reachable_invariant (d : cache) :
  reachable d -> NoDup (keys d) /\ (List.length d <= 200)%nat.
Proof.
  induction 1 as [|d q _ IH].
  - split; [constructor | simpl; lia].
  - now apply serve_invariant.
Qed.

Lemma reachable_serves (qs : list request) (d : cache) :
  reachable d -> reachable (fold_left serve qs d).
Proof.
  revert d. induction qs as [|q qs IH]; intros d H; [exact H |].
  simpl. apply IH. now constructor.
Qed.

(** ** Calls on threads *)

Lemma finish_returned (n : nat) (d : cache) (q : request) (i : info) :
  Threads.finish n d (Threads.Returned q i) = (d, Threads.Returned q i).
Proof. induction n as [|n IH]; [reflexivity | exact IH]. Qed.

Lemma finish_pops (ks : list string) (n : nat) (d : cache) (q : request)
    (i : info) :
  (List.length ks + 2 <= n)%nat ->
  Threads.finish n d (Threads.AtPop q i ks)
  = (fold_left (fun acc k => pop k acc) ks d, Threads.Returned q i).
Proof.
  revert n d. induction ks as [|k ks IH]; intros n d H.
  - destruct n as [|[|n]]; simpl in H; try lia.
    cbn [Threads.finish Threads.advance fold_left].
    first [reflexivity | apply finish_returned].
  - destruct n as [|n]; simpl in H; try lia.
    cbn [Threads.finish Threads.advance fold_left].
    apply IH. lia.
Qed.

Lemma finish_S (n : nat) (d : cache) (t : Threads.thread) :
  Threads.finish (S n) d t
  = Threads.finish n (fst (Threads.advance d t)) (snd (Threads.advance d t)).
Proof. cbn [Threads.finish]. now destruct (Threads.advance d t). Qed.

(** A call that does all its operations with no operation of another
    thread in between is the call of [_get_package_details]. *)
Lemma alone_serves (d : cache) (q : request) :
  Threads.alone d q
  = (serve d q,
     Threads.Returned q
       (result (_get_package_details (req_sys q) d (req_name q) (req_repo q)
                  (req_deps q)))).
Proof.
  unfold Threads.alone, serve, _get_package_details.
  change (cache_key (req_name q) (req_repo q) (req_deps q))
    with (Threads.key_of q).
  destruct (lookup (Threads.key_of q) d) as [v|] eqn:E.
  - rewrite finish_S. cbn [Threads.advance]. rewrite E. cbn [fst snd].
    rewrite finish_S. cbn [Threads.advance]. rewrite E. cbn [fst snd].
    rewrite finish_S. cbn [Threads.advance fst snd cache_after result].
    apply finish_returned.
  - destruct (resolve (req_sys q) (req_name q) (req_repo q) (req_deps q))
      as [i ran] eqn:R.
    rewrite finish_S. cbn [Threads.advance]. rewrite E. cbn [fst snd].
    rewrite finish_S. cbn [Threads.advance fst snd]. rewrite R. cbn [fst].
    rewrite finish_S. cbn [Threads.advance fst snd].
    rewrite finish_S. cbn [Threads.advance].
    destruct (200 <? List.length (store (Threads.key_of q) i d))%nat;
      cbn [fst snd cache_after result].
    + rewrite finish_S. cbn [Threads.advance fst snd].
      rewrite finish_pops; [reflexivity |].
      pose proof (firstn_le_length 50
                    (keys (store (Threads.key_of q) i d))). lia.
    + rewrite finish_S. cbn [Threads.advance fst snd].
      apply finish_returned.
Qed.

Lemma set_nth_last (ts : list Threads.thread) (t t' : Threads.thread) :
  Threads.set_nth (List.length ts) t' (ts ++ [t]) = ts ++ [t'].
Proof. induction ts as [|x ts IH]; simpl; [reflexivity | now rewrite IH]. Qed.

Lemma play_app (s : Threads.pool) (a b : list Threads.act) :
  Threads.play s (a ++ b) = Threads.play (Threads.play s a) b.
Proof. apply fold_left_app. Qed.

Lemma play_turns (n : nat) (ts : list Threads.thread) (t : Threads.thread)
    (d : cache) :
  Threads.play (Threads.mkPool d (ts ++ [t]))
    (repeat (Threads.Turn (List.length ts)) n)
  = Threads.mkPool (fst (Threads.finish n d t))
      (ts ++ [snd (Threads.finish n d t)]).
Proof.
  revert t d. induction n as [|n IH]; intros t d; [reflexivity |].
  cbn [repeat Threads.finish]. unfold Threads.play. cbn [fold_left].
  unfold Threads.perform at 2. cbn [Threads.threads Threads.shared].
  rewrite nth_error_app2, Nat.sub_diag by lia. cbn [nth_error].
  destruct (Threads.advance d t) as [d' t'].
  rewrite set_nth_last. apply IH.
Qed.

(** Calls that do not overlap change the dictionary as the calls of
    [_get_package_details] one after the other do, and all return. *)
Lemma play_serial (qs : list request) (d : cache)
    (ts : list Threads.thread) :
  exists ts',
    Threads.play (Threads.mkPool d ts) (Threads.serial (List.length ts) qs)
    = Threads.mkPool (fold_left serve qs d) (ts ++ ts')
    /\ List.length ts' = List.length qs
    /\ Forall (fun t => Threads.returned t = true) ts'.
Proof.
  revert d ts. induction qs as [|q qs IH]; intros d ts.
  - exists []. rewrite app_nil_r. repeat split. constructor.
  - cbn [Threads.serial]. unfold Threads.play. cbn [fold_left].
    fold (Threads.play (Threads.perform (Threads.mkPool d ts)
                          (Threads.Call q))
            (repeat (Threads.Turn (List.length ts)) 57
             ++ Threads.serial (S (List.length ts)) qs)).
    rewrite play_app. cbn [Threads.perform Threads.shared Threads.threads].
    rewrite play_turns. fold (Threads.alone d q). rewrite alone_serves.
    cbn [fst snd].
    set (t := Threads.Returned q _).
    destruct (IH (serve d q) (ts ++ [t])) as (ts' & E & L & F).
    rewrite length_app in E. cbn [List.length] in E.
    rewrite Nat.add_1_r in E.
    exists (t :: ts'). rewrite E, <- app_assoc. cbn [app fold_left].
    split; [reflexivity |]. split; [simpl; now rewrite L |].
    constructor; [reflexivity | exact F].
Qed.

(** C5.  After a call for a package, a second call with the same name,
    repository and dependency flag on the cache the first call left
    returns the same details, runs no process and leaves the cache as it
    is, whatever the system would answer. *)
Theorem details_idempotent (sys sys' : system) (d : cache) (n repo : string)
    (with_deps : bool) :
  let first := _get_package_details sys d n repo with_deps in
  let second := _get_package_details sys' (cache_after first) n repo
                  with_deps in
  result second = result first
  /\ spawned second = []
  /\ cache_after second = cache_after first
  /\ lookup (cache_key n repo with_deps) (cache_after first)
     = Some (result first).
Proof.
  cbv zeta.
  assert (H : lookup (cache_key n repo with_deps)
                (cache_after (_get_package_details sys d n repo with_deps))
              = Some (result (_get_package_details sys d n repo with_deps))).
  { destruct (lookup (cache_key n repo with_deps) d) as [v|] eqn:E.
    - rewrite (details_hit sys d n repo with_deps v E). exact E.
    - now apply details_miss_present. }
  rewrite (details_hit sys' _ n repo with_deps _ H). simpl. auto.
Qed.

(** C9, as the code has it.  A call that misses the cache and does all
    its operations on the dictionary with no operation of another call in
    between leaves its fresh entry in the cache when it returns: such a
    call is the call of [_get_package_details] on the dictionary it
    found; below the bound the entry is added at the end; at the bound
    the first 50 keys in insertion order are removed, the new key is not
    one of them, and the entry is again the last one. *)
Theorem fresh_entry_present (sys : system) (d : cache) (n repo : string)
    (with_deps : bool) :
  let k := cache_key n repo with_deps in
  let o := _get_package_details sys d n repo with_deps in
  lookup k d = None ->
  Threads.alone d (mkRequest sys n repo with_deps)
  = (cache_after o,
     Threads.Returned (mkRequest sys n repo with_deps) (result o))
  /\ lookup k (cache_after o) = Some (result o)
  /\ ((List.length d < 200)%nat ->
      cache_after o = (d ++ [(k, result o)])%list)
  /\ ((200 <= List.length d)%nat ->
      cache_after o = cull (d ++ [(k, result o)])
      /\ ~ In k (firstn 50 (keys (d ++ [(k, result o)]))))
  /\ ((200 <= List.length d)%nat -> NoDup (keys d) ->
      cache_after o = (skipn 50 d ++ [(k, result o)])%list).
Proof.
  cbv zeta. intros Hk.
  split; [exact (alone_serves d (mkRequest sys n repo with_deps)) |].
  split; [now apply details_miss_present |].
  destruct (details_cases sys d n repo with_deps)
    as [(v & Hv & _) | (_ & _ & _ & Hc)]; [congruence |].
  set (k := cache_key n repo with_deps) in *.
  set (o := _get_package_details sys d n repo with_deps) in *.
  assert (Hl : List.length (d ++ [(k, result o)]) = S (List.length d)).
  { rewrite length_app. simpl. lia. }
  rewrite Hl in Hc.
  split; [| split].
  - intros L. rewrite Hc.
    replace (200 <? S (List.length d))%nat with false; [reflexivity |].
    symmetry. apply Nat.ltb_ge. lia.
  - intros L. split.
    + rewrite Hc.
      replace (200 <? S (List.length d))%nat with true; [reflexivity |].
      symmetry. apply Nat.ltb_lt. lia.
    + apply fresh_entry_kept; [exact Hk | lia].
  - intros L Hn. rewrite Hc.
    replace (200 <? S (List.length d))%nat with true
      by (symmetry; apply Nat.ltb_lt; lia).
    rewrite cull_skipn.
    + apply skipn_snoc. lia.
    + rewrite keys_app. apply NoDup_snoc; [exact Hn |].
      now apply lookup_none.
Qed.

(** C6, as the code has it.  When the calls do not overlap, each doing
    all its operations on the dictionary before the next one starts, the
    dictionary is changed as by the calls of [_get_package_details] one
    after the other, every call returns, and the dictionary has at most
    200 entries at the return of each.  Inside such a call the insertion
    makes it at most 201 entries long; when it is longer than 200 the call
    removes the first 50 keys in insertion order, which leaves the other
    151 entries, and otherwise the call removes nothing. *)
Theorem cache_bounded :
  (forall qs,
      let s := Threads.play Threads.empty_pool (Threads.serial 0 qs) in
      Threads.shared s = fold_left serve qs []
      /\ (List.length (Threads.shared s) <= 200)%nat
      /\ List.length (Threads.threads s) = List.length qs
      /\ Forall (fun t => Threads.returned t = true) (Threads.threads s))
  /\ (forall d q,
        Threads.alone d q
        = (serve d q,
           Threads.Returned q
             (result (_get_package_details (req_sys q) d (req_name q)
                        (req_repo q) (req_deps q)))))
  /\ (forall d, reachable d -> (List.length d <= 200)%nat)
  /\ (forall sys d n repo with_deps,
        reachable d ->
        let d1 := after_insertion sys d n repo with_deps in
        let o := _get_package_details sys d n repo with_deps in
        (List.length d1 <= 201)%nat
        /\ ((200 < List.length d1)%nat ->
            cache_after o = skipn 50 d1
            /\ keys d1 = (firstn 50 (keys d1) ++ keys (cache_after o))%list
            /\ List.length (cache_after o) = 151%nat)
        /\ ((List.length d1 <= 200)%nat -> cache_after o = d1)).
Proof.
  split; [| split; [exact alone_serves |]].
  { intros qs. cbv zeta.
    destruct (play_serial qs [] []) as (ts & E & L & F).
    cbn [List.length app] in E. unfold Threads.empty_pool. rewrite E.
    cbn [Threads.shared Threads.threads].
    split; [reflexivity |]. split; [| split; assumption].
    apply reachable_invariant, reachable_serves. constructor. }
  split; [intros d H; now apply reachable_invariant |].
  intros sys d n repo with_deps H. cbv zeta.
  destruct (reachable_invariant d H) as [Hn Hl].
  unfold after_insertion.
  destruct (details_cases sys d n repo with_deps)
    as [(v & Hv & _ & Hc & _) | (Hk & Hr & _ & Hc)].
  - rewrite Hv, Hc. split; [lia |]. split; [lia | reflexivity].
  - rewrite Hk, (store_new _ _ d Hk), <- Hr.
    set (k := cache_key n repo with_deps) in *.
    set (o := _get_package_details sys d n repo with_deps) in *.
    assert (L1 : List.length (d ++ [(k, result o)]) = S (List.length d)).
    { rewrite length_app. simpl. lia. }
    assert (N1 : NoDup (keys (d ++ [(k, result o)]))).
    { rewrite keys_app. apply NoDup_snoc; [exact Hn |].
      now apply lookup_none. }
    split; [lia |]. split.
    + intros L. apply Nat.ltb_lt in L. rewrite L in Hc.
      rewrite Hc, (cull_skipn _ N1). split; [reflexivity |]. split.
      * rewrite keys_skipn. symmetry. apply firstn_skipn.
      * rewrite length_skipn. apply Nat.ltb_lt in L. lia.
    + intros L. apply Nat.ltb_ge in L. now rewrite L in Hc.
Qed.

Import CacheSamples.

(** C9, as stated, fails when calls overlap.  After 200 calls the cache
    holds 200 entries.  Five calls for packages that are not in it then
    overlap: each stores its details and finds more than 200 entries;
    four of them, one after the other, take the first 50 keys and pop
    them, which leaves the five fresh entries; the fifth takes the first
    50 keys, its own among them, and pops them.  It returns its details
    and its key is not in the cache. *)
Lemma overlapping_culls_drop_fresh_entry :
  let before :=
    Threads.play Threads.empty_pool
      (Threads.serial 0 (map sample_request (seq 0 200))) in
  let s := Threads.play Threads.empty_pool ThreadSamples.five_misses in
  List.length (Threads.shared before) = 200%nat
  /\ lookup "core:pkg204:nodeps" (Threads.shared before) = None
  /\ option_map Threads.answer (nth_error (Threads.threads s) 204)
     = Some (Some (mkInfo "pkg204" "-" "core" "No" "-" "-" "-" "-" [] []))
  /\ forallb Threads.returned (Threads.threads s) = true
  /\ lookup "core:pkg204:nodeps" (Threads.shared s) = None.
Proof. vm_compute. repeat split. Qed.

(** C6, as stated, fails when calls overlap.  After 199 calls, a call
    stores its details, which makes 200 entries, and finds that there are
    not more than 200; before it returns, another call stores its
    details; the first call returns with 201 entries in the cache. *)
Lemma overlapping_call_returns_above_bound :
  let s := Threads.play Threads.empty_pool ThreadSamples.late_store in
  option_map Threads.returned (nth_error (Threads.threads s) 199) = Some true
  /\ option_map Threads.returned (nth_error (Threads.threads s) 200)
     = Some false
  /\ List.length (Threads.shared s) = 201%nat.
Proof. vm_compute. repeat split. Qed.

Lemma fresh_entry_present_witness :
  lookup "core:pkg200:nodeps"
    (serve (filled 200) (sample_request 200))
  = Some (mkInfo "pkg200" "-" "core" "No" "-" "-" "-" "-" [] [])
  /\ lookup "core:pkg0:nodeps" (serve (filled 200) (sample_request 200))
     = None
  /\ fst (Threads.alone (filled 200) (sample_request 200))
     = serve (filled 200) (sample_request 200).
Proof.
  destruct (fresh_entry_present Samples.nothing_installed (filled 200)
              "pkg200" "core" false) as (A & H & _).
  - vm_compute. reflexivity.
  - split; [exact H |]. split; [vm_compute; reflexivity |].
    exact (f_equal fst A).
Defined.

Lemma cache_bounded_witness :
  (List.length (filled 200) <= 200)%nat
  /\ List.length (serve (filled 200) (sample_request 200)) = 151%nat
  /\ (List.length
        (Threads.shared
           (Threads.play Threads.empty_pool
              (Threads.serial 0 (map sample_request (seq 0 201)))))
      <= 200)%nat.
Proof.
  destruct cache_bounded as (P & _ & A & B). split; [| split].
  - apply A. apply reachable_serves. constructor.
  - destruct (B Samples.nothing_installed (filled 200) "pkg200" "core" false)
      as (_ & H & _).
    + apply reachable_serves. constructor.
    + apply H. vm_compute. lia.
  - apply (P (map sample_request (seq 0 201))).
Defined.

Local Open Scope string_scope.

(** ** The worker slot of the window *)

Import Window.

Lemma queue_next_nth (i : nat) (ws : list worker) (j : nat) (w' : worker) :
  nth_error (fst (queue_next i ws)) j = Some w' ->
  exists w, nth_error ws j = Some w
            /\ w_alive w' = w_alive w
            /\ (w_alive w' = false -> w' = w).
Proof.
  revert i j. induction ws as [|x ws IH]; intros i j H.
  - destruct i, j; discriminate.
  - destruct i as [|i].
    + simpl in H. destruct (w_alive x) eqn:A.
      * destruct (w_pending x) as [|c rest] eqn:P.
        -- exists w'. simpl in H. rewrite H. auto.
        -- destruct j as [|j]; simpl in H.
           ++ injection H as <-. exists x.
              split; [reflexivity |].
              split; [simpl; now rewrite A | simpl; discriminate].
           ++ exists w'. simpl. auto.
      * exists w'. simpl in H. rewrite H. auto.
    + simpl in H. destruct (queue_next i ws) as [r q] eqn:E.
      destruct j as [|j]; simpl in H.
      * injection H as <-. exists x. simpl. auto.
      * apply (IH i j). now rewrite E.
Qed.

Lemma exit_worker_nth (i : nat) (ws : list worker) (j : nat) (w' : worker) :
  nth_error (exit_worker i ws) j = Some w' ->
  exists w, nth_error ws j = Some w
            /\ (w' = w \/ (w_alive w' = false /\ w_pending w' = [])).
Proof.
  revert i j. induction ws as [|x ws IH]; intros i j H.
  - destruct i, j; discriminate.
  - destruct i as [|i].
    + simpl in H. destruct (w_pending x) as [|c rest] eqn:P.
      * destruct j as [|j]; simpl in H.
        -- injection H as <-. exists x. simpl. auto.
        -- exists w'. simpl. auto.
      * exists w'. rewrite H. auto.
    + destruct j as [|j]; simpl in H.
      * injection H as <-. exists x. simpl. auto.
      * destruct (IH i j H) as (w & Hw & K). exists w. simpl. auto.
Qed.

Lemma dispatch_workers (now : string) (s : window) :
  workers (dispatch now s) = workers s
  /\ current_worker (dispatch now s) = current_worker s.
Proof.
  unfold dispatch. destruct (idle s) as [|c rest]; [auto |].
  destruct c as [m | v | t | ok m]; simpl; auto.
  unfold on_operation_finished. destruct ok; simpl; auto.
Qed.

Lemma busy_alive (s : window) :
  busy s = true <->
  exists i w, current_worker s = Some i
              /\ nth_error (workers s) i = Some w /\ w_alive w = true.
Proof.
  unfold busy. split.
  - destruct (current_worker s) as [i|]; [| discriminate].
    destruct (nth_error (workers s) i) as [w|] eqn:E; [| discriminate].
    intros H. now exists i, w.
  - intros (i & w & -> & -> & H). exact H.
Qed.

Lemma step_invariant (e : event) (s : window) :
  slot_invariant s -> slot_invariant (step e s).
Proof.
  intros [I1 I2]. destruct e as [popen command op | i | i | now | p | u].
  - simpl. unfold run_package_operation. destruct (busy s) eqn:B.
    + split; [exact I1 | exact I2].
    + assert (Dead : forall i w, nth_error (workers s) i = Some w ->
                                 w_alive w = false).
      { intros i w Hw. destruct (w_alive w) eqn:A; [| reflexivity].
        rewrite <- B. symmetry. apply busy_alive. exists i, w.
        repeat split; try assumption. now apply (I1 i w). }
      split; simpl; intros i w Hw A.
      * destruct (Nat.lt_ge_cases i (List.length (workers s))) as [L | L].
        -- rewrite nth_error_app1 in Hw by exact L.
           rewrite (Dead i w Hw) in A. discriminate.
        -- rewrite nth_error_app2 in Hw by exact L.
           destruct (i - List.length (workers s))%nat as [|k] eqn:K.
           ++ f_equal. lia.
           ++ destruct k; discriminate.
      * destruct (Nat.lt_ge_cases i (List.length (workers s))) as [L | L].
        -- rewrite nth_error_app1 in Hw by exact L. now apply (I2 i w).
        -- rewrite nth_error_app2 in Hw by exact L.
           destruct (i - List.length (workers s))%nat as [|k].
           ++ simpl in Hw. injection Hw as <-. discriminate.
           ++ destruct k; discriminate.
  - simpl. destruct (queue_next i (workers s)) as [ws q] eqn:E.
    assert (N : forall j w', nth_error ws j = Some w' ->
                exists w, nth_error (workers s) j = Some w
                          /\ w_alive w' = w_alive w
                          /\ (w_alive w' = false -> w' = w)).
    { intros j w' H. apply (queue_next_nth i). now rewrite E. }
    split; simpl; intros j w' Hw A.
    + destruct (N j w' Hw) as (w & Hj & Ha & _). apply (I1 j w Hj). congruence.
    + destruct (N j w' Hw) as (w & Hj & Ha & Heq). rewrite (Heq A).
      apply (I2 j w Hj). congruence.
  - split; simpl; intros j w' Hw A.
    + destruct (exit_worker_nth i _ j w' Hw) as (w & Hj & [-> | [K _]]).
      * now apply (I1 j w).
      * congruence.
    + destruct (exit_worker_nth i _ j w' Hw) as (w & Hj & [-> | [_ K]]).
      * now apply (I2 j w).
      * exact K.
  - simpl. destruct (dispatch_workers now s) as [Ew Ec].
    split; rewrite Ew; [rewrite Ec; exact I1 | exact I2].
  - split; [exact I1 | exact I2].
  - split; [exact I1 | exact I2].
Qed.

Lemma reachable_slot (s : window) : reachable s -> slot_invariant s.
Proof.
  induction 1 as [|e s _ IH].
  - split; intros i w H; destruct i; discriminate.
  - now apply step_invariant.
Qed.

Lemma reachable_run_events (es : list event) (s : window) :
  reachable s -> reachable (run_events es s).
Proof.
  unfold run_events. revert s.
  induction es as [|e es IH]; intros s H; [exact H |].
  simpl. apply IH. now constructor.
Qed.

Lemma alive_count (ws : list worker) :
  (forall i j wi wj, nth_error ws i = Some wi -> nth_error ws j = Some wj ->
                     w_alive wi = true -> w_alive wj = true -> i = j) ->
  (List.length (filter w_alive ws) <= 1)%nat.
Proof.
  induction ws as [|w ws IH]; intros U; [simpl; lia |].
  simpl. destruct (w_alive w) eqn:A.
  - assert (E : filter w_alive ws = []).
    { destruct (filter w_alive ws) as [|x r] eqn:F; [reflexivity |].
      assert (Hx : In x (filter w_alive ws)) by (rewrite F; now left).
      apply filter_In in Hx. destruct Hx as [Hin Hal].
      apply In_nth_error in Hin. destruct Hin as [j Hj].
      specialize (U 0%nat (S j) w x eq_refl Hj A Hal). discriminate. }
    rewrite E. simpl. lia.
  - apply IH. intros i j wi wj Hi Hj Ai Aj.
    specialize (U (S i) (S j) wi wj Hi Hj Ai Aj). lia.
Qed.

Lemma active_le_one (s : window) : slot_invariant s -> (active s <= 1)%nat.
Proof.
  intros [I1 _]. unfold active. apply alive_count.
  intros i j wi wj Hi Hj Ai Aj.
  pose proof (I1 i wi Hi Ai) as Ei. pose proof (I1 j wj Hj Aj) as Ej.
  congruence.
Qed.

Lemma busy_active (s : window) :
  slot_invariant s -> (busy s = true <-> active s = 1%nat).
Proof.
  intros I. pose proof (active_le_one s I) as L. destruct I as [I1 _].
  unfold active in *. split.
  - intros B. apply busy_alive in B. destruct B as (i & w & _ & Hw & A).
    assert (Hin : In w (filter w_alive (workers s))).
    { apply filter_In. split; [| exact A]. eapply nth_error_In. exact Hw. }
    destruct (filter w_alive (workers s)); [contradiction | simpl in *; lia].
  - intros E. destruct (filter w_alive (workers s)) as [|w r] eqn:F;
      [discriminate |].
    assert (Hin : In w (filter w_alive (workers s))) by (rewrite F; now left).
    apply filter_In in Hin. destruct Hin as [Hin A].
    apply In_nth_error in Hin. destruct Hin as [i Hi].
    apply busy_alive. exists i, w. repeat split; try assumption.
    now apply (I1 i w).
Qed.

Lemma filter_alive_app (a b : list worker) :
  filter w_alive (a ++ b) = (filter w_alive a ++ filter w_alive b)%list.
Proof. apply filter_app. Qed.

(** C3, as the code has it.  In every state the window can reach at most
    one worker thread is alive, and a request is refused exactly when one
    is.  A refused request shows the "Operation in Progress" warning and
    changes nothing else: workers, slot, widgets and queued calls stay as
    they are.  An accepted request clears the output, starts one worker
    with the stored password and puts it in the slot.  Running a queued
    call, the done call among them, does not change which thread is alive:
    the next request is accepted once the worker thread has ended, and a
    thread that has ended has queued all its calls, the done call among
    them. *)
Theorem single_worker (s : window) :
  reachable s ->
  (active s <= 1)%nat
  /\ (busy s = true <-> active s = 1%nat)
  /\ (forall popen command op,
        busy s = true ->
        let s' := step (Request popen command op) s in
        s' = reject s
        /\ workers s' = workers s
        /\ current_worker s' = current_worker s
        /\ ui s' = ui s
        /\ idle s' = idle s
        /\ dialogs s'
           = (dialogs s
              ++ [Warn "Operation in Progress"
                    "Another operation is already running. Please wait."])%list)
  /\ (forall popen command op,
        busy s = false ->
        let s' := step (Request popen command op) s in
        busy s' = true
        /\ active s' = 1%nat
        /\ current_worker s' = Some (List.length (workers s))
        /\ workers s'
           = (workers s
              ++ [mkWorker command op (sudo_password s)
                    (run popen command op (sudo_password s)) true])%list
        /\ textbuf (ui s') = ""
        /\ dialogs s' = dialogs s)
  /\ (forall now, busy (step (Dispatch now) s) = busy s)
  /\ (forall i w, nth_error (workers s) i = Some w -> w_alive w = false ->
                  w_pending w = []).
Proof.
  intros R. pose proof (reachable_slot s R) as I.
  pose proof (active_le_one s I) as L.
  pose proof (busy_active s I) as BA.
  split; [exact L |]. split; [exact BA |].
  split; [| split; [| split]].
  - intros popen command op B. cbv zeta. simpl.
    unfold run_package_operation. rewrite B. repeat split.
  - intros popen command op B. cbv zeta. simpl.
    unfold run_package_operation. rewrite B.
    assert (A0 : active s = 0%nat).
    { destruct (active s) as [|[|k]] eqn:E; [reflexivity | | lia].
      rewrite (proj2 BA eq_refl) in B. discriminate. }
    split; [| split; [| repeat split]].
    + unfold busy. simpl. rewrite nth_error_app2 by lia.
      rewrite Nat.sub_diag. reflexivity.
    + unfold active in *. simpl. rewrite filter_alive_app, length_app, A0.
      reflexivity.
  - intros now. simpl. unfold busy.
    destruct (dispatch_workers now s) as [-> ->]. reflexivity.
  - exact (proj2 I).
Qed.

(** C3, as stated, fails on its last part.  In this schedule the main loop
    has run the done call of the first operation, nothing is left in the
    queue, and the worker thread has not ended yet: the next request is
    refused.  Once the thread has ended the same request is accepted. *)
Lemma done_fired_request_refused :
  let s := run_events done_before_exit init in
  let again := Request installs_vim ["pacman"; "-S"; "vim"; "--noconfirm"]
                 "install" in
  dialogs s = [Info "Success" "Install completed successfully!"]
  /\ existsb finished (dialogs s) = true
  /\ idle s = []
  /\ busy s = true
  /\ step again s = reject s
  /\ busy (step (WorkerExits 0) s) = false
  /\ current_worker (step again (step (WorkerExits 0) s)) = Some 1%nat.
Proof. vm_compute. repeat split. Qed.

Lemma single_worker_witness :
  let s := run_events done_before_exit init in
  (active s <= 1)%nat
  /\ workers (step (Request installs_vim ["pacman"; "-Syu"] "system update") s)
     = workers s.
Proof.
  cbv zeta.
  destruct (single_worker (run_events done_before_exit init))
    as (A & _ & B & _).
  - apply reachable_run_events. constructor.
  - split; [exact A |].
    assert (Hb : busy (run_events done_before_exit init) = true)
      by (vm_compute; reflexivity).
    destruct (B installs_vim ["pacman"; "-Syu"] "system update" Hb)
      as (_ & H & _).
    exact H.
Defined.

(** * Further properties *)

(** ** The command runner: order of the lines, status, arguments *)

Import Trace.

Lemma hints_app (a b : list call) :
  hints (a ++ b) = (hints a ++ hints b)%list.
Proof.
  induction a as [|c a IH]; simpl; [reflexivity |].
  destruct c; simpl; now rewrite IH.
Qed.

Lemma stream_hints (with_hint : bool) (reads : list string) :
  hints (stream with_hint reads)
  = if with_hint then lines_read reads else [].
Proof.
  unfold lines_read. induction reads as [|l reads IH]; simpl.
  - now destruct with_hint.
  - rewrite hints_app, IH. unfold nonempty.
    destruct (l =? ""), with_hint; reflexivity.
Qed.

(** X1.  The runner hands to the output callback the lines it read that
    are not empty, each with its trailing white space removed, in the order
    they were read, and to the hint callback the same lines as they were
    read.  When the process ran to its end the status is its exit code;
    when the process cannot be started or the loop fails, one line
    "ERROR: ..." comes last and the status is 1. *)
Theorem runner_lines_in_order (popen : list string -> child)
    (command : list string) (with_hint : bool) (password : option string) :
  let r := run_command_stream popen command with_hint password in
  match popen (popen_args command password) with
  | Spawned reads (Exited code) =>
      outputs (fst r) = map rstrip (lines_read reads)
      /\ hints (fst r) = (if with_hint then lines_read reads else [])
      /\ snd r = code
  | Spawned reads (Raised e) =>
      outputs (fst r)
      = (map rstrip (lines_read reads) ++ [("ERROR: " ++ e)%string])%list
      /\ hints (fst r) = (if with_hint then lines_read reads else [])
      /\ snd r = 1%Z
  | SpawnFailed e =>
      fst r = [OnOutput ("ERROR: " ++ e)] /\ snd r = 1%Z
  end.
Proof.
  cbv zeta. unfold run_command_stream.
  destruct (popen (popen_args command password)) as [e | reads [code | e]];
    simpl.
  - split; reflexivity.
  - now rewrite stream_outputs, stream_hints.
  - rewrite outputs_app, hints_app, stream_outputs, stream_hints. simpl.
    rewrite app_nil_r. auto.
Qed.

(** X2.  Without a password, with an empty password, or for a command that
    starts with sudo, the process is started on the command as given. *)
Theorem runner_unwrapped (command : list string) (password : option string) :
  password = None \/ password = Some ""
  \/ (exists rest, command = "sudo" :: rest) ->
  popen_args command password = command.
Proof.
  intros [-> | [-> | [rest ->]]]; try reflexivity.
  destruct password as [p|]; [| reflexivity].
  unfold popen_args. simpl. now rewrite andb_false_r.
Qed.

Lemma runner_unwrapped_witness :
  popen_args ["sudo"; "pacman"; "-Syu"] (Some "hunter2")
  = ["sudo"; "pacman"; "-Syu"].
Proof.
  apply runner_unwrapped. right. right. now exists ["pacman"; "-Syu"].
Defined.

Lemma join_cons (sep x : string) (y : string) (l : list string) :
  join sep (x :: y :: l) = x ++ sep ++ join sep (y :: l).
Proof. reflexivity. Qed.

Lemma join_space_merge (pre : list string) (a b : string)
    (rest : list string) :
  join " " (pre ++ (a ++ " " ++ b)%string :: rest)%list
  = join " " (pre ++ a :: b :: rest)%list.
Proof.
  induction pre as [|x pre IH].
  - cbn [app]. destruct rest as [|r rest].
    + reflexivity.
    + rewrite !join_cons. now rewrite !append_assoc.
  - destruct pre as [|y pre]; cbn [app] in *.
    + rewrite (join_cons " " x (a ++ " " ++ b)), (join_cons " " x a), IH.
      reflexivity.
    + rewrite (join_cons " " x y), (join_cons " " x y), IH. reflexivity.
Qed.

(** X3.  The script piped to sudo joins the arguments with single spaces
    and quotes nothing: an argument that contains a space gives the same
    script as the two arguments it is made of. *)
Theorem wrapped_script_merges_arguments (password : string)
    (pre : list string) (a b : string) (rest : list string) :
  sudo_script password (pre ++ (a ++ " " ++ b)%string :: rest)%list
  = sudo_script password (pre ++ a :: b :: rest)%list.
Proof. unfold sudo_script. now rewrite join_space_merge. Qed.

(** ** The operation worker: what it queues for the window *)

Lemma ui_outputs_app (a b : list ui_call) :
  ui_outputs (a ++ b) = (ui_outputs a ++ ui_outputs b)%list.
Proof.
  induction a as [|c a IH]; simpl; [reflexivity |].
  destruct c; simpl; now rewrite IH.
Qed.

Lemma ui_outputs_hint (line : string) : ui_outputs (_progress_hint line) = [].
Proof.
  destruct (progress_hint_cases line) as [-> | [v [_ ->]]]; reflexivity.
Qed.

Lemma ui_outputs_lines (ls : list string) :
  ui_outputs (flat_map (fun l => UiOutput (rstrip l) :: _progress_hint l) ls)
  = map rstrip ls.
Proof.
  induction ls as [|l ls IH]; [reflexivity |].
  simpl. now rewrite ui_outputs_app, ui_outputs_hint, IH.
Qed.

(** X4.  For a process that ran to its end, the worker queues the
    starting status and progress 10, then for each line read that is not
    empty the line without its trailing white space followed by the hint
    of the line as read, if it has one, then progress 100 and the done
    call.  So the window is given the lines in the order they were read,
    one output call for each. *)
Theorem worker_relays_lines (popen : list string -> child)
    (command : list string) (operation : string) (password : option string)
    (reads : list string) (code : Z) :
  popen (popen_args command password) = Spawned reads (Exited code) ->
  let t := run popen command operation password in
  t = ([UiStatus ("Starting " ++ operation ++ "..."); UiProgress 10]
       ++ flat_map (fun l => UiOutput (rstrip l) :: _progress_hint l)
            (lines_read reads)
       ++ [UiProgress 100;
           if (code =? 0)%Z
           then UiDone true
                  (capitalize operation ++ " completed successfully!")
           else UiDone false
                  (capitalize operation ++ " failed with code "
                   ++ str_of_Z code)])%list
  /\ ui_outputs t = map rstrip (lines_read reads).
Proof.
  intros Hp. cbv zeta.
  assert (E : run popen command operation password
              = ([UiStatus ("Starting " ++ operation ++ "...");
                  UiProgress 10]
                 ++ flat_map (fun l => UiOutput (rstrip l) :: _progress_hint l)
                      (lines_read reads)
                 ++ [UiProgress 100;
                     if (code =? 0)%Z
                     then UiDone true
                            (capitalize operation
                             ++ " completed successfully!")
                     else UiDone false
                            (capitalize operation ++ " failed with code "
                             ++ str_of_Z code)])%list).
  { unfold run, run_command_stream. rewrite Hp, relayed_stream.
    reflexivity. }
  split; [exact E |].
  rewrite E. cbn [app ui_outputs].
  rewrite ui_outputs_app, ui_outputs_lines.
  destruct (code =? 0)%Z; simpl; now rewrite app_nil_r.
Qed.

Lemma worker_relays_lines_witness :
  ui_outputs (run prints_package ["pacman"; "-S"; "vim"] "install" None)
  = ["resolving dependencies..."; "installing vim..."].
Proof.
  destruct (worker_relays_lines prints_package ["pacman"; "-S"; "vim"]
              "install" None
              ["resolving dependencies..."; "installing vim..."] 0%Z
              eq_refl) as [_ H].
  exact H.
Defined.

(** X5.  When the process cannot be started, the worker queues five
    calls: the starting status, progress 10, the error line, progress 100
    and a done call that reports failure with code 1. *)
Theorem worker_spawn_failure (popen : list string -> child)
    (command : list string) (operation : string) (password : option string)
    (e : string) :
  popen (popen_args command password) = SpawnFailed e ->
  run popen command operation password
  = [UiStatus ("Starting " ++ operation ++ "...");
     UiProgress 10;
     UiOutput ("ERROR: " ++ e);
     UiProgress 100;
     UiDone false (capitalize operation ++ " failed with code 1")].
Proof.
  intros Hp. unfold run, run_command_stream. rewrite Hp. reflexivity.
Qed.

Lemma worker_spawn_failure_witness :
  run (fun _ => SpawnFailed "[Errno 2] No such file or directory: 'yay'")
    ["yay"; "-S"; "paru"; "--noconfirm"] "install" None
  = [UiStatus "Starting install...";
     UiProgress 10;
     UiOutput "ERROR: [Errno 2] No such file or directory: 'yay'";
     UiProgress 100;
     UiDone false "Install failed with code 1"].
Proof.
  apply (worker_spawn_failure
           (fun _ => SpawnFailed "[Errno 2] No such file or directory: 'yay'")
           ["yay"; "-S"; "paru"; "--noconfirm"] "install" None
           "[Errno 2] No such file or directory: 'yay'").
  reflexivity.
Defined.

Lemma run_progress_range (popen : list string -> child)
    (command : list string) (operation : string) (password : option string) :
  Forall (fun v => (10 <= v <= 100)%Z)
    (progress_values (run popen command operation password)).
Proof.
  unfold run.
  destruct (run_command_stream popen command true password) as [calls ret].
  cbn [app progress_values]. constructor; [lia |].
  rewrite !progress_values_app. apply Forall_app. split.
  - eapply Forall_impl; [| apply relayed_progress]. simpl. intros v H. lia.
  - destruct (ret =? 0)%Z; simpl; repeat constructor; lia.
Qed.

(** X6.  Every progress value a worker queues shows the progress bar at
    exactly that many hundredths, with that number as its text: the clamp
    of [set_progress_value] never changes a value a worker sends, and the
    bar is never hidden by one. *)
Theorem worker_progress_shown (popen : list string -> child)
    (command : list string) (operation : string) (password : option string)
    (v : Z) (u : Window.widgets) :
  In v (progress_values (run popen command operation password)) ->
  let u' := Window.set_progress_value v u in
  Window.progress_visible u' = true
  /\ Window.progress_fraction u' = v
  /\ Window.progress_text u' = str_of_Z v ++ "%"
  /\ Window.textbuf u' = Window.textbuf u
  /\ Window.status u' = Window.status u.
Proof.
  intros Hin. cbv zeta.
  pose proof (run_progress_range popen command operation password) as R.
  rewrite Forall_forall in R. specialize (R v Hin).
  unfold Window.set_progress_value.
  destruct (Z.leb_spec v 0) as [L | L]; [lia |]. simpl.
  repeat split. lia.
Qed.

Lemma worker_progress_shown_witness :
  Window.progress_fraction
    (Window.set_progress_value 75 (Window.ui Window.init)) = 75%Z.
Proof.
  destruct (worker_progress_shown install_then_remove
              ["pacman"; "-Syu"; "--noconfirm"] "system update" None 75%Z
              (Window.ui Window.init)) as (_ & H & _).
  - simpl. auto.
  - exact H.
Defined.

(** ** The details resolver: parsing, queries and defaults *)

Lemma parse_line_keeps (line : string) (i : info) :
  Name (parse_line line i) = Name i
  /\ Installed (parse_line line i) = Installed i
  /\ RequiredBy (parse_line line i) = RequiredBy i.
Proof.
  unfold parse_line.
  repeat match goal with
         | |- context [if ?b then _ else _] => destruct b
         end; repeat split.
Qed.

Lemma parse_key_values_same (text : string) (i : info) :
  Name (_parse_key_values text i) = Name i
  /\ Installed (_parse_key_values text i) = Installed i
  /\ RequiredBy (_parse_key_values text i) = RequiredBy i.
Proof.
  unfold _parse_key_values. revert i.
  induction (split LF text) as [|l ls IH]; intros i; [repeat split |].
  simpl. destruct (IH (parse_line l i)) as (A & B & C).
  destruct (parse_line_keeps l i) as (A' & B' & C').
  repeat split; congruence.
Qed.

(** X7.  Parsing a key: value block never changes the name, the installed
    flag or the required-by list of the details, whatever the block
    says. *)
Theorem parse_key_values_keeps (text : string) (i : info) :
  Name (_parse_key_values text i) = Name i
  /\ Installed (_parse_key_values text i) = Installed i
  /\ RequiredBy (_parse_key_values text i) = RequiredBy i.
Proof. exact (parse_key_values_same text i). Qed.

Lemma split_app (sep : ascii) (a b : string) :
  split sep (a ++ String sep b) = (split sep a ++ split sep b)%list.
Proof.
  induction a as [|x a IH]; simpl.
  - now rewrite Ascii.eqb_refl.
  - rewrite IH. destruct (Ascii.eqb x sep); [reflexivity |].
    pose proof (split_length sep a) as L.
    destruct (split sep a) as [|h t]; [simpl in L; lia | reflexivity].
Qed.

Lemma parse_key_values_app (a b : string) (i : info) :
  _parse_key_values (a ++ String LF b) i
  = _parse_key_values b (_parse_key_values a i).
Proof.
  unfold _parse_key_values. now rewrite split_app, fold_left_app.
Qed.

Lemma parse_key_values_line (line : string) (i : info) :
  char_in LF line = false -> _parse_key_values line i = parse_line line i.
Proof.
  intros H. unfold _parse_key_values. now rewrite (split_whole LF line H).
Qed.

Lemma parse_line_key (k v : string) (i : info) :
  char_in ":" k = false ->
  parse_line (k ++ ":" ++ v) i
  = let val := strip v in
    let kl := lower (strip k) in
    if kl =? "version" then
      mkInfo (Name i) val (Repository i) (Installed i) (InstalledSize i)
             (License i) (URL i) (Description i) (Depends i) (RequiredBy i)
    else if (kl =? "repository") || (kl =? "repo") then
      mkInfo (Name i) (Version i) val (Installed i) (InstalledSize i)
             (License i) (URL i) (Description i) (Depends i) (RequiredBy i)
    else if kl =? "installed size" then
      mkInfo (Name i) (Version i) (Repository i) (Installed i) val
             (License i) (URL i) (Description i) (Depends i) (RequiredBy i)
    else if kl =? "license" then
      mkInfo (Name i) (Version i) (Repository i) (Installed i)
             (InstalledSize i) val (URL i) (Description i) (Depends i)
             (RequiredBy i)
    else if kl =? "url" then
      mkInfo (Name i) (Version i) (Repository i) (Installed i)
             (InstalledSize i) (License i) val (Description i) (Depends i)
             (RequiredBy i)
    else if kl =? "description" then
      mkInfo (Name i) (Version i) (Repository i) (Installed i)
             (InstalledSize i) (License i) (URL i) val (Depends i)
             (RequiredBy i)
    else if (kl =? "depends on") || (kl =? "depends") then
      mkInfo (Name i) (Version i) (Repository i) (Installed i)
             (InstalledSize i) (License i) (URL i) (Description i)
             (map strip
                (filter (fun p => nonempty (strip p))
                   (split_ws (remove_all "None" val))))
             (RequiredBy i)
    else i.
Proof.
  intros Hk. unfold parse_line.
  change (k ++ ":" ++ v) with (k ++ String ":" v).
  rewrite char_in_app. cbn [char_in]. rewrite Ascii.eqb_refl, orb_true_r.
  rewrite (splitn_cut ":" 0 k v Hk). reflexivity.
Qed.

(** X8.  Parsing two blocks joined by a line feed is parsing the first
    and then the second, and a key of the later block overrides the same
    key of the earlier one: when a line with the key "version" (or "url",
    or "description") comes after a block, the field is the stripped
    value of that line whatever the block before it says, and it stays so
    after any further block that leaves the field as it finds it. *)
Theorem parse_key_values_blocks (a b : string) (i : info) :
  _parse_key_values (a ++ String LF b) i
  = _parse_key_values b (_parse_key_values a i)
  /\ (forall k v,
        char_in LF k = false -> char_in LF v = false ->
        char_in ":" k = false ->
        let text := a ++ String LF (k ++ ":" ++ v) in
        (lower (strip k) = "version" ->
         Version (_parse_key_values text i) = strip v
         /\ ((forall j, Version (_parse_key_values b j) = Version j) ->
             Version (_parse_key_values (text ++ String LF b) i) = strip v))
        /\ (lower (strip k) = "url" ->
            URL (_parse_key_values text i) = strip v
            /\ ((forall j, URL (_parse_key_values b j) = URL j) ->
                URL (_parse_key_values (text ++ String LF b) i) = strip v))
        /\ (lower (strip k) = "description" ->
            Description (_parse_key_values text i) = strip v
            /\ ((forall j,
                    Description (_parse_key_values b j) = Description j) ->
                Description (_parse_key_values (text ++ String LF b) i)
                = strip v))).
Proof.
  split; [apply parse_key_values_app |].
  intros k v Hk Hv Hc. cbv zeta.
  assert (Hl : char_in LF (k ++ ":" ++ v) = false).
  { change (k ++ ":" ++ v) with (k ++ String ":" v).
    rewrite char_in_app. cbn [char_in]. rewrite Hk, Hv. reflexivity. }
  assert (E : forall j,
             _parse_key_values (a ++ String LF (k ++ ":" ++ v)) j
             = parse_line (k ++ ":" ++ v) (_parse_key_values a j)).
  { intros j. rewrite parse_key_values_app.
    now apply parse_key_values_line. }
  split; [| split]; intros K.
  - assert (V : Version (_parse_key_values
                           (a ++ String LF (k ++ ":" ++ v)) i) = strip v).
    { rewrite E, (parse_line_key k v _ Hc). cbv zeta. now rewrite K. }
    split; [exact V |]. intros Hb. now rewrite parse_key_values_app, Hb.
  - assert (V : URL (_parse_key_values
                       (a ++ String LF (k ++ ":" ++ v)) i) = strip v).
    { rewrite E, (parse_line_key k v _ Hc). cbv zeta. now rewrite K. }
    split; [exact V |]. intros Hb. now rewrite parse_key_values_app, Hb.
  - assert (V : Description (_parse_key_values
                               (a ++ String LF (k ++ ":" ++ v)) i)
                = strip v).
    { rewrite E, (parse_line_key k v _ Hc). cbv zeta. now rewrite K. }
    split; [exact V |]. intros Hb. now rewrite parse_key_values_app, Hb.
Qed.

Lemma parse_key_values_blocks_witness :
  Version
    (_parse_key_values
       (("Version : 9.0" ++ String LF "Version : 9.1")
        ++ String LF "URL : https://www.vim.org")
       (mkInfo "vim" "-" "extra" "No" "-" "-" "-" "-" [] []))
  = "9.1".
Proof.
  destruct (parse_key_values_blocks "Version : 9.0"
              "URL : https://www.vim.org"
              (mkInfo "vim" "-" "extra" "No" "-" "-" "-" "-" [] []))
    as [_ H].
  destruct (H "Version " " 9.1" eq_refl eq_refl eq_refl) as [V _].
  destruct (V eq_refl) as [_ W].
  apply W. intros j. reflexivity.
Defined.

(** X9.  A line is cut at its first colon only, and its key is compared
    without surrounding white space and without regard to case.  So a
    line whose key is "version" or "url" in this sense sets that field to
    the stripped text after the first colon, further colons included, and
    changes no other field; a line whose key is none of the nine known
    keys, and a line without a colon, change nothing. *)
Theorem parse_line_first_colon (k v : string) (i : info) :
  char_in ":" k = false ->
  (lower (strip k) = "version" ->
   parse_line (k ++ ":" ++ v) i
   = mkInfo (Name i) (strip v) (Repository i) (Installed i) (InstalledSize i)
       (License i) (URL i) (Description i) (Depends i) (RequiredBy i))
  /\ (lower (strip k) = "url" ->
      parse_line (k ++ ":" ++ v) i
      = mkInfo (Name i) (Version i) (Repository i) (Installed i)
          (InstalledSize i) (License i) (strip v) (Description i)
          (Depends i) (RequiredBy i))
  /\ (~ In (lower (strip k))
          ["version"; "repository"; "repo"; "installed size"; "license";
           "url"; "description"; "depends on"; "depends"] ->
      parse_line (k ++ ":" ++ v) i = i)
  /\ parse_line k i = i.
Proof.
  intros Hk. split; [| split; [| split]].
  - intros E. rewrite (parse_line_key k v i Hk). cbv zeta. now rewrite E.
  - intros E. rewrite (parse_line_key k v i Hk). cbv zeta. now rewrite E.
  - intros N. rewrite (parse_line_key k v i Hk). cbv zeta.
    repeat match goal with
           | |- context [?a =? ?b] =>
               destruct (String.eqb_spec a b) as [E | _];
               [exfalso; apply N; rewrite E; simpl; tauto |]
           end.
    reflexivity.
  - unfold parse_line. now rewrite Hk.
Qed.

Lemma parse_line_first_colon_witness :
  URL (parse_line "URL             : https://www.vim.org"
         (mkInfo "vim" "-" "extra" "No" "-" "-" "-" "-" [] []))
  = "https://www.vim.org"
  /\ parse_line "Packager        : Some One"
       (mkInfo "vim" "-" "extra" "No" "-" "-" "-" "-" [] [])
     = mkInfo "vim" "-" "extra" "No" "-" "-" "-" "-" [] [].
Proof.
  split.
  - destruct (parse_line_first_colon "URL             " " https://www.vim.org"
                (mkInfo "vim" "-" "extra" "No" "-" "-" "-" "-" [] [])
                eq_refl) as (_ & H & _).
    change ("URL             " ++ ":" ++ " https://www.vim.org")
      with "URL             : https://www.vim.org" in H.
    now rewrite (H eq_refl).
  - destruct (parse_line_first_colon "Packager        " " Some One"
                (mkInfo "vim" "-" "extra" "No" "-" "-" "-" "-" [] [])
                eq_refl) as (_ & _ & H & _).
    apply H. simpl. intros K.
    repeat (destruct K as [K | K]; [discriminate |]). exact K.
Defined.

Local Open Scope list_scope.

Lemma primary_keeps_name (sys : system) (n repo : string) (i : info) :
  Name (fst (primary sys n repo i)) = Name i
  /\ RequiredBy (fst (primary sys n repo i)) = RequiredBy i.
Proof.
  unfold primary.
  destruct (sys ["pacman"; "-Qi"; n]) as [|r out]; [now split |].
  destruct (r =? 0)%Z.
  - simpl. destruct (parse_key_values_same out (set_installed i))
      as (A & _ & C). now split.
  - destruct (sys _) as [|r' out']; [now split |].
    destruct (r' =? 0)%Z; [| now split].
    simpl. destruct (parse_key_values_same out' i) as (A & _ & C).
    now split.
Qed.

Lemma tree_lines_length (out : string) : (List.length (tree_lines out) <= 50)%nat.
Proof. unfold tree_lines. apply firstn_le_length. Qed.

Lemma resolve_name (sys : system) (n repo : string) (with_deps : bool) :
  Name (fst (resolve sys n repo with_deps)) = n
  /\ (List.length (RequiredBy (fst (resolve sys n repo with_deps))) <= 50)%nat.
Proof.
  unfold resolve.
  pose proof (primary_keeps_name sys n repo
                (mkInfo n "-" repo "No" "-" "-" "-" "-" [] [])) as [A C].
  destruct (primary sys n repo _) as [i1 ran1]. simpl in A, C.
  destruct with_deps; simpl.
  - unfold tree.
    destruct (sys ["pactree"; n]) as [|r out];
      destruct (sys ["pactree"; "-r"; n]) as [|r' out'];
      try destruct (r =? 0)%Z; try destruct (r' =? 0)%Z; simpl;
      rewrite ?C; simpl; split; try exact A; try lia;
      apply tree_lines_length.
  - rewrite C. simpl. split; [exact A | lia].
Qed.

(** X10.  On a cache miss, the details say "Yes" for installed exactly
    when [pacman -Qi] ran and returned 0, and then no [-Si] query is made;
    in every other case they say "No", also when the remote query finds
    the package. *)
Theorem installed_flag (sys : system) (n repo : string) (with_deps : bool) :
  let i := fst (resolve sys n repo with_deps) in
  let ran := snd (resolve sys n repo with_deps) in
  ((exists out, sys ["pacman"; "-Qi"; n] = Completed 0 out) ->
   Installed i = "Yes"
   /\ ~ In ["pacman"; "-Si"; n] ran /\ ~ In ["yay"; "-Si"; n] ran)
  /\ ((forall out, sys ["pacman"; "-Qi"; n] <> Completed 0 out) ->
      Installed i = "No").
Proof.
  cbv zeta. unfold resolve, primary.
  destruct (sys ["pacman"; "-Qi"; n]) as [|r out] eqn:Q.
  - split; [intros [o H]; discriminate | intros _].
    destruct with_deps; simpl; unfold tree;
      repeat match goal with
             | |- context [match sys ?a with _ => _ end] => destruct (sys a)
             | |- context [if ?b then _ else _] => destruct b
             end; reflexivity.
  - destruct (Z.eqb_spec r 0) as [-> | Hr].
    + split; [intros _ | intros H; now contradiction (H out)].
      destruct (parse_key_values_same out
                  (set_installed
                     (mkInfo n "-" repo "No" "-" "-" "-" "-" [] [])))
        as (_ & B & _).
      destruct with_deps; simpl; unfold tree;
        repeat match goal with
               | |- context [match sys ?a with _ => _ end] => destruct (sys a)
               | |- context [if ?b then _ else _] => destruct b
               end; simpl; rewrite ?B; simpl;
        (split; [reflexivity |]); split; intros K;
        repeat (destruct K as [K | K]; [discriminate |]); exact K.
    + split; [intros [o H]; injection H as H _; contradiction | intros _].
      destruct (sys (if repo =? "aur" then ["yay"; "-Si"; n]
                     else ["pacman"; "-Si"; n])) as [|r' out'] eqn:S.
      * destruct with_deps; simpl; unfold tree;
          repeat match goal with
                 | |- context [match sys ?a with _ => _ end] =>
                     destruct (sys a)
                 | |- context [if ?b then _ else _] => destruct b
                 end; reflexivity.
      * destruct (parse_key_values_same out'
                    (mkInfo n "-" repo "No" "-" "-" "-" "-" [] []))
          as (_ & B & _).
        destruct (r' =? 0)%Z; destruct with_deps; simpl; unfold tree;
          repeat match goal with
                 | |- context [match sys ?a with _ => _ end] =>
                     destruct (sys a)
                 | |- context [if ?b then _ else _] => destruct b
                 end; simpl; rewrite ?B; reflexivity.
Qed.

Import DetailSamples.

Lemma installed_flag_witness :
  Installed (fst (resolve vim_installed "vim" "extra" false)) = "Yes"
  /\ snd (resolve vim_installed "vim" "extra" false)
     = [["pacman"; "-Qi"; "vim"]]
  /\ Installed (fst (resolve vim_installed "gvim" "extra" false)) = "No".
Proof.
  destruct (installed_flag vim_installed "vim" "extra" false) as [A _].
  destruct (installed_flag vim_installed "gvim" "extra" false) as [_ B].
  split; [| split].
  - apply A. eexists. reflexivity.
  - reflexivity.
  - apply B. intros out H. discriminate.
Defined.

(** The processes a miss runs, in order. *)
Lemma resolve_spawned (sys : system) (n repo : string) (with_deps : bool) :
  snd (resolve sys n repo with_deps)
  = (["pacman"; "-Qi"; n]
     :: match sys ["pacman"; "-Qi"; n] with
        | Failed => []
        | Completed r _ =>
            if (r =? 0)%Z then []
            else [if repo =? "aur" then ["yay"; "-Si"; n]
                  else ["pacman"; "-Si"; n]]
        end
     ++ (if with_deps then [["pactree"; n]; ["pactree"; "-r"; n]]
         else []))%list.
Proof.
  unfold resolve, primary.
  destruct (sys ["pacman"; "-Qi"; n]) as [|r out];
    try destruct (r =? 0)%Z;
    repeat match goal with
           | |- context [match sys ?a with _ => _ end] => destruct (sys a)
           | |- context [if (?x =? 0)%Z then _ else _] =>
               destruct (x =? 0)%Z
           end;
    destruct with_deps; reflexivity.
Qed.

(** X11.  A call runs no process on a cache hit and at most four on a
    miss, which are exactly: the installed query first; then one remote
    query when the installed query ran and returned a status other than
    0, to yay when the repository is "aur" and to pacman otherwise; then
    the two [pactree] runs when dependencies are asked for, and no
    [pactree] run when they are not. *)
Theorem details_processes (sys : system) (d : cache) (n repo : string)
    (with_deps : bool) :
  let o := _get_package_details sys d n repo with_deps in
  (List.length (spawned o) <= 4)%nat
  /\ (lookup (cache_key n repo with_deps) d <> None -> spawned o = [])
  /\ (lookup (cache_key n repo with_deps) d = None ->
      hd [] (spawned o) = ["pacman"; "-Qi"; n]
      /\ (if with_deps
          then (3 <= List.length (spawned o))%nat
               /\ In ["pactree"; n] (spawned o)
               /\ In ["pactree"; "-r"; n] (spawned o)
          else (List.length (spawned o) <= 2)%nat))
  /\ (In ["yay"; "-Si"; n] (spawned o) -> repo = "aur")
  /\ (In ["pacman"; "-Si"; n] (spawned o) -> repo <> "aur")
  /\ (lookup (cache_key n repo with_deps) d = None ->
      spawned o
      = (["pacman"; "-Qi"; n]
         :: match sys ["pacman"; "-Qi"; n] with
            | Failed => []
            | Completed r _ =>
                if (r =? 0)%Z then []
                else [if repo =? "aur" then ["yay"; "-Si"; n]
                      else ["pacman"; "-Si"; n]]
            end
         ++ (if with_deps then [["pactree"; n]; ["pactree"; "-r"; n]]
             else []))%list)
  /\ (with_deps = false ->
      ~ In ["pactree"; n] (spawned o)
      /\ ~ In ["pactree"; "-r"; n] (spawned o)).
Proof.
  cbv zeta.
  assert (T : with_deps = false ->
              ~ In ["pactree"; n]
                  (spawned (_get_package_details sys d n repo with_deps))
              /\ ~ In ["pactree"; "-r"; n]
                     (spawned (_get_package_details sys d n repo with_deps))).
  { intros ->.
    destruct (details_cases sys d n repo false)
      as [(v & _ & _ & _ & ->) | (_ & _ & -> & _)]; [simpl; tauto |].
    rewrite resolve_spawned.
    destruct (sys ["pacman"; "-Qi"; n]) as [|r out];
      try destruct (r =? 0)%Z; try destruct (repo =? "aur");
      split; intros K; simpl in K;
      repeat (destruct K as [K | K]; [discriminate |]); exact K. }
  assert (X : lookup (cache_key n repo with_deps) d = None ->
              spawned (_get_package_details sys d n repo with_deps)
              = (["pacman"; "-Qi"; n]
                 :: match sys ["pacman"; "-Qi"; n] with
                    | Failed => []
                    | Completed r _ =>
                        if (r =? 0)%Z then []
                        else [if repo =? "aur" then ["yay"; "-Si"; n]
                              else ["pacman"; "-Si"; n]]
                    end
                 ++ (if with_deps
                     then [["pactree"; n]; ["pactree"; "-r"; n]]
                     else []))%list).
  { intros Hk.
    destruct (details_cases sys d n repo with_deps)
      as [(v & Hv & _) | (_ & _ & -> & _)]; [congruence |].
    apply resolve_spawned. }
  cut ((List.length
          (spawned (_get_package_details sys d n repo with_deps)) <= 4)%nat
       /\ (lookup (cache_key n repo with_deps) d <> None ->
           spawned (_get_package_details sys d n repo with_deps) = [])
       /\ (lookup (cache_key n repo with_deps) d = None ->
           hd [] (spawned (_get_package_details sys d n repo with_deps))
           = ["pacman"; "-Qi"; n]
           /\ (if with_deps
               then (3 <= List.length
                            (spawned (_get_package_details sys d n repo
                                        with_deps)))%nat
                    /\ In ["pactree"; n]
                         (spawned (_get_package_details sys d n repo
                                     with_deps))
                    /\ In ["pactree"; "-r"; n]
                         (spawned (_get_package_details sys d n repo
                                     with_deps))
               else (List.length
                       (spawned (_get_package_details sys d n repo
                                   with_deps)) <= 2)%nat))
       /\ (In ["yay"; "-Si"; n]
             (spawned (_get_package_details sys d n repo with_deps)) ->
           repo = "aur")
       /\ (In ["pacman"; "-Si"; n]
             (spawned (_get_package_details sys d n repo with_deps)) ->
           repo <> "aur")).
  { intros (A & B & C & D & E).
    exact (conj A (conj B (conj C (conj D (conj E (conj X T)))))). }
  clear T X.
  destruct (details_cases sys d n repo with_deps)
    as [(v & Hv & _ & _ & ->) | (Hk & _ & -> & _)].
  - simpl. repeat split; try lia; try contradiction; congruence.
  - rewrite Hk. unfold resolve, primary.
    destruct (String.eqb_spec repo "aur") as [E | E];
      destruct (sys ["pacman"; "-Qi"; n]) as [|r out];
      try destruct (r =? 0)%Z;
      repeat match goal with
             | |- context [match sys ?a with _ => _ end] => destruct (sys a)
             | |- context [if (?x =? 0)%Z then _ else _] =>
                 destruct (x =? 0)%Z
             end;
      destruct with_deps; simpl;
      repeat split; try lia; try congruence; try tauto;
      try (intros K; repeat (destruct K as [K | K]; [discriminate |]);
           contradiction);
      try (intros K; repeat (destruct K as [K | K];
                             [try discriminate; try assumption |]);
           try contradiction; try assumption).
Qed.

Lemma details_processes_witness :
  spawned (_get_package_details vim_installed [] "gvim" "extra" true)
  = [["pacman"; "-Qi"; "gvim"]; ["pacman"; "-Si"; "gvim"];
     ["pactree"; "gvim"]; ["pactree"; "-r"; "gvim"]]
  /\ "extra" <> "aur"
  /\ ~ In ["pactree"; "gvim"]
         (spawned (_get_package_details vim_installed [] "gvim" "extra"
                     false)).
Proof.
  destruct (details_processes vim_installed [] "gvim" "extra" true)
    as (_ & _ & _ & _ & H & X & _).
  destruct (details_processes vim_installed [] "gvim" "extra" false)
    as (_ & _ & _ & _ & _ & _ & T).
  split; [exact (X eq_refl) |]. split; [apply H; simpl; auto |].
  exact (proj1 (T eq_refl)).
Defined.

(** X12.  When every query fails to run or returns a status other than 0,
    the resolver still returns details: the name and repository it was
    asked for and the placeholder of every other field. *)
Theorem details_defaults (sys : system) (n repo : string) (with_deps : bool) :
  (forall argv out, sys argv <> Completed 0 out) ->
  fst (resolve sys n repo with_deps)
  = mkInfo n "-" repo "No" "-" "-" "-" "-" [] [].
Proof.
  intros F.
  assert (G : forall argv (A : Type) (x y : string -> A) (z : A),
             match sys argv with
             | Failed => z
             | Completed r out => if (r =? 0)%Z then x out else z
             end = z).
  { intros argv A x y z. destruct (sys argv) as [|r out] eqn:E;
      [reflexivity |].
    destruct (Z.eqb_spec r 0) as [-> | _]; [| reflexivity].
    now contradiction (F argv out). }
  unfold resolve, primary, tree.
  destruct (sys ["pacman"; "-Qi"; n]) as [|r out] eqn:Q.
  - destruct with_deps; [| reflexivity].
    destruct (sys ["pactree"; n]) as [|r1 o1] eqn:T1;
      destruct (sys ["pactree"; "-r"; n]) as [|r2 o2] eqn:T2;
      try (destruct (Z.eqb_spec r1 0) as [-> | _];
           [now contradiction (F _ _ T1) |]);
      try (destruct (Z.eqb_spec r2 0) as [-> | _];
           [now contradiction (F _ _ T2) |]);
      reflexivity.
  - destruct (Z.eqb_spec r 0) as [-> | _]; [now contradiction (F _ _ Q) |].
    destruct (sys (if repo =? "aur" then ["yay"; "-Si"; n]
                   else ["pacman"; "-Si"; n])) as [|r' out'] eqn:S.
    + destruct with_deps; [| reflexivity].
      destruct (sys ["pactree"; n]) as [|r1 o1] eqn:T1;
        destruct (sys ["pactree"; "-r"; n]) as [|r2 o2] eqn:T2;
        try (destruct (Z.eqb_spec r1 0) as [-> | _];
             [now contradiction (F _ _ T1) |]);
        try (destruct (Z.eqb_spec r2 0) as [-> | _];
             [now contradiction (F _ _ T2) |]);
        reflexivity.
    + destruct (Z.eqb_spec r' 0) as [-> | _];
        [now contradiction (F _ _ S) |].
      destruct with_deps; [| reflexivity].
      destruct (sys ["pactree"; n]) as [|r1 o1] eqn:T1;
        destruct (sys ["pactree"; "-r"; n]) as [|r2 o2] eqn:T2;
        try (destruct (Z.eqb_spec r1 0) as [-> | _];
             [now contradiction (F _ _ T1) |]);
        try (destruct (Z.eqb_spec r2 0) as [-> | _];
             [now contradiction (F _ _ T2) |]);
        reflexivity.
Qed.

Lemma details_defaults_witness :
  fst (resolve nothing_installed "paru" "aur" true)
  = mkInfo "paru" "-" "aur" "No" "-" "-" "-" "-" [] [].
Proof.
  apply details_defaults. intros argv out H. discriminate.
Defined.

Lemma in_skipn (A : Type) (n : nat) (l : list A) (x : A) :
  In x (skipn n l) -> In x l.
Proof.
  intros H. rewrite <- (firstn_skipn n l). apply in_or_app. now right.
Qed.

(** The entries of a cache: the key is made of the name in the details,
    and the required-by list has at most 50 lines. *)
Lemma serve_entries (P : string * info -> Prop) (d : cache) (q : request) :
  (forall n repo with_deps,
      P (cache_key n repo with_deps,
         fst (resolve (req_sys q) n repo with_deps))) ->
  NoDup (keys d) -> Forall P d -> Forall P (serve d q).
Proof.
  intros Hnew Hn Hd. unfold serve.
  destruct (details_cases (req_sys q) d (req_name q) (req_repo q)
              (req_deps q))
    as [(v & _ & _ & -> & _) | (Hk & Hr & _ & ->)]; [exact Hd |].
  assert (H1 : Forall P
                 (d ++ [(cache_key (req_name q) (req_repo q) (req_deps q),
                         result (_get_package_details (req_sys q) d
                                   (req_name q) (req_repo q) (req_deps q)))])).
  { apply Forall_app. split; [exact Hd |]. constructor; [| constructor].
    rewrite Hr. apply Hnew. }
  destruct (200 <? _)%nat; [| exact H1].
  rewrite cull_skipn.
  - rewrite Forall_forall in *. intros x Hx. apply H1.
    eapply in_skipn. exact Hx.
  - rewrite keys_app. apply NoDup_snoc; [exact Hn |]. now apply lookup_none.
Qed.

(** X13.  In every cache the window can hold, each entry is stored under
    a key made of the name its details carry, and its required-by list has
    at most 50 lines. *)
Theorem cache_entries_named (d : cache) :
  Details.reachable d ->
  Forall (fun kv =>
            (exists repo with_deps,
                fst kv = cache_key (Name (snd kv)) repo with_deps)
            /\ (List.length (RequiredBy (snd kv)) <= 50)%nat) d.
Proof.
  induction 1 as [|d q R IH]; [constructor |].
  apply serve_entries; [| now apply reachable_invariant | exact IH].
  intros n repo with_deps. simpl.
  destruct (resolve_name (req_sys q) n repo with_deps) as [A B].
  split; [| exact B]. exists repo, with_deps. now rewrite A.
Qed.

Lemma cache_entries_named_witness :
  Forall (fun kv => (List.length (RequiredBy (snd kv)) <= 50)%nat)
    (serve [] (mkRequest vim_installed "vim" "extra" true)).
Proof.
  eapply Forall_impl;
    [| apply (cache_entries_named
                (serve [] (mkRequest vim_installed "vim" "extra" true)));
       repeat constructor].
  intros kv [_ H]. exact H.
Defined.

(** X14.  With dependencies asked for, a [pactree] run that succeeds
    replaces the dependency list by its first 50 lines that are not blank,
    each stripped; the same holds for the required-by list and
    [pactree -r]. *)
Theorem tree_lists_capped (sys : system) (n repo : string) (out rout : string) :
  sys ["pactree"; n] = Completed 0 out ->
  sys ["pactree"; "-r"; n] = Completed 0 rout ->
  let i := fst (resolve sys n repo true) in
  Depends i = tree_lines out
  /\ RequiredBy i = tree_lines rout
  /\ (List.length (Depends i) <= 50)%nat
  /\ (List.length (RequiredBy i) <= 50)%nat
  /\ Forall (fun l => l <> "" /\ exists raw, In raw (split LF out)
                                             /\ l = strip raw) (Depends i).
Proof.
  intros H1 H2. cbv zeta.
  assert (E : Depends (fst (resolve sys n repo true)) = tree_lines out
              /\ RequiredBy (fst (resolve sys n repo true))
                 = tree_lines rout).
  { unfold resolve. destruct (primary sys n repo _) as [i1 ran1].
    unfold tree. rewrite H1, H2. simpl. auto. }
  destruct E as [-> ->].
  repeat split; try apply tree_lines_length.
  unfold tree_lines. rewrite Forall_forall. intros l Hl.
  assert (Hin : In l (map strip (filter (fun l => nonempty (strip l))
                                   (split LF out)))).
  { rewrite <- (firstn_skipn 50 (map strip _)). apply in_or_app. now left. }
  apply in_map_iff in Hin. destruct Hin as (raw & <- & Hraw).
  apply filter_In in Hraw. destruct Hraw as [Hraw Hne].
  split; [now apply nonempty_true | now exists raw].
Qed.

Lemma tree_lists_capped_witness :
  Depends (fst (resolve with_trees "vim" "extra" true)) = ["vim"; "glibc"]
  /\ RequiredBy (fst (resolve with_trees "vim" "extra" true)) = ["vim"].
Proof.
  destruct (tree_lists_capped with_trees "vim" "extra"
              ("vim" ++ String LF ("  glibc " ++ String LF (String LF "")))%string
              ("vim" ++ String LF "")%string eq_refl eq_refl)
    as (A & B & _).
  split; [exact A | exact B].
Defined.

Local Open Scope string_scope.

(** ** The search parsers on any output *)

Lemma splitn_cases (sep : ascii) (m : nat) (s : string) :
  (char_in sep s = false /\ splitn sep (S m) s = [s])
  \/ (exists a b, s = a ++ String sep b /\ char_in sep a = false
                  /\ splitn sep (S m) s = a :: splitn sep m b).
Proof.
  induction s as [|x s IH].
  - left. split; reflexivity.
  - rewrite splitn_cons. simpl char_in.
    destruct (Ascii.eqb x sep) eqn:E.
    + right. exists "", s. apply Ascii.eqb_eq in E. subst x.
      repeat split.
    + destruct IH as [[H1 H2] | (a & b & H1 & H2 & H3)].
      * left. rewrite H1, H2. split; reflexivity.
      * right. exists (String x a), b. rewrite H3, H1. simpl.
        rewrite E, H2. repeat split.
Qed.

Lemma split_fields (sep : ascii) (s : string) :
  Forall (fun f => char_in sep f = false) (split sep s).
Proof.
  induction s as [|x s IH]; simpl.
  - repeat constructor.
  - destruct (Ascii.eqb x sep) eqn:E.
    + constructor; [reflexivity | exact IH].
    + destruct (split sep s) as [|h t].
      * repeat constructor. simpl. now rewrite E.
      * inversion IH; subst. constructor; [| assumption].
        simpl. now rewrite E.
Qed.

Lemma last_field_in (l : list string) : l <> [] -> In (last_field l) l.
Proof.
  unfold last_field. induction l as [|x l IH]; [congruence |]. intros _.
  destruct l as [|y l]; [now left |].
  right. apply IH. discriminate.
Qed.

Lemma last_field_no_sep (sep : ascii) (s : string) :
  char_in sep (last_field (split sep s)) = false.
Proof.
  pose proof (split_fields sep s) as F. rewrite Forall_forall in F.
  apply F. apply last_field_in. pose proof (split_length sep s) as L.
  destruct (split sep s); [simpl in L; lia | discriminate].
Qed.

Import RecordFacts.

Lemma pacman_record_ok (sys : system) (line d : string) :
  line <> "" -> startswith " " line = false ->
  (2 <= List.length (splitn " " 1 line))%nat ->
  official_record_ok sys (pacman_record sys (splitn " " 1 line) d).
Proof.
  intros Hne Hs Hl.
  destruct (splitn_cases " " 0 line) as [[_ E] | (a & b & -> & Ha & E)];
    rewrite E in *; [simpl in Hl; lia |].
  unfold official_record_ok, pacman_record. cbn [nth Search.name pkg
    repository installed List.length].
  assert (Hane : a <> "").
  { intros ->. simpl in Hs. discriminate. }
  repeat split; try assumption.
  - apply last_field_no_sep.
  - destruct (char_in "/" a) eqn:S; [| reflexivity].
    unfold first_field. pose proof (split_fields "/" a) as F.
    destruct (split "/" a) as [|h t]; [reflexivity |]. now inversion F.
Qed.

Lemma pacman_lines_facts (sys : system) (n : nat) :
  forall lines, (List.length lines <= n)%nat ->
  Forall (official_record_ok sys) (pacman_lines sys lines)
  /\ (List.length (pacman_lines sys lines) <= List.length lines)%nat.
Proof.
  induction n as [|n IH]; intros lines Hl.
  - destruct lines; [split; [constructor | simpl; lia] | simpl in Hl; lia].
  - destruct lines as [|l rest]; [split; [constructor | simpl; lia] |].
    simpl in Hl. cbn [pacman_lines]. cbv zeta.
    destruct (IH rest ltac:(lia)) as [F1 L1].
    destruct (nonempty (strip l) && negb (startswith " " (strip l))) eqn:C;
      [| split; [exact F1 | simpl; lia]].
    apply andb_true_iff in C. destruct C as [C1 C2].
    apply nonempty_true in C1. apply negb_true_iff in C2.
    destruct (2 <=? List.length (splitn " " 1 (strip l)))%nat eqn:C3;
      [| split; [exact F1 | simpl; lia]].
    apply Nat.leb_le in C3.
    destruct rest as [|d rest'].
    + split; [| simpl; lia].
      constructor; [now apply pacman_record_ok | constructor].
    + destruct (startswith "    " d).
      * destruct (IH rest' ltac:(simpl in Hl; lia)) as [F2 L2].
        split; [| simpl in *; lia].
        constructor; [now apply pacman_record_ok | exact F2].
      * split; [| simpl in *; lia].
        constructor; [now apply pacman_record_ok | exact F1].
Qed.

(** X15.  Whatever the text [pacman -Ss] prints, every record of the
    official parser has a name that is not empty and has no space in it, a
    package name and a repository without "/", and the installed flag of
    its package name; and there are at most as many records as lines. *)
Theorem official_parser_any_output (sys : system) (output : string) :
  Forall (official_record_ok sys) (_parse_pacman_search sys output)
  /\ (List.length (_parse_pacman_search sys output)
      <= List.length (split LF output))%nat.
Proof.
  unfold _parse_pacman_search.
  apply (pacman_lines_facts sys (List.length (split LF output))). lia.
Qed.

Lemma aur_line_facts (sys : system) (line : string) :
  Forall (aur_record_ok sys) (aur_line sys line)
  /\ (List.length (aur_line sys line) <= 1)%nat.
Proof.
  unfold aur_line.
  destruct (nonempty (strip line) && negb (startswith " " line));
    [| split; [constructor | simpl; lia]].
  destruct (splitn_cases " " 1 line) as [[_ E] | (a & b & -> & Ha & E)];
    rewrite E; [split; [constructor | simpl; lia] |].
  destruct (splitn_cases " " 0 b) as [[Hb E'] | (c & e & -> & Hc & E')];
    rewrite E'; simpl; (split; [| lia]); constructor; try constructor;
    unfold aur_record_ok; simpl; destruct (a =? "aur/"); auto.
Qed.

Lemma aur_lines_facts (sys : system) (ls : list string) :
  Forall (aur_record_ok sys) (flat_map (aur_line sys) ls)
  /\ (List.length (flat_map (aur_line sys) ls) <= List.length ls)%nat.
Proof.
  induction ls as [|l ls [F L]]; [split; [constructor | simpl; lia] |].
  destruct (aur_line_facts sys l) as [F1 L1]. simpl. split.
  - apply Forall_app. now split.
  - rewrite length_app. lia.
Qed.

(** X16.  Whatever the text [yay -Ss] prints, every record of the AUR
    parser has a name with no space in it, which is also its package name,
    a version that is empty or equal to the name, and the repository
    "aur"; and there are at most as many records as lines. *)
Theorem aur_parser_any_output (sys : system) (output : string) :
  Forall (aur_record_ok sys) (_parse_aur_search sys output)
  /\ (List.length (_parse_aur_search sys output)
      <= List.length (split LF output))%nat.
Proof. unfold _parse_aur_search. apply aur_lines_facts. Qed.

(** ** The update scanner on any output *)

Lemma word_cons (c : ascii) (w : string) :
  isspace c = false -> solid w = true -> word (String c w).
Proof.
  intros Hc Hw. split; [discriminate |]. simpl. now rewrite Hc, Hw.
Qed.

Lemma split_ws_words (s : string) : Forall word (split_ws s).
Proof.
  induction s as [|c r IH]; [constructor |].
  cbn [split_ws]. destruct (isspace c) eqn:Hc; [exact IH |].
  destruct r as [|c' r'].
  - constructor; [now apply word_cons | constructor].
  - destruct (isspace c') eqn:Hc'.
    + constructor; [now apply word_cons | exact IH].
    + destruct (split_ws (String c' r')) as [|h t].
      * constructor; [now apply word_cons | constructor].
      * inversion IH as [|? ? [_ Hh] Ht]; subst.
        constructor; [now apply word_cons | exact Ht].
Qed.

Lemma nth_word (l : list string) (i : nat) :
  Forall word l -> (i < List.length l)%nat -> word (nth i l "").
Proof.
  intros F L. rewrite Forall_forall in F. apply F. now apply nth_In.
Qed.

Lemma update_line_facts (line : string) :
  Forall (fun it => word (Updates.name it) /\ word (from it) /\ word (to it))
    (update_line line)
  /\ (List.length (update_line line) <= 1)%nat.
Proof.
  rewrite update_line_fields. cbv zeta.
  destruct (4 <=? List.length (split_ws line))%nat eqn:L;
    [| split; [constructor | simpl; lia]].
  apply Nat.leb_le in L.
  destruct (nth 2 (split_ws line) "" =? "->");
    [| split; [constructor | simpl; lia]].
  pose proof (split_ws_words line) as W.
  split; [| simpl; lia].
  constructor; [| constructor]. simpl.
  repeat split; apply nth_word; try assumption; lia.
Qed.

(** X17.  Whatever [pacman -Qu] prints and whatever its exit status, the
    name, the old version and the new version of every item of the scan
    are fields of a line: not empty and without white space; and there are
    at most as many items as lines. *)
Theorem update_items_any_output (r : run_result) :
  Forall (fun it => word (Updates.name it) /\ word (from it) /\ word (to it))
    (load_updates_data r)
  /\ (forall code out,
         r = Completed code out ->
         (List.length (load_updates_data r)
          <= List.length (split LF (strip out)))%nat).
Proof.
  destruct r as [|code out].
  - split; [constructor | intros c o H; discriminate].
  - assert (H : forall ls,
               Forall (fun it => word (Updates.name it) /\ word (from it)
                                 /\ word (to it))
                 (flat_map update_line ls)
               /\ (List.length (flat_map update_line ls)
                   <= List.length ls)%nat).
    { induction ls as [|l ls [F L]]; [split; [constructor | simpl; lia] |].
      destruct (update_line_facts l) as [F1 L1]. simpl. split.
      - apply Forall_app. now split.
      - rewrite length_app. lia. }
    split; [apply H |].
    intros c o E. injection E as _ <-. apply H.
Qed.

Lemma update_items_any_output_witness :
  (List.length (load_updates_data
                  (Completed 1 "linux 6.6.1-1 -> 6.6.2-1")) <= 1)%nat.
Proof.
  destruct (update_items_any_output
              (Completed 1 "linux 6.6.1-1 -> 6.6.2-1")) as [_ H].
  apply (H 1%Z "linux 6.6.1-1 -> 6.6.2-1" eq_refl).
Defined.

(** ** The search worker *)

Import SearchRun.

Lemma rstrip_no_trailing (s a : string) (c : ascii) :
  rstrip s = a ++ String c "" -> isspace c = false.
Proof.
  revert a. induction s as [|x s IH]; intros a H.
  - destruct a; discriminate.
  - simpl in H. destruct (rstrip s) as [|y r] eqn:E.
    + destruct (isspace x) eqn:X; [destruct a; discriminate |].
      destruct a as [|z a]; simpl in H.
      * now injection H as <-.
      * injection H as _ H. destruct a; discriminate.
    + destruct a as [|z a]; simpl in H; [discriminate |].
      injection H as _ H. now apply (IH a).
Qed.

Lemma strip_field_nonempty (l a b : string) :
  strip l = a ++ String " " b -> b <> "".
Proof.
  intros H ->. unfold strip in H. apply rstrip_no_trailing in H.
  rewrite isspace_space in H. discriminate.
Qed.

(** What holds of every record of the installed search. *)
Lemma installed_record_ok (sys : system) (l d : string) :
  (2 <= List.length (splitn " " 1 (strip l)))%nat ->
  let r := installed_record sys (splitn " " 1 (strip l)) d in
  repository r = "installed" /\ installed r = true
  /\ pkg r = Search.name r /\ Search.name r <> "".
Proof.
  intros L. cbv zeta.
  destruct (splitn_cases " " 0 (strip l)) as [[_ E] | (a & b & S & _ & E)];
    rewrite E in *; [simpl in L; lia |].
  unfold installed_record. simpl. repeat split.
  now apply (strip_field_nonempty l a b).
Qed.

Lemma installed_lines_facts (sys : system) (n : nat) :
  forall lines, (List.length lines <= n)%nat ->
  Forall (fun r => repository r = "installed" /\ installed r = true
                   /\ pkg r = Search.name r /\ Search.name r <> "")
    (installed_lines sys lines).
Proof.
  induction n as [|n IH]; intros lines Hl.
  - destruct lines; [constructor | simpl in Hl; lia].
  - destruct lines as [|l rest]; [constructor |].
    simpl in Hl. cbn [installed_lines]. cbv zeta.
    pose proof (IH rest ltac:(lia)) as F1.
    destruct (nonempty (strip l) && negb (startswith " " (strip l)));
      [| exact F1].
    destruct (2 <=? List.length (splitn " " 1 (strip l)))%nat eqn:C3;
      [| exact F1].
    apply Nat.leb_le in C3.
    destruct rest as [|d rest'].
    + constructor; [now apply installed_record_ok | constructor].
    + destruct (startswith "    " d).
      * constructor; [now apply installed_record_ok |].
        apply IH. simpl in Hl. lia.
      * constructor; [now apply installed_record_ok | exact F1].
Qed.

(** X18.  The search worker runs one query, chosen by the kind of search,
    and hands over what the parser of that kind makes of what the query
    printed, whatever its exit status: for "official" the records the
    official parser makes of the output of [pacman -Ss], for "aur" the
    records the AUR parser makes of the output of [yay -Ss], and for any
    other kind the records of the installed search on the output of
    [pacman -Qs].  When that one query cannot be run the worker hands over
    the empty list, whatever the other programs would do.  So the records
    are of the kind asked for: those of the official parser, those of the
    AUR parser, or records with the repository "installed", the installed
    flag set, a name that is not empty and is also the package name. *)
Theorem search_worker_results (sys : system) (query search_type : string) :
  (search_type = "official" ->
   Forall (official_record_ok sys) (run sys query search_type))
  /\ (search_type = "aur" ->
      Forall (aur_record_ok sys) (run sys query search_type))
  /\ (search_type <> "official" -> search_type <> "aur" ->
      Forall (fun r => repository r = "installed" /\ installed r = true
                       /\ pkg r = Search.name r /\ Search.name r <> "")
        (run sys query search_type))
  /\ ((forall argv, In query argv -> sys argv = Failed) ->
      run sys query search_type = [])
  /\ (search_type = "official" ->
      run sys query search_type
      = match sys ["pacman"; "-Ss"; query] with
        | Failed => []
        | Completed _ out => _parse_pacman_search sys out
        end)
  /\ (search_type = "aur" ->
      run sys query search_type
      = match sys ["yay"; "-Ss"; query] with
        | Failed => []
        | Completed _ out => _parse_aur_search sys out
        end)
  /\ (search_type <> "official" -> search_type <> "aur" ->
      run sys query search_type
      = match sys ["pacman"; "-Qs"; query] with
        | Failed => []
        | Completed _ out => installed_lines sys (split LF out)
        end)
  /\ (search_type = "official" -> sys ["pacman"; "-Ss"; query] = Failed ->
      run sys query search_type = [])
  /\ (search_type = "aur" -> sys ["yay"; "-Ss"; query] = Failed ->
      run sys query search_type = [])
  /\ (search_type <> "official" -> search_type <> "aur" ->
      sys ["pacman"; "-Qs"; query] = Failed ->
      run sys query search_type = []).
Proof.
  unfold run.
  split; [| split; [| split; [| split; [| split; [| split; [| split;
    [| split; [| split]]]]]]]].
  - intros ->. simpl. destruct (sys _) as [|c out]; [constructor |].
    apply (pacman_lines_facts sys (List.length (split LF out))). lia.
  - intros ->. simpl. destruct (sys _) as [|c out]; [constructor |].
    apply aur_lines_facts.
  - intros H1 H2. apply String.eqb_neq in H1, H2. rewrite H1, H2.
    destruct (sys _) as [|c out]; [constructor |].
    apply (installed_lines_facts sys (List.length (split LF out))). lia.
  - intros F.
    rewrite (F ["pacman"; "-Ss"; query]), (F ["yay"; "-Ss"; query]),
      (F ["pacman"; "-Qs"; query]) by (simpl; auto).
    destruct (search_type =? "official"), (search_type =? "aur");
      reflexivity.
  - intros ->. reflexivity.
  - intros ->. reflexivity.
  - intros H1 H2. apply String.eqb_neq in H1, H2. now rewrite H1, H2.
  - intros -> F. simpl. now rewrite F.
  - intros -> F. simpl. now rewrite F.
  - intros H1 H2 F. apply String.eqb_neq in H1, H2.
    now rewrite H1, H2, F.
Qed.

Lemma search_worker_results_witness :
  run nothing_installed "vim" "installed" = []
  /\ Forall (official_record_ok vim_installed)
       (run vim_installed "vim" "official")
  /\ run pacman_only "vim" "official"
     = [mkPackage "core/vim" "vim" "2:9.1.0-1" "Vi Improved" "core" true]
  /\ run pacman_only "vim" "aur" = [].
Proof.
  destruct (search_worker_results nothing_installed "vim" "installed")
    as (_ & _ & _ & A & _).
  destruct (search_worker_results vim_installed "vim" "official")
    as (B & _).
  destruct (search_worker_results pacman_only "vim" "official")
    as (_ & _ & _ & _ & C & _).
  destruct (search_worker_results pacman_only "vim" "aur")
    as (_ & _ & _ & _ & _ & _ & _ & _ & D & _).
  split; [apply A; reflexivity |]. split; [apply B; reflexivity |].
  split; [exact (C eq_refl) | exact (D eq_refl eq_refl)].
Defined.

Lemma installed_lines_rec (sys : system) (h n v : string)
    (rest : list string) :
  strip h = n ++ " " ++ v -> char_in " " n = false ->
  installed_lines sys (h :: rest)
  = match rest with
    | d :: rest' =>
        if startswith "    " d
        then installed_record sys [n; v] (strip d)
               :: installed_lines sys rest'
        else installed_record sys [n; v] "" :: installed_lines sys rest
    | [] => [installed_record sys [n; v] ""]
    end.
Proof.
  intros Hs Hn. cbn [installed_lines]. cbv zeta.
  rewrite (strip_not_indented h). rewrite Hs.
  change (n ++ " " ++ v) with (n ++ String " " v).
  rewrite (splitn_cut " " 0 n v Hn).
  replace (nonempty (n ++ String " " v)) with true
    by (destruct n; reflexivity).
  reflexivity.
Qed.

Lemma installed_lines_skip (sys : system) (l : string) (rest : list string) :
  char_in " " (strip l) = false ->
  installed_lines sys (l :: rest) = installed_lines sys rest.
Proof.
  intros H. cbn [installed_lines]. cbv zeta.
  rewrite (splitn_whole " " 1 _ H).
  destruct (nonempty (strip l) && negb (startswith " " (strip l)));
    reflexivity.
Qed.

(** X19.  On a block of lines as [pacman -Qs] prints them, the installed
    search gives one record for each line that has two fields, and the
    name of the record is the second field, the text after the first
    space, not the first field; the version is the one looked up for that
    name, and the description the stripped line that follows when it
    starts with four spaces. *)
Theorem installed_search_block (sys : system) (es : list entry) :
  Forall well_formed es ->
  installed_lines sys (flat_map lines_of es)
  = flat_map (installed_records_of sys) es.
Proof.
  induction 1 as [|e es He Hes IH]; [reflexivity |].
  pose proof (first_line_not_description es Hes) as F.
  destruct e as [h n v [d|] | l].
  - destruct He as (_ & Hs & Hn & Hd).
    cbn [flat_map lines_of installed_records_of app description_of].
    rewrite (installed_lines_rec sys h n v _ Hs Hn), Hd, IH. reflexivity.
  - destruct He as (_ & Hs & Hn & _).
    cbn [flat_map lines_of installed_records_of app description_of].
    rewrite (installed_lines_rec sys h n v _ Hs Hn), <- IH.
    destruct (flat_map lines_of es) as [|l ls]; [| rewrite F]; reflexivity.
  - destruct He as [_ Hl].
    cbn [flat_map lines_of installed_records_of app].
    now rewrite (installed_lines_skip sys l _ Hl).
Qed.

Lemma installed_search_block_witness :
  installed_lines nothing_installed
    ["local/vim 2:9.1.0-1"; "    Vi Improved, a text editor"; ""]
  = [mkPackage "2:9.1.0-1" "2:9.1.0-1" "" "Vi Improved, a text editor"
       "installed" true].
Proof.
  apply (installed_search_block nothing_installed
           [Rec "local/vim 2:9.1.0-1" "local/vim" "2:9.1.0-1"
              (Some "    Vi Improved, a text editor");
            Skip ""]).
  repeat constructor.
Defined.

(** ** The updates page *)

Import UpdatesPage.

Lemma toggle_all_selected (store : list UpdatesPage.row) :
  map row_name (filter row_selected (_updates_toggle_all true store))
  = map row_name store
  /\ filter row_selected (_updates_toggle_all false store) = [].
Proof.
  unfold _updates_toggle_all, row_selected, row_name.
  induction store as [|r store [A B]]; [split; reflexivity |].
  cbn [map filter fst snd]. split.
  - cbn [map fst snd]. now rewrite A.
  - exact B.
Qed.

(** X20.  Right after a scan is shown no update is selected, so "Apply
    Selected" starts nothing and does not ask for the password.  With all
    rows selected and the password given it starts [pacman -S --noconfirm]
    followed by the names of the scan in their order, under the label
    "apply updates"; without the password it starts nothing.  Toggling a
    row twice gives the store back. *)
Theorem updates_selection (items : list update_item) (sudo_ok : bool) :
  let store := fst (_apply_updates_data items) in
  _updates_apply_selected sudo_ok store = None
  /\ _updates_apply_selected true (_updates_toggle_all true store)
     = match items with
       | [] => None
       | _ => Some ((["pacman"; "-S"; "--noconfirm"]
                     ++ map Updates.name items)%list, "apply updates")
       end
  /\ _updates_apply_selected false (_updates_toggle_all true store) = None
  /\ _updates_apply_selected sudo_ok (_updates_toggle_all false store) = None
  /\ (forall p (st : list UpdatesPage.row),
         _updates_toggle_row p (_updates_toggle_row p st) = st)
  /\ snd (_apply_updates_data items)
     = "Updates (" ++ str_of_Z (Z.of_nat (List.length items)) ++ ")".
Proof.
  cbv zeta.
  assert (N : map row_name (fst (_apply_updates_data items))
              = map Updates.name items).
  { unfold _apply_updates_data. simpl. rewrite map_map. reflexivity. }
  assert (F : filter row_selected (fst (_apply_updates_data items)) = []).
  { unfold _apply_updates_data. cbn [fst]. clear N.
    induction items as [|it items IH]; [reflexivity |].
    cbn [map filter]. unfold row_selected at 1. cbn [fst]. exact IH. }
  destruct (toggle_all_selected (fst (_apply_updates_data items))) as [A B].
  unfold _updates_apply_selected.
  rewrite F, A, B, N. simpl.
  repeat split.
  - destruct items; reflexivity.
  - destruct items; reflexivity.
  - intros p st. revert p. induction st as [|[[b n] t] st IH]; intros p.
    + destruct p; reflexivity.
    + destruct p as [|p]; simpl.
      * unfold row_selected, row_name. simpl. now rewrite negb_involutive.
      * now rewrite IH.
Qed.

(** ** The repositories page *)

Import Repos.

Lemma strip_prefix_names (repo : string) (names : list string) :
  Forall (fun n => char_in "/" n = false) names ->
  map (fun p => last_field (split "/" p))
    (map (fun n => repo ++ "/" ++ n) names) = names.
Proof.
  induction 1 as [|n l Hn _ IH]; [reflexivity |].
  cbn [map]. rewrite IH. f_equal.
  change (repo ++ "/" ++ n) with (repo ++ String "/" n).
  now apply split_last.
Qed.

(** X21.  "Remove Selected" undoes the prefix that the selection puts
    before each name: when no package name of the table has a "/" in it,
    the removal command is [pacman -R --noconfirm] followed by the
    selected names themselves, while the installation command gets each
    selected name behind the repository and a "/".  With nothing selected,
    no repository chosen, or no password, neither starts anything. *)
Theorem repos_selection_round_trip (repo : string) (store : list Repos.row) :
  repo <> "" ->
  Forall (fun x : Repos.row => char_in "/" (snd (fst x)) = false) store ->
  let names := map (fun x : Repos.row => snd (fst x))
                 (filter (fun x : Repos.row => fst (fst x)) store) in
  _repos_remove_selected true (Some repo) store
  = match names with
    | [] => None
    | _ => Some ((["pacman"; "-R"; "--noconfirm"] ++ names)%list,
                 "remove (repos)")
    end
  /\ _repos_install_selected true (Some repo) store
     = match names with
       | [] => None
       | _ => Some ((["pacman"; "-S"; "--noconfirm"]
                     ++ map (fun n => (repo ++ "/" ++ n)%string) names)%list,
                    "install (repos)")
       end
  /\ _repos_remove_selected false (Some repo) store = None
  /\ _repos_install_selected false (Some repo) store = None
  /\ _repos_remove_selected true None store = None
  /\ _repos_install_selected true None store = None.
Proof.
  intros Hr Hs. cbv zeta.
  set (names := map (fun x : Repos.row => snd (fst x))
                  (filter (fun x : Repos.row => fst (fst x)) store)).
  assert (G : _repos_get_selected_packages (Some repo) store
              = map (fun n => repo ++ "/" ++ n) names).
  { unfold _repos_get_selected_packages, names.
    apply String.eqb_neq in Hr. rewrite Hr, map_map. reflexivity. }
  assert (Hn : Forall (fun n => char_in "/" n = false) names).
  { unfold names. rewrite Forall_forall in *. intros n Hin.
    apply in_map_iff in Hin. destruct Hin as (x & <- & Hx).
    apply Hs. apply filter_In in Hx. tauto. }
  unfold _repos_remove_selected, _repos_install_selected. rewrite G.
  destruct names as [|n ns]; [repeat split |].
  pose proof (strip_prefix_names repo (n :: ns) Hn) as E.
  cbn [map] in E |- *. split; [now rewrite E | repeat split].
Qed.

Lemma repos_selection_round_trip_witness :
  _repos_remove_selected true (Some "extra")
    [(true, "vim", true); (false, "gvim", false); (true, "nano", true)]
  = Some (["pacman"; "-R"; "--noconfirm"; "vim"; "nano"], "remove (repos)").
Proof.
  destruct (repos_selection_round_trip "extra"
              [(true, "vim", true); (false, "gvim", false);
               (true, "nano", true)]) as [H _].
  - discriminate.
  - repeat constructor.
  - exact H.
Defined.

Lemma ascii_compare_trans (a b c : ascii) :
  Ascii.compare a b <> Gt -> Ascii.compare b c <> Gt ->
  Ascii.compare a c <> Gt
  /\ (Ascii.compare a c = Eq ->
      Ascii.compare a b = Eq /\ Ascii.compare b c = Eq).
Proof.
  unfold Ascii.compare.
  destruct (N.compare_spec (N_of_ascii a) (N_of_ascii b)) as [Eab | Lab | Gab];
    destruct (N.compare_spec (N_of_ascii b) (N_of_ascii c))
      as [Ebc | Lbc | Gbc];
    destruct (N.compare_spec (N_of_ascii a) (N_of_ascii c))
      as [Eac | Lac | Gac];
    intros K1 K2; split; try congruence; try lia; intros K3;
    try discriminate; auto; lia.
Qed.

Lemma string_leb_trans (a b c : string) :
  String.leb a b = true -> String.leb b c = true -> String.leb a c = true.
Proof.
  unfold String.leb. revert b c.
  induction a as [|x a IH]; intros b c H1 H2.
  - destruct c; reflexivity.
  - destruct b as [|y b]; [discriminate |].
    destruct c as [|z c]; [discriminate |].
    simpl in *.
    destruct (Ascii.compare x y) eqn:Exy; try discriminate;
      destruct (Ascii.compare y z) eqn:Eyz; try discriminate;
      destruct (ascii_compare_trans x y z) as [N E];
      try (rewrite Exy; discriminate); try (rewrite Eyz; discriminate);
      destruct (Ascii.compare x z) eqn:Exz; try reflexivity;
      try (now contradiction N);
      try (destruct (E eq_refl) as [E1 E2]; congruence).
    now apply (IH b c).
Qed.

Lemma insert_in (x z : item) (l : list item) :
  In z (insert x l) <-> z = x \/ In z l.
Proof.
  induction l as [|y l IH]; simpl; [intuition |].
  destruct (String.leb (Repos.name x) (Repos.name y)); simpl;
    [intuition | rewrite IH; intuition].
Qed.

Lemma sorted_in (z : item) (l : list item) : In z (sorted l) <-> In z l.
Proof.
  induction l as [|x l IH]; simpl; [tauto |].
  rewrite insert_in, IH. intuition.
Qed.

Lemma insert_sorted (x : item) (l : list item) :
  StronglySorted
    (fun a b => String.leb (Repos.name a) (Repos.name b) = true) l ->
  StronglySorted
    (fun a b => String.leb (Repos.name a) (Repos.name b) = true)
    (insert x l).
Proof.
  induction 1 as [|y l Hl IH Hy]; simpl.
  - repeat constructor.
  - destruct (String.leb (Repos.name x) (Repos.name y)) eqn:E.
    + constructor; [now constructor |].
      constructor; [exact E |].
      rewrite Forall_forall in *. intros z Hz.
      eapply string_leb_trans; [exact E | now apply Hy].
    + constructor; [exact IH |].
      rewrite Forall_forall in *. intros z Hz.
      apply insert_in in Hz. destruct Hz as [-> | Hz]; [| now apply Hy].
      destruct (String.leb_total (Repos.name x) (Repos.name y)); congruence.
Qed.

Lemma sorted_sorted (l : list item) :
  StronglySorted
    (fun a b => String.leb (Repos.name a) (Repos.name b) = true) (sorted l).
Proof.
  induction l as [|x l IH]; simpl; [constructor | now apply insert_sorted].
Qed.

Lemma sorted_rows (p : item -> bool) (l : list item) :
  StronglySorted
    (fun a b => String.leb (Repos.name a) (Repos.name b) = true) l ->
  rows_by_name (map to_row (filter p l)).
Proof.
  unfold rows_by_name. induction 1 as [|y l Hl IH Hy]; simpl; [constructor |].
  destruct (p y); [| exact IH].
  simpl. constructor; [exact IH |].
  rewrite Forall_forall in *. intros r Hr.
  apply in_map_iff in Hr. destruct Hr as (z & <- & Hz).
  apply filter_In in Hz. simpl. apply Hy. tauto.
Qed.

Lemma rows_firstn (n : nat) (rows : list Repos.row) :
  rows_by_name rows -> rows_by_name (firstn n rows).
Proof.
  unfold rows_by_name. intros H. revert n.
  induction H as [|r rows Hr IH Hf]; intros n.
  - rewrite firstn_nil. constructor.
  - destruct n as [|n]; simpl; [constructor |].
    constructor; [apply IH |].
    rewrite Forall_forall in *. intros z Hz. apply Hf.
    rewrite <- (firstn_skipn n rows). apply in_or_app. now left.
Qed.

Lemma fill_rows (query : string) (installed_only : bool) (n : nat)
    (items : list item) :
  forall count, (count < n)%nat ->
  fill query installed_only (Some n) count items
  = firstn (n - count)
      (map to_row (filter (shown query installed_only) items)).
Proof.
  induction items as [|it rest IH]; intros count Hc.
  - simpl. now rewrite firstn_nil.
  - cbn [fill filter]. unfold shown at 1.
    destruct (installed_only && negb (Repos.installed it)); simpl negb;
      cbn [andb]; [now apply IH |].
    destruct (nonempty query
              && negb (str_in query (lower (Repos.name it))));
      simpl negb; [now apply IH |].
    cbn [map]. destruct (Nat.leb_spec n (S count)) as [L | L].
    + replace (n - count)%nat with 1%nat by lia. reflexivity.
    + replace (n - count)%nat with (S (n - S count)) by lia.
      cbn [firstn]. rewrite <- (IH (S count)) by lia. reflexivity.
Qed.

Lemma fill_all (query : string) (installed_only : bool) (items : list item) :
  forall count,
  fill query installed_only None count items
  = map to_row (filter (shown query installed_only) items).
Proof.
  induction items as [|it rest IH]; intros count; [reflexivity |].
  cbn [fill filter]. unfold shown at 1.
  destruct (installed_only && negb (Repos.installed it)); simpl negb;
    cbn [andb]; [now apply IH |].
  destruct (nonempty query && negb (str_in query (lower (Repos.name it))));
    simpl negb; [now apply IH |].
  cbn [map]. rewrite <- (IH (S count)). reflexivity.
Qed.

(** X22.  The table of a repository shows its packages that pass the two
    filters, in the order of their names, none of them selected: all of
    them with "Show All", and the first 200 otherwise.  A package passes
    when it is installed or "Installed only" is off, and when the filter
    text, stripped and lowered, is empty or occurs in its lowered name. *)
Theorem populate_rows (data : catalog) (repo text : string)
    (installed_only show_all : bool) :
  let q := lower (strip text) in
  let matching := map to_row (filter (shown q installed_only)
                                (sorted (get repo data))) in
  let rows := _populate_repo_packages data repo text installed_only
                show_all in
  rows = (if show_all then matching else firstn 200 matching)
  /\ (show_all = false -> (List.length rows <= 200)%nat)
  /\ rows_by_name rows
  /\ Forall (fun r => exists it, In it (get repo data) /\ r = to_row it
                                 /\ shown q installed_only it = true) rows.
Proof.
  cbv zeta.
  assert (E : _populate_repo_packages data repo text installed_only show_all
              = if show_all
                then map to_row (filter (shown (lower (strip text))
                                           installed_only)
                                   (sorted (get repo data)))
                else firstn 200
                       (map to_row (filter (shown (lower (strip text))
                                              installed_only)
                                      (sorted (get repo data))))).
  { unfold _populate_repo_packages. destruct show_all.
    - apply fill_all.
    - rewrite fill_rows by lia. reflexivity. }
  pose proof (sorted_rows (shown (lower (strip text)) installed_only) _
                (sorted_sorted (get repo data))) as S.
  rewrite E. split; [reflexivity |]. split; [| split].
  - intros ->. apply firstn_le_length.
  - destruct show_all; [exact S | now apply rows_firstn].
  - assert (F : Forall (fun r => exists it, In it (get repo data)
                                   /\ r = to_row it
                                   /\ shown (lower (strip text))
                                        installed_only it = true)
                  (map to_row (filter (shown (lower (strip text))
                                         installed_only)
                                 (sorted (get repo data))))).
    { rewrite Forall_forall. intros r Hr. apply in_map_iff in Hr.
      destruct Hr as (it & <- & Hit). apply filter_In in Hit.
      destruct Hit as [Hin Hs]. exists it. rewrite sorted_in in Hin. auto. }
    destruct show_all; [exact F |].
    rewrite Forall_forall in *. intros r Hr. apply F.
    rewrite <- (firstn_skipn 200 (map to_row _)). apply in_or_app. now left.
Qed.

Lemma populate_rows_witness :
  (List.length
     (_populate_repo_packages
        [("core", [mkItem "vim" true; mkItem "bash" true;
                   mkItem "nano" false])]
        "core" "" true false) <= 200)%nat
  /\ _populate_repo_packages
       [("core", [mkItem "vim" true; mkItem "bash" true;
                  mkItem "nano" false])]
       "core" " A " true false
     = [(false, "bash", true)].
Proof.
  destruct (populate_rows
              [("core", [mkItem "vim" true; mkItem "bash" true;
                         mkItem "nano" false])]
              "core" "" true false) as (_ & H & _).
  split; [now apply H | reflexivity].
Defined.

Lemma add_facts (repo : string) (it : item) (data : catalog) :
  total (add repo it data) = S (total data)
  /\ (forall P : string * list item -> Prop,
         (forall its, P (repo, its) -> P (repo, its ++ [it])%list) ->
         P (repo, [it]) -> Forall P data -> Forall P (add repo it data))
  /\ (NoDup (map fst data) -> NoDup (map fst (add repo it data)))
  /\ (forall k, In k (map fst (add repo it data)) ->
                k = repo \/ In k (map fst data)).
Proof.
  unfold total. induction data as [|[r its] data (T & F & N & K)]; simpl.
  - repeat split.
    + intros P _ H _. repeat constructor. exact H.
    + intros _. repeat constructor. intros [].
    + intros k [<- | []]. now left.
  - destruct (String.eqb_spec r repo) as [-> | Hne]; simpl.
    + repeat split.
      * rewrite length_app. simpl. rewrite Nat.add_1_r. reflexivity.
      * intros P Hs _ Hd. inversion Hd; subst. constructor; auto.
      * auto.
      * intros k [<- | H]; auto.
    + repeat split.
      * rewrite T. lia.
      * intros P Hs H0 Hd. inversion Hd; subst. constructor; auto.
      * intros Hn. inversion Hn as [|? ? Hr Hn']; subst.
        constructor; [| now apply N].
        intros Hin. destruct (K r Hin) as [-> | H]; [congruence | tauto].
      * intros k [<- | H]; [auto |]. destruct (K k H); auto.
Qed.

Lemma repos_line_fields (data : catalog) (line : string) :
  repos_line data line
  = if (2 <=? List.length (split_ws line))%nat
    then add (nth 0 (split_ws line) "")
           (mkItem (nth 1 (split_ws line) "") (str_in "[installed]" line))
           data
    else data.
Proof.
  unfold repos_line. destruct (nonempty (strip line)) eqn:E; cbn [negb].
  - rewrite Nat.ltb_antisym.
    destruct (2 <=? List.length (split_ws line))%nat; reflexivity.
  - unfold nonempty in E. apply negb_false_iff, String.eqb_eq in E.
    now rewrite (strip_empty_split_ws _ E).
Qed.

(** What holds of every group of the catalog. *)
Lemma repos_lines_facts (ls : list string) (data : catalog) :
  let P := fun kv : string * list item =>
             word (fst kv) /\ snd kv <> []
             /\ Forall (fun it => word (Repos.name it)) (snd kv) in
  NoDup (map fst data) -> Forall P data ->
  NoDup (map fst (fold_left repos_line ls data))
  /\ Forall P (fold_left repos_line ls data)
  /\ total (fold_left repos_line ls data)
     = (total data
        + List.length
            (filter (fun l => (2 <=? List.length (split_ws l))%nat) ls))%nat.
Proof.
  cbv zeta. revert data. induction ls as [|l ls IH]; intros data N F.
  - simpl. repeat split; try assumption. lia.
  - cbn [fold_left filter]. rewrite repos_line_fields.
    destruct (Nat.leb_spec 2 (List.length (split_ws l))) as [L | L].
    + pose proof (split_ws_words l) as W.
      destruct (add_facts (nth 0 (split_ws l) "")
                  (mkItem (nth 1 (split_ws l) "") (str_in "[installed]" l))
                  data) as (T & A & Nd & _).
      destruct (IH (add (nth 0 (split_ws l) "")
                      (mkItem (nth 1 (split_ws l) "")
                         (str_in "[installed]" l)) data)) as (R1 & R2 & R3).
      * now apply Nd.
      * apply A; [| | exact F].
        -- intros its (Hw & _ & Hf). simpl in *.
           split; [exact Hw |]. split; [destruct its; discriminate |].
           apply Forall_app. split; [exact Hf |].
           constructor; [| constructor].
           simpl. apply nth_word; [exact W | lia].
        -- simpl. split; [apply nth_word; [exact W | lia] |].
           split; [discriminate |].
           constructor; [| constructor].
           simpl. apply nth_word; [exact W | lia].
      * repeat split; try assumption. rewrite R3, T. simpl. lia.
    + now apply IH.
Qed.

(** X23.  The catalog built from what [pacman -Sl] prints has each
    repository once, no repository without packages, and only names that
    are fields of a line, not empty and without white space; it holds one
    package for every line with at least two fields, whatever the exit
    status, and is empty when the query cannot be run. *)
Theorem repos_catalog (r : run_result) :
  NoDup (map fst (load_repos_data r))
  /\ Forall (fun kv : string * list item =>
               word (fst kv) /\ snd kv <> []
               /\ Forall (fun it => word (Repos.name it)) (snd kv))
       (load_repos_data r)
  /\ (forall code out,
         r = Completed code out ->
         total (load_repos_data r)
         = List.length
             (filter (fun l => (2 <=? List.length (split_ws l))%nat)
                (split LF out)))
  /\ (r = Failed -> load_repos_data r = []).
Proof.
  destruct r as [|code out]; simpl.
  - repeat split; try constructor. intros c o H. discriminate.
  - destruct (repos_lines_facts (split LF out) [])
      as (A & B & C); [constructor | constructor |].
    repeat split; try assumption.
    + intros c o E. injection E as _ <-. exact C.
    + discriminate.
Qed.

Lemma repos_catalog_witness :
  total (load_repos_data
           (Completed 0 "core bash 5.2.026-2 [installed]")) = 1%nat.
Proof.
  destruct (repos_catalog (Completed 0 "core bash 5.2.026-2 [installed]"))
    as (_ & _ & H & _).
  apply (H 0%Z "core bash 5.2.026-2 [installed]" eq_refl).
Defined.

(** ** An operation from the request to its done call *)

Import WindowRun.

Lemma queue_next_last (ws : list worker) (c : list string) (o : string)
    (pw : option string) (x : ui_call) (p : list ui_call) :
  queue_next (List.length ws) (ws ++ [mkWorker c o pw (x :: p) true])%list
  = ((ws ++ [mkWorker c o pw p true])%list, [x]).
Proof.
  induction ws as [|w ws IH]; [reflexivity |].
  simpl. now rewrite IH.
Qed.

Lemma run_events_app (a b : list event) (s : window) :
  run_events (a ++ b) s = run_events b (run_events a s).
Proof. unfold run_events. apply fold_left_app. Qed.

Lemma queue_all (cw : option nat) (ws : list worker) (c : list string)
    (o : string) (pw sp : option string) (u : widgets) (dl : list dialog)
    (p : list ui_call) :
  forall q,
  run_events (repeat (WorkerQueues (List.length ws)) (List.length p))
    (mkWindow cw (ws ++ [mkWorker c o pw p true])%list sp u q dl)
  = mkWindow cw (ws ++ [mkWorker c o pw [] true])%list sp u (q ++ p)%list dl.
Proof.
  induction p as [|x p IH]; intros q.
  - simpl. now rewrite app_nil_r.
  - cbn [List.length repeat]. unfold run_events in *. cbn [fold_left].
    cbn [step workers current_worker sudo_password ui idle dialogs].
    rewrite queue_next_last. rewrite IH. now rewrite <- app_assoc.
Qed.

Lemma dispatch_calls (now : string) (cw : option nat) (ws : list worker)
    (sp : option string) (dl : list dialog) (cs : list ui_call) :
  done_count cs = 0%nat ->
  forall u rest,
  run_events (repeat (Dispatch now) (List.length cs))
    (mkWindow cw ws sp u (cs ++ rest)%list dl)
  = mkWindow cw ws sp (fold_left (show_call now) cs u) rest dl.
Proof.
  induction cs as [|c cs IH]; intros Hd u rest; [reflexivity |].
  cbn [List.length repeat]. unfold run_events in *. cbn [fold_left app].
  destruct c as [m | v | t | ok m]; simpl in Hd; try discriminate;
    cbn [step dispatch idle]; unfold with_ui; cbn [ui workers current_worker
      sudo_password idle dialogs show_call]; now rewrite IH.
Qed.

Lemma shown_calls (now : string) (cs : list ui_call) :
  forall u,
  let u' := fold_left (show_call now) cs u in
  textbuf u' = textbuf u ++ render now (ui_outputs cs)
  /\ install_btn u' = install_btn u /\ remove_btn u' = remove_btn u
  /\ reinstall_btn u' = reinstall_btn u
  /\ installed_view u' = installed_view u.
Proof.
  induction cs as [|c cs IH]; intros u.
  - simpl. rewrite append_empty_r. repeat split.
  - cbn [fold_left]. cbv zeta in *.
    destruct (IH (show_call now u c)) as (T & A & B & C & D).
    rewrite T, A, B, C, D.
    destruct c as [m | v | t | ok m]; cbn [show_call ui_outputs];
      try (repeat split; fail).
    + unfold set_progress_value. destruct (v <=? 0)%Z; repeat split.
    + unfold append_output. cbn [textbuf render install_btn remove_btn
        reinstall_btn installed_view].
      split; [| repeat split]. rewrite append_assoc. reflexivity.
Qed.

Lemma run_ends_with_done (popen : list string -> child)
    (command : list string) (operation : string) (password : option string) :
  let ret := snd (run_command_stream popen command true password) in
  exists pre,
    Worker.run popen command operation password
    = (pre ++ [UiDone (ret =? 0)%Z
                 (if (ret =? 0)%Z
                  then capitalize operation ++ " completed successfully!"
                  else capitalize operation ++ " failed with code "
                       ++ str_of_Z ret)%string])%list
    /\ done_count pre = 0%nat
    /\ ui_outputs pre = ui_outputs (Worker.run popen command operation password).
Proof.
  cbv zeta. unfold Worker.run.
  destruct (run_command_stream popen command true password) as [calls ret].
  simpl snd.
  exists ([UiStatus ("Starting " ++ operation ++ "..."); UiProgress 10]
          ++ flat_map relay calls ++ [UiProgress 100])%list.
  split; [| split].
  - rewrite <- !app_assoc. simpl. destruct (ret =? 0)%Z; reflexivity.
  - simpl. rewrite done_count_app, relayed_no_done. reflexivity.
  - simpl. rewrite !ui_outputs_app. simpl.
    destruct (ret =? 0)%Z; simpl; now rewrite !app_nil_r.
Qed.

(** X24.  When an operation is requested in a window that is not busy and
    has no call waiting, and nothing else happens until the main loop has
    run all the calls of its worker, then: the output buffer was cleared
    and holds the lines of the process in their order, each behind the
    time it was shown; one dialog was added, "Success" or "Error", with
    the message of the done call; the progress bar is hidden and the
    status is "Ready"; Update, Clean and Browse are enabled again, while
    Install, Remove and Reinstall stay disabled whatever they were before.
    When the operation succeeded and the installed list is shown, the
    reload adds its own line and status.  The worker thread is still
    alive at that point. *)
Theorem operation_to_completion (s : window) (popen : list string -> child)
    (command : list string) (op now : string) :
  busy s = false -> idle s = [] ->
  let t := Worker.run popen command op (sudo_password s) in
  let ret := snd (run_command_stream popen command true (sudo_password s)) in
  let s' := run_events
              (to_completion popen command op now (List.length (workers s))
                 (List.length t)) s in
  let reload := (ret =? 0)%Z && installed_view (ui s) in
  idle s' = []
  /\ textbuf (ui s')
     = render now (ui_outputs t)
       ++ (if reload then stamp now "Loading installed packages..." else "")
  /\ status (ui s') = (if reload then "Loading packages..." else "Ready")
  /\ progress_visible (ui s') = false
  /\ install_btn (ui s') = false
  /\ remove_btn (ui s') = false
  /\ reinstall_btn (ui s') = false
  /\ update_btn (ui s') = true
  /\ clean_btn (ui s') = true
  /\ browse_btn (ui s') = true
  /\ dialogs s'
     = (dialogs s
        ++ [if (ret =? 0)%Z
            then Info "Success"
                   (capitalize op ++ " completed successfully!")
            else Error "Error"
                   (capitalize op ++ " failed with code " ++ str_of_Z ret)])%list
  /\ busy s' = true.
Proof.
  intros Hb Hi. cbv zeta.
  destruct (run_ends_with_done popen command op (sudo_password s))
    as (pre & Et & Hd & Eo).
  set (ret := snd (run_command_stream popen command true (sudo_password s)))
    in *.
  set (t := Worker.run popen command op (sudo_password s)) in *.
  set (u0 := _set_controls_sensitive false
               (set_status ("Starting " ++ op ++ "...")
                  (set_progress_value 0 (set_textbuf "" (ui s))))).
  assert (E1 : step (Request popen command op) s
               = mkWindow (Some (List.length (workers s)))
                   (workers s
                    ++ [mkWorker command op (sudo_password s) t true])%list
                   (sudo_password s) u0 [] (dialogs s)).
  { simpl. unfold run_package_operation. rewrite Hb, Hi. reflexivity. }
  destruct (shown_calls now pre u0) as (T & A & B & C & D).
  set (u1 := fold_left (show_call now) pre u0) in *.
  set (msg := (if (ret =? 0)%Z
               then capitalize op ++ " completed successfully!"
               else capitalize op ++ " failed with code " ++ str_of_Z ret))
    in *.
  assert (Es : run_events
                 (to_completion popen command op now
                    (List.length (workers s)) (List.length t)) s
               = on_operation_finished now (ret =? 0)%Z msg
                   (mkWindow (Some (List.length (workers s)))
                      (workers s
                       ++ [mkWorker command op (sudo_password s) [] true])%list
                      (sudo_password s) u1 [] (dialogs s))).
  { unfold to_completion.
    change (run_events
              (Request popen command op
               :: repeat (WorkerQueues (List.length (workers s)))
                    (List.length t)
                  ++ repeat (Dispatch now) (List.length t))%list s)
      with (run_events
              (repeat (WorkerQueues (List.length (workers s)))
                 (List.length t)
               ++ repeat (Dispatch now) (List.length t))%list
              (step (Request popen command op) s)).
    rewrite E1, run_events_app, queue_all. cbn [app].
    rewrite Et, length_app, repeat_app, run_events_app.
    rewrite (dispatch_calls now _ _ _ _ pre Hd). reflexivity. }
  rewrite Es. clear Es E1.
  assert (Bz : nth_error
                 (workers s
                  ++ [mkWorker command op (sudo_password s) [] true])%list
                 (List.length (workers s))
               = Some (mkWorker command op (sudo_password s) [] true)).
  { rewrite nth_error_app2 by lia. now rewrite Nat.sub_diag. }
  assert (V : installed_view u1 = installed_view (ui s)).
  { rewrite D. reflexivity. }
  assert (A0 : install_btn u1 = false) by (rewrite A; reflexivity).
  assert (B0 : remove_btn u1 = false) by (rewrite B; reflexivity).
  assert (C0 : reinstall_btn u1 = false) by (rewrite C; reflexivity).
  assert (T0 : textbuf u1 = render now (ui_outputs t)).
  { rewrite T, Eo. reflexivity. }
  clearbody u1. clear T A B C D.
  unfold on_operation_finished, busy. subst msg.
  destruct (ret =? 0)%Z; cbn [andb];
    cbn [ui workers current_worker sudo_password idle dialogs];
    rewrite Bz; cbn [w_alive].
  - cbn [installed_view _set_controls_sensitive set_status
      set_progress_value Z.leb Z.compare].
    rewrite V. destruct (installed_view (ui s));
      cbn [textbuf status progress_visible install_btn remove_btn
        reinstall_btn update_btn clean_btn browse_btn append_output
        set_status _set_controls_sensitive andb];
      rewrite ?T0, ?A0, ?B0, ?C0; repeat split;
      try (now rewrite append_empty_r).
  - cbn [textbuf status progress_visible install_btn remove_btn
      reinstall_btn update_btn clean_btn browse_btn set_status
      set_progress_value _set_controls_sensitive andb Z.leb Z.compare].
    rewrite ?T0, ?A0, ?B0, ?C0. repeat split;
      try (now rewrite append_empty_r).
Qed.

Lemma operation_to_completion_witness :
  let s' := run_events
              (to_completion prints_package ["pacman"; "-S"; "vim"] "install"
                 "10:00:00" 0 7) init in
  textbuf (ui s')
  = "[10:00:00] resolving dependencies..." ++ String LF
      ("[10:00:00] installing vim..." ++ String LF "")
  /\ dialogs s' = [Info "Success" "Install completed successfully!"].
Proof.
  destruct (operation_to_completion init prints_package
              ["pacman"; "-S"; "vim"] "install" "10:00:00" eq_refl eq_refl)
    as (_ & T & _ & _ & _ & _ & _ & _ & _ & _ & D & _).
  split; [exact T | exact D].
Defined.

Lemma queue_next_length (i : nat) (ws : list worker) :
  List.length (fst (queue_next i ws)) = List.length ws.
Proof.
  revert i. induction ws as [|w ws IH]; intros i; [now destruct i |].
  destruct i as [|i]; simpl.
  - destruct (w_alive w), (w_pending w); reflexivity.
  - specialize (IH i). destruct (queue_next i ws). simpl in *. now rewrite IH.
Qed.

Lemma exit_worker_length (i : nat) (ws : list worker) :
  List.length (exit_worker i ws) = List.length ws.
Proof.
  revert i. induction ws as [|w ws IH]; intros i; [now destruct i |].
  destruct i as [|i]; simpl.
  - destruct (w_pending w); reflexivity.
  - now rewrite IH.
Qed.

Lemma slot_is_last (s : window) :
  Window.reachable s ->
  match current_worker s with
  | None => workers s = []
  | Some i => S i = List.length (workers s)
  end.
Proof.
  induction 1 as [|e s _ IH]; [reflexivity |].
  destruct e as [popen command op | i | i | now | p | u]; simpl.
  - unfold run_package_operation. destruct (busy s); [exact IH |].
    simpl. rewrite length_app. simpl. lia.
  - pose proof (queue_next_length i (workers s)) as L.
    destruct (queue_next i (workers s)) as [ws q]. simpl in *.
    destruct (current_worker s); [congruence |].
    rewrite IH in L. now destruct ws.
  - pose proof (exit_worker_length i (workers s)) as L.
    destruct (current_worker s); [congruence |].
    rewrite IH in L |- *. now destruct i.
  - destruct (dispatch_workers now s) as [-> ->]. exact IH.
  - exact IH.
  - exact IH.
Qed.

(** X25.  In every state the window can reach, only the worker that was
    started last can be alive: every worker started before it has ended,
    and the slot holds the last one. *)
Theorem only_latest_alive (s : window) :
  Window.reachable s ->
  (forall i w, nth_error (workers s) i = Some w -> w_alive w = true ->
               S i = List.length (workers s))
  /\ match current_worker s with
     | None => workers s = []
     | Some i => S i = List.length (workers s)
     end.
Proof.
  intros R. pose proof (slot_is_last s R) as L.
  split; [| exact L].
  intros i w Hw A. destruct (reachable_slot s R) as [I _].
  rewrite (I i w Hw A) in L. exact L.
Qed.

Lemma only_latest_alive_witness :
  current_worker (run_events done_before_exit init) = Some 0%nat
  /\ 1%nat = List.length (workers (run_events done_before_exit init)).
Proof.
  destruct (only_latest_alive (run_events done_before_exit init)) as [_ H].
  - apply reachable_run_events. constructor.
  - split; [vm_compute; reflexivity |].
    assert (E : current_worker (run_events done_before_exit init)
                = Some 0%nat) by (vm_compute; reflexivity).
    rewrite E in H. exact H.
Defined.
